(** * three.math: Quaternion, Euler and CubicInterpolant

    A shallow embedding of the rotation core (Quaternion, Euler) and of the
    cubic key-frame interpolant.

    Numbers.  A JavaScript [number] is read as a real number of the Standard
    Library: [+ - * /] are the field operations, [Math.sqrt], [Math.sin],
    [Math.cos], [Math.asin], [Math.acos], [Math.abs] are [sqrt], [sin], [cos],
    [asin], [acos], [Rabs].  Rounding, overflow, signed zeros, infinities and
    NaN are not part of this reading; every statement below is about the exact
    arithmetic of the formulas the source evaluates.  A test such as
    [t === 0] or [cos < 0] is the decision procedure of the order on [R].

    Where a division by zero takes the source out of the real numbers, the
    real reading stops ([Js.quotient] gives [None]); [Number] and
    [FullCubicInterpolant] follow [Infinity] and [NaN] through the cubic
    interpolant.

    Objects.  A method mutates [this] and returns it; here it takes the object
    and returns the new one.  The change hook [_onChangeCallback] is observed
    through a counter of its invocations carried by the object, and
    [console.warn] through the list of messages a method returns. *)

From Stdlib Require Import Reals Lra Lia ZArith List String Bool Psatz.
Import ListNotations.
Local Open Scope R_scope.

(** ** The JavaScript runtime the sources rely on *)
Module Js.

(** [Number.EPSILON], the gap between 1 and the next double: 2^-52. *)
Definition EPSILON : R := / 2 ^ 52.

(** [Math.atan2 (y, x)]: the angle of the point (x, y).  On the negative
    x axis the source answers PI for y = +0 and -PI for y = -0; the reals
    have one zero, and this reading answers PI there.  The statements below
    that reach this case say [-PI <= ... <= PI], or compare angles by their
    sine and cosine. *)
Definition atan2 (y x : R) : R :=
  if Rlt_dec 0 x then atan (y / x)
  else if Rlt_dec x 0 then
    (if Rle_dec 0 y then atan (y / x) + PI else atan (y / x) - PI)
  else if Rlt_dec 0 y then PI / 2
  else if Rlt_dec y 0 then - (PI / 2)
  else 0.

(** How a method call ends: normally with a value, or by [throw]. *)
Inductive completion (A : Type) : Type :=
| Normal (a : A)
| Throw (message : string).
Arguments Normal {A} a.
Arguments Throw {A} message.

(** An array of numbers.  A cell is [Some v], or [None] for a hole, which
    reads as [undefined] like an index past the end does. *)
Definition array : Type := list (option R).

(** A dense array, as the literal [[v0, v1, ...]] builds it. *)
Definition dense (l : list R) : array := map Some l.

(** [a[i]] for an index [i >= 0]. *)
Definition get (a : array) (i : nat) : option R :=
  match nth_error a i with
  | Some cell => cell
  | None => None
  end.

(** [a[i]] for a computed index, which may be negative: there is no such
    element, the read gives [undefined]. *)
Definition getZ (a : array) (i : Z) : option R :=
  if (i <? 0)%Z then None else get a (Z.to_nat i).

(** [a[i] = v].  Inside the array the cell is replaced; past the end the
    array grows up to [i], the cells in between being holes. *)
Fixpoint set (a : array) (i : nat) (v : R) : array :=
  match a, i with
  | [], O => [Some v]
  | [], S i' => None :: set [] i' v
  | _ :: a', O => Some v :: a'
  | cell :: a', S i' => cell :: set a' i' v
  end.

(** [a / b] where the divisor is not zero.  Where it is zero the source
    gives Infinity, -Infinity or NaN, which are no real numbers: [None]. *)
Definition quotient (a b : R) : option R :=
  if Req_dec_T b 0 then None else Some (a / b).

(** A string used as a condition: only the empty string is falsy. *)
Definition truthy (s : string) : bool := negb (String.eqb s "").

End Js.

(** Reading a number out of an array, in the option monad.  [None] stands for
    a read that gave [undefined]: the arithmetic of the source then continues
    on NaN, which the real-number reading does not follow. *)
Notation "'let?' x ':=' e 'in' k" :=
  (match e with Some x => k | None => None end)
  (at level 10, x pattern, e at level 100, k at level 200, only parsing).

(** ** MathUtils *)
Module MathUtils.

(** Modelled from the spec: MathUtils.clamp ([./MathUtils] is imported by
    Quaternion and Euler but is not among the sources).  The value is
    "clamped to [-1,1]"; the test suite pins clamp(0.5,0,1) = 0.5,
    clamp(-0.1,0,1) = 0 and clamp(1.1,0,1) = 1. *)
Definition clamp (value min max : R) : R := Rmax min (Rmin max value).

End MathUtils.

(** ** Matrix4 *)
Module Matrix4.

(** Modelled from the spec: the Matrix4 class ([./Matrix4] is imported but
    is not among the sources): "a flat 16-element, column-major array"
    reached through [elements]. *)
Record Matrix4 : Type := mkMatrix4 { elements : list R }.

(** What the constructor of Matrix4 guarantees. *)
Definition well_formed (m : Matrix4) : Prop :=
  List.length (elements m) = 16%nat.

(** [te[i]] on the 16 elements. *)
Definition te (m : Matrix4) (i : nat) : R := nth i (elements m) 0.

Definition identity : Matrix4 :=
  mkMatrix4 [1; 0; 0; 0;  0; 1; 0; 0;  0; 0; 1; 0;  0; 0; 0; 1].

(** The rotation by +90 degrees about Y, column-major: m13 = 1, m31 = -1,
    m22 = 1. *)
Definition rotationY90 : Matrix4 :=
  mkMatrix4 [0; 0; -1; 0;  0; 1; 0; 0;  1; 0; 0; 0;  0; 0; 0; 1].

(** The rotation matrix of the unit quaternion (0, 3/5, 0, 4/5), a rotation
    about Y, column-major. *)
Definition rotationY_3_4 : Matrix4 :=
  mkMatrix4 [7 / 25; 0; - (24 / 25); 0;  0; 1; 0; 0;
             24 / 25; 0; 7 / 25; 0;  0; 0; 0; 1].

(** The half turn about X, column-major: m22 = m33 = -1. *)
Definition rotationX180 : Matrix4 :=
  mkMatrix4 [1; 0; 0; 0;  0; -1; 0; 0;  0; 0; -1; 0;  0; 0; 0; 1].

End Matrix4.

(** ** Vector3 *)
Module Vector3.

(** Modelled from the spec: the Vector3 class ([./Vector3] is imported but is
    not among the sources): "numeric x/y/z fields and (for
    setFromUnitVectors) a dot product". *)
Record Vector3 : Type := mkVector3 { x : R; y : R; z : R }.

Definition new (x y z : R) : Vector3 := mkVector3 x y z.

(** Modelled from the spec: Vector3.set, which assigns the three fields. *)
Definition set (this : Vector3) (x y z : R) : Vector3 := mkVector3 x y z.

(** Modelled from the spec: Vector3.dot, the dot product. *)
Definition dot (this v : Vector3) : R :=
  x this * x v + y this * y v + z this * z v.

End Vector3.

(** ** Euler *)
Module Euler.
Import Matrix4.

Record Euler : Type := mkEuler {
  _x : R;
  _y : R;
  _z : R;
  _order : string;
  (** how many times [_onChangeCallback] has run *)
  changes : nat
}.

(** [static readonly DefaultOrder] and [new Euler(x, y, z, order)]. *)
Definition DefaultOrder : string := "XYZ".
Definition RotationOrders : list string :=
  ["XYZ"; "YZX"; "ZXY"; "XZY"; "YXZ"; "ZYX"]%string.
Definition new (x y z : R) (order : string) : Euler := mkEuler x y z order 0.

Definition _onChangeCallback (e : Euler) : Euler :=
  mkEuler (_x e) (_y e) (_z e) (_order e) (S (changes e)).

(** Assignments [this._x = v], ... *)
Definition set_x (e : Euler) (v : R) : Euler :=
  mkEuler v (_y e) (_z e) (_order e) (changes e).
Definition set_y (e : Euler) (v : R) : Euler :=
  mkEuler (_x e) v (_z e) (_order e) (changes e).
Definition set_z (e : Euler) (v : R) : Euler :=
  mkEuler (_x e) (_y e) v (_order e) (changes e).
Definition set_order (e : Euler) (o : string) : Euler :=
  mkEuler (_x e) (_y e) (_z e) o (changes e).

Definition unknown_order_warning (order : string) : string :=
  ("THREE.Euler: .setFromRotationMatrix() encountered an unknown order: "
     ++ order)%string.

(** [setFromRotationMatrix(m, order?, update?)].  An omitted argument is
    [None].  Returns the Euler and what was written to the console. *)
Definition setFromRotationMatrix (this : Euler) (m : Matrix4)
    (order : option string) (update : option bool) : Euler * list string :=
  let m11 := te m 0 in let m12 := te m 4 in let m13 := te m 8 in
  let m21 := te m 1 in let m22 := te m 5 in let m23 := te m 9 in
  let m31 := te m 2 in let m32 := te m 6 in let m33 := te m 10 in
  (* order = order || this._order *)
  let order :=
    match order with
    | Some o => if Js.truthy o then o else _order this
    | None => _order this
    end in
  let '(this, warnings) :=
    if (order =? "XYZ")%string then
      let this := set_y this (asin (MathUtils.clamp m13 (-1) 1)) in
      if Rlt_dec (Rabs m13) 0.9999999 then
        let this := set_x this (Js.atan2 (- m23) m33) in
        (set_z this (Js.atan2 (- m12) m11), [])
      else
        let this := set_x this (Js.atan2 m32 m22) in
        (set_z this 0, [])
    else if (order =? "YXZ")%string then
      let this := set_x this (asin (- MathUtils.clamp m23 (-1) 1)) in
      if Rlt_dec (Rabs m23) 0.9999999 then
        let this := set_y this (Js.atan2 m13 m33) in
        (set_z this (Js.atan2 m21 m22), [])
      else
        let this := set_y this (Js.atan2 (- m31) m11) in
        (set_z this 0, [])
    else if (order =? "ZXY")%string then
      let this := set_x this (asin (MathUtils.clamp m32 (-1) 1)) in
      if Rlt_dec (Rabs m32) 0.9999999 then
        let this := set_y this (Js.atan2 (- m31) m33) in
        (set_z this (Js.atan2 (- m12) m22), [])
      else
        let this := set_y this 0 in
        (set_z this (Js.atan2 m21 m11), [])
    else if (order =? "ZYX")%string then
      let this := set_y this (asin (- MathUtils.clamp m31 (-1) 1)) in
      if Rlt_dec (Rabs m31) 0.9999999 then
        let this := set_x this (Js.atan2 m32 m33) in
        (set_z this (Js.atan2 m21 m11), [])
      else
        let this := set_x this 0 in
        (set_z this (Js.atan2 (- m12) m22), [])
    else if (order =? "YZX")%string then
      let this := set_z this (asin (MathUtils.clamp m21 (-1) 1)) in
      if Rlt_dec (Rabs m21) 0.9999999 then
        let this := set_x this (Js.atan2 (- m23) m22) in
        (set_y this (Js.atan2 (- m31) m11), [])
      else
        let this := set_x this 0 in
        (set_y this (Js.atan2 m13 m33), [])
    else if (order =? "XZY")%string then
      let this := set_z this (asin (- MathUtils.clamp m12 (-1) 1)) in
      if Rlt_dec (Rabs m12) 0.9999999 then
        let this := set_x this (Js.atan2 m32 m22) in
        (set_y this (Js.atan2 m13 m11), [])
      else
        let this := set_x this (Js.atan2 (- m23) m33) in
        (set_y this 0, [])
    else
      (this, [unknown_order_warning order]) in
  let this := set_order this order in
  (* if (update !== false) this._onChangeCallback() *)
  let this :=
    match update with
    | Some false => this
    | _ => _onChangeCallback this
    end in
  (this, warnings).

(** [set(x, y, z, order)]; an omitted order is [None]. *)
Definition set (this : Euler) (x y z : R) (order : option string) : Euler :=
  let order :=
    match order with
    | Some o => if Js.truthy o then o else _order this
    | None => _order this
    end in
  _onChangeCallback (mkEuler x y z order (changes this)).

Definition clone (this : Euler) : Euler :=
  new (_x this) (_y this) (_z this) (_order this).

Definition copy (this euler : Euler) : Euler :=
  _onChangeCallback
    (mkEuler (_x euler) (_y euler) (_z euler) (_order euler) (changes this)).

(** [setFromVector3(v, order?)] *)
Definition setFromVector3 (this : Euler) (v : Vector3.Vector3)
    (order : option string) : Euler :=
  let order :=
    match order with
    | Some o => if Js.truthy o then o else _order this
    | None => _order this
    end in
  set this (Vector3.x v) (Vector3.y v) (Vector3.z v) (Some order).

Definition equals (this euler : Euler) : bool :=
  (if Req_dec_T (_x euler) (_x this) then true else false)
  && (if Req_dec_T (_y euler) (_y this) then true else false)
  && (if Req_dec_T (_z euler) (_z this) then true else false)
  && (_order euler =? _order this)%string.

(** [toVector3(optionalResult?)] *)
Definition toVector3 (this : Euler) (optionalResult : option Vector3.Vector3)
    : Vector3.Vector3 :=
  match optionalResult with
  | Some optionalResult =>
    Vector3.set optionalResult (_x this) (_y this) (_z this)
  | None => Vector3.new (_x this) (_y this) (_z this)
  end.

(** *** Used to state what [setFromRotationMatrix] recovers *)

(** The angle that [setFromRotationMatrix] takes from [Math.asin] under the
    order of [e]: y for XYZ and ZYX, x for YXZ and ZXY, z for YZX and XZY. *)
Definition asin_angle (e : Euler) : R :=
  let o := _order e in
  if ((o =? "XYZ") || (o =? "ZYX"))%string then _y e
  else if ((o =? "YXZ") || (o =? "ZXY"))%string then _x e
  else _z e.

(** The element of [m] that [setFromRotationMatrix] passes to [Math.asin]
    and tests against 0.9999999 under the order [o]: m13 for XYZ, m23 for
    YXZ, m32 for ZXY, m31 for ZYX, m21 for YZX, m12 for XZY. *)
Definition asin_element (o : string) (m : Matrix4) : R :=
  if (o =? "XYZ")%string then te m 8
  else if (o =? "YXZ")%string then te m 9
  else if (o =? "ZXY")%string then te m 6
  else if (o =? "ZYX")%string then te m 2
  else if (o =? "YZX")%string then te m 1
  else te m 4.

(** Two angles with the same sine and cosine: they differ by a multiple of
    2 PI. *)
Definition same_angle (a b : R) : Prop := cos a = cos b /\ sin a = sin b.

End Euler.

(** ** Quaternion *)
Module Quaternion.

Record Quaternion : Type := mkQuaternion {
  _x : R;
  _y : R;
  _z : R;
  _w : R;
  (** how many times [_onChangeCallback] has run *)
  changes : nat
}.

(** [new Quaternion(x, y, z, w)]; the defaults are (0, 0, 0, 1). *)
Definition new (x y z w : R) : Quaternion := mkQuaternion x y z w 0.

Definition components (q : Quaternion) : R * R * R * R :=
  (_x q, _y q, _z q, _w q).

Definition _onChangeCallback (q : Quaternion) : Quaternion :=
  mkQuaternion (_x q) (_y q) (_z q) (_w q) (S (changes q)).

(** The four assignments [this._x = x; ... this._w = w], without the hook. *)
Definition assign (this : Quaternion) (x y z w : R) : Quaternion :=
  mkQuaternion x y z w (changes this).

Definition set (this : Quaternion) (x y z w : R) : Quaternion :=
  _onChangeCallback (assign this x y z w).

Definition clone (this : Quaternion) : Quaternion :=
  new (_x this) (_y this) (_z this) (_w this).

Definition copy (this quaternion : Quaternion) : Quaternion :=
  _onChangeCallback
    (assign this (_x quaternion) (_y quaternion) (_z quaternion)
       (_w quaternion)).

(** The argument of [setFromEuler] as the runtime sees it: [undefined] or
    [null], or an object whose [isEuler] property is truthy or not. *)
Inductive EulerArg : Type :=
| Nullish
| Object (isEuler : bool) (fields : Euler.Euler).

(** [euler && euler.isEuler] *)
Definition has_euler_identity (euler : EulerArg) : bool :=
  match euler with
  | Nullish => false
  | Object isEuler _ => isEuler
  end.

Definition not_an_euler_error : string :=
  "THREE.Quaternion: .setFromEuler() now expects an Euler rotation rather than a Vector3 and order.".

Definition unknown_order_warning (order : string) : string :=
  ("THREE.Quaternion: .setFromEuler() encountered an unknown order: "
     ++ order)%string.

(** [setFromEuler(euler, update?)]: the quaternion and the console output,
    or the error thrown. *)
Definition setFromEuler (this : Quaternion) (euler : EulerArg)
    (update : option bool) : Js.completion (Quaternion * list string) :=
  match euler with
  | Nullish => Js.Throw not_an_euler_error
  | Object isEuler euler =>
    if negb isEuler then Js.Throw not_an_euler_error else
    let x := Euler._x euler in let y := Euler._y euler in
    let z := Euler._z euler in let order := Euler._order euler in
    let c1 := cos (x / 2) in
    let c2 := cos (y / 2) in
    let c3 := cos (z / 2) in
    let s1 := sin (x / 2) in
    let s2 := sin (y / 2) in
    let s3 := sin (z / 2) in
    let '(this, warnings) :=
      if (order =? "XYZ")%string then
        (assign this (s1 * c2 * c3 + c1 * s2 * s3)
                     (c1 * s2 * c3 - s1 * c2 * s3)
                     (c1 * c2 * s3 + s1 * s2 * c3)
                     (c1 * c2 * c3 - s1 * s2 * s3), [])
      else if (order =? "YXZ")%string then
        (assign this (s1 * c2 * c3 + c1 * s2 * s3)
                     (c1 * s2 * c3 - s1 * c2 * s3)
                     (c1 * c2 * s3 - s1 * s2 * c3)
                     (c1 * c2 * c3 + s1 * s2 * s3), [])
      else if (order =? "ZXY")%string then
        (assign this (s1 * c2 * c3 - c1 * s2 * s3)
                     (c1 * s2 * c3 + s1 * c2 * s3)
                     (c1 * c2 * s3 + s1 * s2 * c3)
                     (c1 * c2 * c3 - s1 * s2 * s3), [])
      else if (order =? "ZYX")%string then
        (assign this (s1 * c2 * c3 - c1 * s2 * s3)
                     (c1 * s2 * c3 + s1 * c2 * s3)
                     (c1 * c2 * s3 - s1 * s2 * c3)
                     (c1 * c2 * c3 + s1 * s2 * s3), [])
      else if (order =? "YZX")%string then
        (assign this (s1 * c2 * c3 + c1 * s2 * s3)
                     (c1 * s2 * c3 + s1 * c2 * s3)
                     (c1 * c2 * s3 - s1 * s2 * c3)
                     (c1 * c2 * c3 - s1 * s2 * s3), [])
      else if (order =? "XZY")%string then
        (assign this (s1 * c2 * c3 - c1 * s2 * s3)
                     (c1 * s2 * c3 - s1 * c2 * s3)
                     (c1 * c2 * s3 + s1 * s2 * c3)
                     (c1 * c2 * c3 + s1 * s2 * s3), [])
      else
        (this, [unknown_order_warning order]) in
    let this :=
      match update with
      | Some false => this
      | _ => _onChangeCallback this
      end in
    Js.Normal (this, warnings)
  end.

Definition dot (this v : Quaternion) : R :=
  _x this * _x v + _y this * _y v + _z this * _z v + _w this * _w v.

Definition lengthSq (this : Quaternion) : R :=
  _x this * _x this + _y this * _y this + _z this * _z this
  + _w this * _w this.

Definition length (this : Quaternion) : R :=
  sqrt (_x this * _x this + _y this * _y this + _z this * _z this
        + _w this * _w this).

Definition normalize (this : Quaternion) : Quaternion :=
  let l := length this in
  let this :=
    if Req_dec_T l 0 then assign this 0 0 0 1
    else
      let l := 1 / l in
      assign this (_x this * l) (_y this * l) (_z this * l) (_w this * l) in
  _onChangeCallback this.

Definition angleTo (this q : Quaternion) : R :=
  2 * acos (Rabs (MathUtils.clamp (dot this q) (-1) 1)).

Definition identity (this : Quaternion) : Quaternion := set this 0 0 0 1.

Definition conjugate (this : Quaternion) : Quaternion :=
  _onChangeCallback
    (assign this (_x this * -1) (_y this * -1) (_z this * -1) (_w this)).

Definition invert (this : Quaternion) : Quaternion := conjugate this.

Definition multiplyQuaternions (this a b : Quaternion) : Quaternion :=
  let qax := _x a in let qay := _y a in let qaz := _z a in
  let qaw := _w a in
  let qbx := _x b in let qby := _y b in let qbz := _z b in
  let qbw := _w b in
  _onChangeCallback
    (assign this
       (qax * qbw + qaw * qbx + qay * qbz - qaz * qby)
       (qay * qbw + qaw * qby + qaz * qbx - qax * qbz)
       (qaz * qbw + qaw * qbz + qax * qby - qay * qbx)
       (qaw * qbw - qax * qbx - qay * qby - qaz * qbz)).

Definition multiply (this q : Quaternion) : Quaternion :=
  multiplyQuaternions this this q.

Definition premultiply (this q : Quaternion) : Quaternion :=
  multiplyQuaternions this q this.

(** [fromArray(array, offset)]; [None] when one of the four reads gives
    [undefined]. *)
Definition fromArray (this : Quaternion) (array : Js.array) (offset : nat)
    : option Quaternion :=
  let? x := Js.get array offset in
  let? y := Js.get array (offset + 1) in
  let? z := Js.get array (offset + 2) in
  let? w := Js.get array (offset + 3) in
  Some (_onChangeCallback (assign this x y z w)).

Definition toArray (this : Quaternion) (array : Js.array) (offset : nat)
    : Js.array :=
  let array := Js.set array offset (_x this) in
  let array := Js.set array (offset + 1) (_y this) in
  let array := Js.set array (offset + 2) (_z this) in
  let array := Js.set array (offset + 3) (_w this) in
  array.

Definition equals (this quaternion : Quaternion) : bool :=
  (if Req_dec_T (_x quaternion) (_x this) then true else false)
  && (if Req_dec_T (_y quaternion) (_y this) then true else false)
  && (if Req_dec_T (_z quaternion) (_z this) then true else false)
  && (if Req_dec_T (_w quaternion) (_w this) then true else false).

(** [slerp(qb, t)] *)
Definition slerp (this qb : Quaternion) (t : R) : Quaternion :=
  if Req_dec_T t 0 then this else
  if Req_dec_T t 1 then copy this qb else
  let x := _x this in let y := _y this in let z := _z this in
  let w := _w this in
  let cosHalfTheta := w * _w qb + x * _x qb + y * _y qb + z * _z qb in
  let '(this, cosHalfTheta) :=
    if Rlt_dec cosHalfTheta 0 then
      (assign this (- _x qb) (- _y qb) (- _z qb) (- _w qb), - cosHalfTheta)
    else
      (copy this qb, cosHalfTheta) in
  if Rge_dec cosHalfTheta 1 then assign this x y z w else
  let sqrSinHalfTheta := 1 - cosHalfTheta * cosHalfTheta in
  if Rle_dec sqrSinHalfTheta Js.EPSILON then
    let s := 1 - t in
    let this :=
      assign this (s * x + t * _x this) (s * y + t * _y this)
                  (s * z + t * _z this) (s * w + t * _w this) in
    let this := normalize this in
    _onChangeCallback this
  else
    let sinHalfTheta := sqrt sqrSinHalfTheta in
    let halfTheta := Js.atan2 sinHalfTheta cosHalfTheta in
    let ratioA := sin ((1 - t) * halfTheta) / sinHalfTheta in
    let ratioB := sin (t * halfTheta) / sinHalfTheta in
    let this :=
      assign this (x * ratioA + _x this * ratioB)
                  (y * ratioA + _y this * ratioB)
                  (z * ratioA + _z this * ratioB)
                  (w * ratioA + _w this * ratioB) in
    _onChangeCallback this.

Definition slerpQuaternions (this qa qb : Quaternion) (t : R) : Quaternion :=
  slerp (copy this qa) qb t.

Definition rotateTowards (this q : Quaternion) (step : R) : Quaternion :=
  let angle := angleTo this q in
  if Req_dec_T angle 0 then this else
  let t := Rmin 1 (step / angle) in
  slerp this q t.

(** [a !== b] on numbers *)
Definition strict_neq (a b : R) : bool :=
  if Req_dec_T a b then false else true.

(** [static slerpFlat(dst, dstOffset, src0, srcOffset0, src1, srcOffset1, t)].
    The result is [dst] after the call; [None] when a source read gives
    [undefined].  The eight reads come before the four writes, so the result
    is the same when [dst] is one of the sources.  [cos] and [sin] are the
    local constants of the source, [Math.sin] is [Rtrigo_def.sin].  The dot
    product is summed x, y, z, w here and w, x, y, z in [slerp]: the same
    real number, but two doubles that can differ in the last bit, and with
    it the branch taken at [cos >= 0] or at the test against EPSILON. *)
Definition slerpFlat (dst : Js.array) (dstOffset : nat)
    (src0 : Js.array) (srcOffset0 : nat)
    (src1 : Js.array) (srcOffset1 : nat) (t : R) : option Js.array :=
  let? x0 := Js.get src0 (srcOffset0 + 0) in
  let? y0 := Js.get src0 (srcOffset0 + 1) in
  let? z0 := Js.get src0 (srcOffset0 + 2) in
  let? w0 := Js.get src0 (srcOffset0 + 3) in
  let? x1 := Js.get src1 (srcOffset1 + 0) in
  let? y1 := Js.get src1 (srcOffset1 + 1) in
  let? z1 := Js.get src1 (srcOffset1 + 2) in
  let? w1 := Js.get src1 (srcOffset1 + 3) in
  if Req_dec_T t 0 then
    let dst := Js.set dst (dstOffset + 0) x0 in
    let dst := Js.set dst (dstOffset + 1) y0 in
    let dst := Js.set dst (dstOffset + 2) z0 in
    let dst := Js.set dst (dstOffset + 3) w0 in
    Some dst
  else if Req_dec_T t 1 then
    let dst := Js.set dst (dstOffset + 0) x1 in
    let dst := Js.set dst (dstOffset + 1) y1 in
    let dst := Js.set dst (dstOffset + 2) z1 in
    let dst := Js.set dst (dstOffset + 3) w1 in
    Some dst
  else
    let '(x0, y0, z0, w0) :=
      if strict_neq w0 w1 || strict_neq x0 x1 || strict_neq y0 y1
         || strict_neq z0 z1
      then
        let s := 1 - t in
        let cos := x0 * x1 + y0 * y1 + z0 * z1 + w0 * w1 in
        let dir := if Rge_dec cos 0 then 1 else - 1 in
        let sqrSin := 1 - cos * cos in
        let '(s, t) :=
          if Rgt_dec sqrSin Js.EPSILON then
            let sin := sqrt sqrSin in
            let len := Js.atan2 sin (cos * dir) in
            (Rtrigo_def.sin (s * len) / sin, Rtrigo_def.sin (t * len) / sin)
          else (s, t) in
        let tDir := t * dir in
        let x0 := x0 * s + x1 * tDir in
        let y0 := y0 * s + y1 * tDir in
        let z0 := z0 * s + z1 * tDir in
        let w0 := w0 * s + w1 * tDir in
        if Req_dec_T s (1 - t) then
          let f := 1 / sqrt (x0 * x0 + y0 * y0 + z0 * z0 + w0 * w0) in
          (x0 * f, y0 * f, z0 * f, w0 * f)
        else (x0, y0, z0, w0)
      else (x0, y0, z0, w0) in
    let dst := Js.set dst dstOffset x0 in
    let dst := Js.set dst (dstOffset + 1) y0 in
    let dst := Js.set dst (dstOffset + 2) z0 in
    let dst := Js.set dst (dstOffset + 3) w0 in
    Some dst.

(** [static multiplyQuaternionsFlat(dst, dstOffset, src0, srcOffset0, src1,
    srcOffset1)]: returns [dst]; here too the reads come before the
    writes. *)
Definition multiplyQuaternionsFlat (dst : Js.array) (dstOffset : nat)
    (src0 : Js.array) (srcOffset0 : nat)
    (src1 : Js.array) (srcOffset1 : nat) : option Js.array :=
  let? x0 := Js.get src0 srcOffset0 in
  let? y0 := Js.get src0 (srcOffset0 + 1) in
  let? z0 := Js.get src0 (srcOffset0 + 2) in
  let? w0 := Js.get src0 (srcOffset0 + 3) in
  let? x1 := Js.get src1 srcOffset1 in
  let? y1 := Js.get src1 (srcOffset1 + 1) in
  let? z1 := Js.get src1 (srcOffset1 + 2) in
  let? w1 := Js.get src1 (srcOffset1 + 3) in
  let dst := Js.set dst dstOffset (x0 * w1 + w0 * x1 + y0 * z1 - z0 * y1) in
  let dst :=
    Js.set dst (dstOffset + 1) (y0 * w1 + w0 * y1 + z0 * x1 - x0 * z1) in
  let dst :=
    Js.set dst (dstOffset + 2) (z0 * w1 + w0 * z1 + x0 * y1 - y0 * x1) in
  let dst :=
    Js.set dst (dstOffset + 3) (w0 * w1 - x0 * x1 - y0 * y1 - z0 * z1) in
  Some dst.

(** *** Used to state the properties *)

(** The quaternion -q, every component negated (no method of the source
    builds it; the spec speaks of "its negation -q"). *)
Definition opposite (q : Quaternion) : Quaternion :=
  new (- _x q) (- _y q) (- _z q) (- _w q).

(** [slerp] from the test [cosHalfTheta >= 1.0] on, given the saved
    components, [this] after the copy or the negation, and [cosHalfTheta]:
    the text of [slerp], cut out to reason on it (see
    [SlerpFacts.slerp_unfold]). *)
Definition slerp_rest (x y z w : R) (this : Quaternion)
    (cosHalfTheta t : R) : Quaternion :=
  if Rge_dec cosHalfTheta 1 then assign this x y z w else
  let sqrSinHalfTheta := 1 - cosHalfTheta * cosHalfTheta in
  if Rle_dec sqrSinHalfTheta Js.EPSILON then
    let s := 1 - t in
    let this :=
      assign this (s * x + t * _x this) (s * y + t * _y this)
                  (s * z + t * _z this) (s * w + t * _w this) in
    let this := normalize this in
    _onChangeCallback this
  else
    let sinHalfTheta := sqrt sqrSinHalfTheta in
    let halfTheta := Js.atan2 sinHalfTheta cosHalfTheta in
    let ratioA := sin ((1 - t) * halfTheta) / sinHalfTheta in
    let ratioB := sin (t * halfTheta) / sinHalfTheta in
    let this :=
      assign this (x * ratioA + _x this * ratioB)
                  (y * ratioA + _y this * ratioB)
                  (z * ratioA + _z this * ratioB)
                  (w * ratioA + _w this * ratioB) in
    _onChangeCallback this.

(** The four writes [dst[dstOffset] = x; ... dst[dstOffset + 3] = w]. *)
Definition store (dst : Js.array) (dstOffset : nat) (c : R * R * R * R)
    : Js.array :=
  let '(x, y, z, w) := c in
  let dst := Js.set dst dstOffset x in
  let dst := Js.set dst (dstOffset + 1) y in
  let dst := Js.set dst (dstOffset + 2) z in
  let dst := Js.set dst (dstOffset + 3) w in
  dst.

(** [slerpFlat] inside the test that the two quaternions differ, from
    [sqrSin] on, given [cos] and [dir]: the text of [slerpFlat], cut out to
    reason on it (see [SlerpFlatFacts.slerpFlat_reads]). *)
Definition slerpFlat_tail (x0 y0 z0 w0 x1 y1 z1 w1 cos dir t : R)
    : R * R * R * R :=
  let s := 1 - t in
  let sqrSin := 1 - cos * cos in
  let '(s, t) :=
    if Rgt_dec sqrSin Js.EPSILON then
      let sin := sqrt sqrSin in
      let len := Js.atan2 sin (cos * dir) in
      (Rtrigo_def.sin (s * len) / sin, Rtrigo_def.sin (t * len) / sin)
    else (s, t) in
  let tDir := t * dir in
  let x0 := x0 * s + x1 * tDir in
  let y0 := y0 * s + y1 * tDir in
  let z0 := z0 * s + z1 * tDir in
  let w0 := w0 * s + w1 * tDir in
  if Req_dec_T s (1 - t) then
    let f := 1 / sqrt (x0 * x0 + y0 * y0 + z0 * z0 + w0 * w0) in
    (x0 * f, y0 * f, z0 * f, w0 * f)
  else (x0, y0, z0, w0).

(** *** The other conversions *)

(** [setFromAxisAngle(axis, angle)] *)
Definition setFromAxisAngle (this : Quaternion) (axis : Vector3.Vector3)
    (angle : R) : Quaternion :=
  let halfAngle := angle / 2 in
  let s := sin halfAngle in
  _onChangeCallback
    (assign this (Vector3.x axis * s) (Vector3.y axis * s)
       (Vector3.z axis * s) (cos halfAngle)).

(** [a > b] on numbers *)
Definition gt (a b : R) : bool := if Rgt_dec a b then true else false.

(** [setFromRotationMatrix(m)] *)
Definition setFromRotationMatrix (this : Quaternion) (m : Matrix4.Matrix4)
    : Quaternion :=
  let te := Matrix4.te m in
  let m11 := te 0%nat in let m12 := te 4%nat in let m13 := te 8%nat in
  let m21 := te 1%nat in let m22 := te 5%nat in let m23 := te 9%nat in
  let m31 := te 2%nat in let m32 := te 6%nat in let m33 := te 10%nat in
  let trace := m11 + m22 + m33 in
  let this :=
    if Rgt_dec trace 0 then
      let s := 0.5 / sqrt (trace + 1.0) in
      assign this ((m32 - m23) * s) ((m13 - m31) * s) ((m21 - m12) * s)
        (0.25 / s)
    else if gt m11 m22 && gt m11 m33 then
      let s := 2.0 * sqrt (1.0 + m11 - m22 - m33) in
      assign this (0.25 * s) ((m12 + m21) / s) ((m13 + m31) / s)
        ((m32 - m23) / s)
    else if Rgt_dec m22 m33 then
      let s := 2.0 * sqrt (1.0 + m22 - m11 - m33) in
      assign this ((m12 + m21) / s) (0.25 * s) ((m23 + m32) / s)
        ((m13 - m31) / s)
    else
      let s := 2.0 * sqrt (1.0 + m33 - m11 - m22) in
      assign this ((m13 + m31) / s) ((m23 + m32) / s) (0.25 * s)
        ((m21 - m12) / s) in
  _onChangeCallback this.

(** [setFromUnitVectors(vFrom, vTo)] *)
Definition setFromUnitVectors (this : Quaternion)
    (vFrom vTo : Vector3.Vector3) : Quaternion :=
  let r := Vector3.dot vFrom vTo + 1 in
  let this :=
    if Rlt_dec r Js.EPSILON then
      let r := 0 in
      if Rgt_dec (Rabs (Vector3.x vFrom)) (Rabs (Vector3.z vFrom)) then
        assign this (- Vector3.y vFrom) (Vector3.x vFrom) 0 r
      else
        assign this 0 (- Vector3.z vFrom) (Vector3.y vFrom) r
    else
      assign this
        (Vector3.y vFrom * Vector3.z vTo - Vector3.z vFrom * Vector3.y vTo)
        (Vector3.z vFrom * Vector3.x vTo - Vector3.x vFrom * Vector3.z vTo)
        (Vector3.x vFrom * Vector3.y vTo - Vector3.y vFrom * Vector3.x vTo)
        r in
  normalize this.

(** The rotation of the vector [v] by [q], written with the methods of the
    class: [q (v, 0) conjugate(q)], where (v, 0) is the quaternion
    [new Quaternion(v.x, v.y, v.z, 0)]; the first three components are the
    rotated vector when [q] is a unit quaternion. *)
Definition rotate (q : Quaternion) (v : Vector3.Vector3) : R * R * R * R :=
  components
    (multiply
       (multiply (clone q)
          (new (Vector3.x v) (Vector3.y v) (Vector3.z v) 0))
       (conjugate (clone q))).

(** The upper 3x3 block of [m] is the rotation matrix of the quaternion [q]:
    the usual formula, element by element ([m11 = te[0]], [m21 = te[1]], ...
    column-major).  Used to state what [setFromRotationMatrix] recovers;
    Matrix4.makeRotationFromQuaternion, which builds such a matrix, is not
    among the sources. *)
Definition rotation_of (m : Matrix4.Matrix4) (q : Quaternion) : Prop :=
  let x := _x q in let y := _y q in let z := _z q in let w := _w q in
  Matrix4.te m 0 = 1 - 2 * (y * y + z * z)
  /\ Matrix4.te m 4 = 2 * (x * y - w * z)
  /\ Matrix4.te m 8 = 2 * (x * z + w * y)
  /\ Matrix4.te m 1 = 2 * (x * y + w * z)
  /\ Matrix4.te m 5 = 1 - 2 * (x * x + z * z)
  /\ Matrix4.te m 9 = 2 * (y * z - w * x)
  /\ Matrix4.te m 2 = 2 * (x * z - w * y)
  /\ Matrix4.te m 6 = 2 * (y * z + w * x)
  /\ Matrix4.te m 10 = 1 - 2 * (x * x + y * y).

End Quaternion.

(** ** CubicInterpolant *)
Module CubicInterpolant.

(** Modelled from the spec: the ending modes that [../Interpolant.js]
    exports (that file is not among the sources): "ZeroSlopeEnding,
    WrapAroundEnding, ZeroCurvatureEnding(default)". *)
Inductive Ending : Type :=
| ZeroCurvatureEnding
| ZeroSlopeEnding
| WrapAroundEnding.

Record CubicInterpolantSettings : Type := mkSettings {
  endingStart : Ending;
  endingEnd : Ending
}.

(** The fields of the base class Interpolant that the subclass reads, and
    the four cached fields of the subclass. *)
Record CubicInterpolant : Type := mkCubicInterpolant {
  parameterPositions : Js.array;
  sampleValues : Js.array;
  valueSize : nat;
  resultBuffer : Js.array;
  settings : option CubicInterpolantSettings;
  DefaultSettings_ : CubicInterpolantSettings;
  _weightPrev : R;
  _offsetPrev : Z;
  _weightNext : R;
  _offsetNext : Z
}.

(** The constructor; the weights and offsets start at [-0]. *)
Definition new (parameterPositions sampleValues : Js.array)
    (sampleSize : nat) (resultBuffer : Js.array) : CubicInterpolant :=
  mkCubicInterpolant parameterPositions sampleValues sampleSize resultBuffer
    None (mkSettings ZeroCurvatureEnding ZeroCurvatureEnding) 0 0%Z 0 0%Z.

(** Modelled from the spec: Interpolant.getSettings_ of the base class
    ([../Interpolant.js] is not among the sources): the settings of the
    instance when it has some, the defaults otherwise. *)
Definition getSettings_ (this : CubicInterpolant) : CubicInterpolantSettings :=
  match settings this with
  | Some s => s
  | None => DefaultSettings_ this
  end.

Definition set_cache (this : CubicInterpolant) (weightPrev weightNext : R)
    (offsetPrev offsetNext : Z) : CubicInterpolant :=
  mkCubicInterpolant (parameterPositions this) (sampleValues this)
    (valueSize this) (resultBuffer this) (settings this)
    (DefaultSettings_ this) weightPrev offsetPrev weightNext offsetNext.

(** [intervalChanged_(i1, t0, t1)].  [pp[i]] is [None] when it is
    [undefined], which is what the source tests.  The result is [None] where
    the source leaves the real numbers: a read of [undefined] in the
    arithmetic of a wrapped end, or a weight with a zero divisor. *)
Definition intervalChanged_ (this : CubicInterpolant) (i1 : Z) (t0 t1 : R)
    : option CubicInterpolant :=
  let pp := parameterPositions this in
  let iPrev := (i1 - 2)%Z in
  let iNext := (i1 + 1)%Z in
  let tPrev := Js.getZ pp iPrev in
  let tNext := Js.getZ pp iNext in
  let? (iPrev, tPrev) :=
    match tPrev with
    | Some tPrev => Some (iPrev, tPrev)
    | None =>
      match endingStart (getSettings_ this) with
      | ZeroSlopeEnding => Some (i1, 2 * t0 - t1)
      | WrapAroundEnding =>
        let iPrev := (Z.of_nat (List.length pp) - 2)%Z in
        let? a := Js.getZ pp iPrev in
        let? b := Js.getZ pp (iPrev + 1)%Z in
        Some (iPrev, t0 + a - b)
      | _ => Some (i1, t1)
      end
    end in
  let? (iNext, tNext) :=
    match tNext with
    | Some tNext => Some (iNext, tNext)
    | None =>
      match endingEnd (getSettings_ this) with
      | ZeroSlopeEnding => Some (i1, 2 * t1 - t0)
      | WrapAroundEnding =>
        let? a := Js.getZ pp 1 in
        let? b := Js.getZ pp 0 in
        Some (1%Z, t1 + a - b)
      | _ => Some ((i1 - 1)%Z, t0)
      end
    end in
  let halfDt := (t1 - t0) * 0.5 in
  let stride := Z.of_nat (valueSize this) in
  let? weightPrev := Js.quotient halfDt (t0 - tPrev) in
  let? weightNext := Js.quotient halfDt (tNext - t1) in
  Some (set_cache this weightPrev weightNext
          (iPrev * stride)%Z (iNext * stride)%Z).

(** The loop [for (let i = 0; i !== stride; ++i) result[i] = ...], with
    [remaining = stride - i] iterations to go. *)
Fixpoint combine (values : Js.array) (oP o0 o1 oN : Z) (sP s0 s1 sN : R)
    (remaining i : nat) (result : Js.array) : option Js.array :=
  match remaining with
  | O => Some result
  | S remaining =>
    let? vP := Js.getZ values (oP + Z.of_nat i)%Z in
    let? v0 := Js.getZ values (o0 + Z.of_nat i)%Z in
    let? v1 := Js.getZ values (o1 + Z.of_nat i)%Z in
    let? vN := Js.getZ values (oN + Z.of_nat i)%Z in
    combine values oP o0 o1 oN sP s0 s1 sN remaining (S i)
      (Js.set result i (sP * vP + s0 * v0 + s1 * v1 + sN * vN))
  end.

(** [interpolate_(i1, t0, t, t1)]: the result buffer after the call.  The
    buffer is an array of its own, as the constructor allocates it, not a
    view of [sampleValues]. *)
Definition interpolate_ (this : CubicInterpolant) (i1 : Z) (t0 t t1 : R)
    : option Js.array :=
  let result := resultBuffer this in
  let values := sampleValues this in
  let stride := valueSize this in
  let o1 := (i1 * Z.of_nat stride)%Z in
  let o0 := (o1 - Z.of_nat stride)%Z in
  let oP := _offsetPrev this in let oN := _offsetNext this in
  let wP := _weightPrev this in let wN := _weightNext this in
  let p := (t - t0) / (t1 - t0) in
  let pp := p * p in
  let ppp := pp * p in
  let sP := - wP * ppp + 2 * wP * pp - wP * p in
  let s0 := (1 + wP) * ppp + (-1.5 - 2 * wP) * pp + (-0.5 + wP) * p + 1 in
  let s1 := (-1 - wN) * ppp + (1.5 + wN) * pp + 0.5 * p in
  let sN := wN * ppp - wN * pp in
  combine values oP o0 o1 oN sP s0 s1 sN stride 0 result.

(** *** Used to state the properties of the loop *)

(** What one iteration of the loop of [interpolate_] stores at index [i]. *)
Definition blend (values : Js.array) (oP o0 o1 oN : Z) (sP s0 s1 sN : R)
    (i : nat) : option R :=
  let? vP := Js.getZ values (oP + Z.of_nat i)%Z in
  let? v0 := Js.getZ values (o0 + Z.of_nat i)%Z in
  let? v1 := Js.getZ values (o1 + Z.of_nat i)%Z in
  let? vN := Js.getZ values (oN + Z.of_nat i)%Z in
  Some (sP * vP + s0 * v0 + s1 * v1 + sN * vN).

(** The four rows of the stencil hold numbers: every read of the loop of
    [interpolate_(i1, ...)] is inside [sampleValues]. *)
Definition stencil_defined (this : CubicInterpolant) (i1 : Z) : Prop :=
  forall i : nat, (i < valueSize this)%nat ->
    let stride := Z.of_nat (valueSize this) in
    let values := sampleValues this in
    Js.getZ values (_offsetPrev this + Z.of_nat i)%Z <> None
    /\ Js.getZ values (i1 * stride - stride + Z.of_nat i)%Z <> None
    /\ Js.getZ values (i1 * stride + Z.of_nat i)%Z <> None
    /\ Js.getZ values (_offsetNext this + Z.of_nat i)%Z <> None.

(** Positions [0, 1, 2], stride 2, rows (0,0), (10,0), (0,0); the cache is
    the one of the first interval. *)
Definition three_samples : CubicInterpolant :=
  mkCubicInterpolant (Js.dense [0; 1; 2]) (Js.dense [0; 0; 10; 0; 0; 0]) 2
    (Js.dense [7; 7]) None (mkSettings ZeroCurvatureEnding ZeroCurvatureEnding)
    (-0.5) 2%Z 0.5 4%Z.

(** Two samples at times 0 and 2, stride 2, rows (1, 10) and (3, 30), with
    the default settings. *)
Definition two_samples : CubicInterpolant :=
  new (Js.dense [0; 2]) (Js.dense ([1; 10] ++ [3; 30])) 2 (Js.dense [0; 0]).

(** The four weights [sP], [s0], [s1], [sN] that [interpolate_] evaluates,
    as functions of the cached tangent weights and of [p]: the text of
    [interpolate_], cut out to state what the loop combines. *)
Definition basis (wP wN p : R) : R * R * R * R :=
  let pp := p * p in
  let ppp := pp * p in
  let sP := - wP * ppp + 2 * wP * pp - wP * p in
  let s0 := (1 + wP) * ppp + (-1.5 - 2 * wP) * pp + (-0.5 + wP) * p + 1 in
  let s1 := (-1 - wN) * ppp + (1.5 + wN) * pp + 0.5 * p in
  let sN := wN * ppp - wN * pp in
  (sP, s0, s1, sN).

(** Positions [0, 1, 3, 4], stride 1, samples on the line 5 + 2 t, with the
    default settings. *)
Definition line_samples : CubicInterpolant :=
  new (Js.dense [0; 1; 3; 4]) (Js.dense [5; 7; 11; 13]) 1 (Js.dense [0]).

(** The number that [interpolate_(i1, t0, t, t1)] leaves in cell [i] of the
    result buffer, as a function of [t]: one component of the curve of the
    interval.  (0 where the call reads [undefined].) *)
Definition curve (this : CubicInterpolant) (i1 : Z) (t0 t1 : R) (i : nat)
    (t : R) : R :=
  match interpolate_ this i1 t0 t t1 with
  | Some result =>
    match Js.get result i with
    | Some v => v
    | None => 0
    end
  | None => 0
  end.


(** The same table with ZeroSlopeEnding chosen at both ends. *)
Definition clamped_samples : CubicInterpolant :=
  mkCubicInterpolant (Js.dense [0; 1; 3; 4]) (Js.dense [0; 1; 0; 2]) 1
    (Js.dense [0]) (Some (mkSettings ZeroSlopeEnding ZeroSlopeEnding))
    (mkSettings ZeroCurvatureEnding ZeroCurvatureEnding) 0 0%Z 0 0%Z.

End CubicInterpolant.

(** ** Numbers that are not real *)
Module Number.

(** A number where the source can leave the real numbers: a division by zero
    gives [Infinity], [-Infinity] or [NaN], and these spread through the
    arithmetic as IEEE 754 says.  Finite numbers are read as reals, as
    everywhere else: no rounding, no overflow, one zero. *)
Inductive number : Type :=
| Finite (r : R)
| Infinity
| NegInfinity
| NaN.

(** [undefined] in arithmetic is [NaN]. *)
Definition read (v : option R) : number :=
  match v with
  | Some r => Finite r
  | None => NaN
  end.

Definition opp (a : number) : number :=
  match a with
  | Finite r => Finite (- r)
  | Infinity => NegInfinity
  | NegInfinity => Infinity
  | NaN => NaN
  end.

Definition add (a b : number) : number :=
  match a, b with
  | NaN, _ => NaN
  | _, NaN => NaN
  | Finite x, Finite y => Finite (x + y)
  | Infinity, NegInfinity => NaN
  | NegInfinity, Infinity => NaN
  | Infinity, _ => Infinity
  | _, Infinity => Infinity
  | NegInfinity, _ => NegInfinity
  | _, NegInfinity => NegInfinity
  end.

Definition sub (a b : number) : number :=
  match a, b with
  | Finite x, Finite y => Finite (x - y)
  | _, _ => add a (opp b)
  end.

(** An infinity times a real: the sign of the real decides, and 0 gives
    [NaN]. *)
Definition scale (inf : number) (r : R) : number :=
  if Rlt_dec 0 r then inf
  else if Rlt_dec r 0 then opp inf
  else NaN.

Definition mul (a b : number) : number :=
  match a, b with
  | NaN, _ => NaN
  | _, NaN => NaN
  | Finite x, Finite y => Finite (x * y)
  | Finite x, inf => scale inf x
  | inf, Finite y => scale inf y
  | Infinity, Infinity => Infinity
  | NegInfinity, NegInfinity => Infinity
  | _, _ => NegInfinity
  end.

(** A zero divisor is +0, which is what the difference of two equal numbers
    is: [x / 0] is [Infinity], [-Infinity] or [NaN] by the sign of [x]. *)
Definition div (a b : number) : number :=
  match a, b with
  | NaN, _ => NaN
  | _, NaN => NaN
  | Finite x, Finite y =>
    if Req_dec_T y 0 then scale Infinity x else Finite (x / y)
  | Finite _, _ => Finite 0
  | inf, Finite y => if Req_dec_T y 0 then inf else scale inf y
  | _, _ => NaN
  end.

Declare Scope number_scope.
Delimit Scope number_scope with number.
Bind Scope number_scope with number.
Notation "- a" := (opp a) : number_scope.
Infix "+" := add : number_scope.
Infix "-" := sub : number_scope.
Infix "*" := mul : number_scope.
Infix "/" := div : number_scope.

(** An array whose cells may hold such numbers; [None] is a hole. *)
Definition array : Type := list (option number).

Definition get (a : array) (i : nat) : option number :=
  match nth_error a i with
  | Some cell => cell
  | None => None
  end.

Fixpoint set (a : array) (i : nat) (v : number) : array :=
  match a, i with
  | [], O => [Some v]
  | [], S i' => None :: set [] i' v
  | _ :: a', O => Some v :: a'
  | cell :: a', S i' => cell :: set a' i' v
  end.

(** An array of real numbers as an array of numbers. *)
Definition of_array (a : Js.array) : array := map (option_map Finite) a.

End Number.

(** ** CubicInterpolant, with the weights a division by zero gives *)
Module FullCubicInterpolant.
Import Number.

(** The object of [CubicInterpolant], where the two cached weights and the
    cells of the result buffer are numbers that may be infinite or NaN. *)
Record CubicInterpolant : Type := mkCubicInterpolant {
  parameterPositions : Js.array;
  sampleValues : Js.array;
  valueSize : nat;
  resultBuffer : Number.array;
  settings : option CubicInterpolant.CubicInterpolantSettings;
  DefaultSettings_ : CubicInterpolant.CubicInterpolantSettings;
  _weightPrev : number;
  _offsetPrev : Z;
  _weightNext : number;
  _offsetNext : Z
}.

Definition new (parameterPositions sampleValues : Js.array)
    (sampleSize : nat) (resultBuffer : Number.array) : CubicInterpolant :=
  mkCubicInterpolant parameterPositions sampleValues sampleSize resultBuffer
    None
    (CubicInterpolant.mkSettings CubicInterpolant.ZeroCurvatureEnding
       CubicInterpolant.ZeroCurvatureEnding)
    (Finite 0) 0%Z (Finite 0) 0%Z.

(** Modelled from the spec: Interpolant.getSettings_ of the base class, as
    in [CubicInterpolant.getSettings_]. *)
Definition getSettings_ (this : CubicInterpolant)
    : CubicInterpolant.CubicInterpolantSettings :=
  match settings this with
  | Some s => s
  | None => DefaultSettings_ this
  end.

Definition set_cache (this : CubicInterpolant) (weightPrev weightNext : number)
    (offsetPrev offsetNext : Z) : CubicInterpolant :=
  mkCubicInterpolant (parameterPositions this) (sampleValues this)
    (valueSize this) (resultBuffer this) (settings this)
    (DefaultSettings_ this) weightPrev offsetPrev weightNext offsetNext.

(** [intervalChanged_(i1, t0, t1)], every case followed: a read of
    [undefined] in the arithmetic of a wrapped end is [NaN], a zero divisor
    gives an infinite weight or [NaN]. *)
Definition intervalChanged_ (this : CubicInterpolant) (i1 : Z) (t0 t1 : R)
    : CubicInterpolant :=
  let pp := parameterPositions this in
  let iPrev := (i1 - 2)%Z in
  let iNext := (i1 + 1)%Z in
  let tPrev := Js.getZ pp iPrev in
  let tNext := Js.getZ pp iNext in
  let '(iPrev, tPrev) :=
    match tPrev with
    | Some tPrev => (iPrev, Finite tPrev)
    | None =>
      match CubicInterpolant.endingStart (getSettings_ this) with
      | CubicInterpolant.ZeroSlopeEnding => (i1, Finite (2 * t0 - t1))
      | CubicInterpolant.WrapAroundEnding =>
        let iPrev := (Z.of_nat (List.length pp) - 2)%Z in
        (iPrev,
         (Finite t0 + read (Js.getZ pp iPrev)
          - read (Js.getZ pp (iPrev + 1)%Z))%number)
      | _ => (i1, Finite t1)
      end
    end in
  let '(iNext, tNext) :=
    match tNext with
    | Some tNext => (iNext, Finite tNext)
    | None =>
      match CubicInterpolant.endingEnd (getSettings_ this) with
      | CubicInterpolant.ZeroSlopeEnding => (i1, Finite (2 * t1 - t0))
      | CubicInterpolant.WrapAroundEnding =>
        (1%Z,
         (Finite t1 + read (Js.getZ pp 1) - read (Js.getZ pp 0))%number)
      | _ => ((i1 - 1)%Z, Finite t0)
      end
    end in
  let halfDt := Finite ((t1 - t0) * 0.5) in
  let stride := Z.of_nat (valueSize this) in
  set_cache this (halfDt / (Finite t0 - tPrev))%number
    (halfDt / (tNext - Finite t1))%number
    (iPrev * stride)%Z (iNext * stride)%Z.

(** The loop of [interpolate_]; a read outside [values] is [undefined] and
    makes the cell [NaN]. *)
Fixpoint combine (values : Js.array) (oP o0 o1 oN : Z) (sP s0 s1 sN : number)
    (remaining i : nat) (result : Number.array) : Number.array :=
  match remaining with
  | O => result
  | S remaining =>
    combine values oP o0 o1 oN sP s0 s1 sN remaining (S i)
      (Number.set result i
         (sP * read (Js.getZ values (oP + Z.of_nat i)%Z)
          + s0 * read (Js.getZ values (o0 + Z.of_nat i)%Z)
          + s1 * read (Js.getZ values (o1 + Z.of_nat i)%Z)
          + sN * read (Js.getZ values (oN + Z.of_nat i)%Z))%number)
  end.

(** [interpolate_(i1, t0, t, t1)]: the result buffer after the call. *)
Definition interpolate_ (this : CubicInterpolant) (i1 : Z) (t0 t t1 : R)
    : Number.array :=
  let result := resultBuffer this in
  let values := sampleValues this in
  let stride := valueSize this in
  let o1 := (i1 * Z.of_nat stride)%Z in
  let o0 := (o1 - Z.of_nat stride)%Z in
  let oP := _offsetPrev this in let oN := _offsetNext this in
  let wP := _weightPrev this in let wN := _weightNext this in
  let p := (Finite (t - t0) / Finite (t1 - t0))%number in
  let pp := (p * p)%number in
  let ppp := (pp * p)%number in
  let sP := (- wP * ppp + Finite 2 * wP * pp - wP * p)%number in
  let s0 := ((Finite 1 + wP) * ppp + (Finite (-1.5) - Finite 2 * wP) * pp
             + (Finite (-0.5) + wP) * p + Finite 1)%number in
  let s1 := ((Finite (-1) - wN) * ppp + (Finite 1.5 + wN) * pp
             + Finite 0.5 * p)%number in
  let sN := (wN * ppp - wN * pp)%number in
  combine values oP o0 o1 oN sP s0 s1 sN stride 0 result.

(** The four rows of the stencil hold numbers, as
    [CubicInterpolant.stencil_defined] says. *)
Definition stencil_defined (this : CubicInterpolant) (i1 : Z) : Prop :=
  forall i : nat, (i < valueSize this)%nat ->
    let stride := Z.of_nat (valueSize this) in
    let values := sampleValues this in
    Js.getZ values (_offsetPrev this + Z.of_nat i)%Z <> None
    /\ Js.getZ values (i1 * stride - stride + Z.of_nat i)%Z <> None
    /\ Js.getZ values (i1 * stride + Z.of_nat i)%Z <> None
    /\ Js.getZ values (_offsetNext this + Z.of_nat i)%Z <> None.

(** What one iteration of the loop of [interpolate_] stores at index [i]. *)
Definition blend (values : Js.array) (oP o0 o1 oN : Z) (sP s0 s1 sN : number)
    (i : nat) : number :=
  (sP * read (Js.getZ values (oP + Z.of_nat i)%Z)
   + s0 * read (Js.getZ values (o0 + Z.of_nat i)%Z)
   + s1 * read (Js.getZ values (o1 + Z.of_nat i)%Z)
   + sN * read (Js.getZ values (oN + Z.of_nat i)%Z))%number.

(** A [CubicInterpolant] of the real reading, seen here: its weights are
    finite. *)
Definition of_real (this : CubicInterpolant.CubicInterpolant)
    : CubicInterpolant :=
  mkCubicInterpolant (CubicInterpolant.parameterPositions this)
    (CubicInterpolant.sampleValues this) (CubicInterpolant.valueSize this)
    (Number.of_array (CubicInterpolant.resultBuffer this))
    (CubicInterpolant.settings this) (CubicInterpolant.DefaultSettings_ this)
    (Finite (CubicInterpolant._weightPrev this))
    (CubicInterpolant._offsetPrev this)
    (Finite (CubicInterpolant._weightNext this))
    (CubicInterpolant._offsetNext this).

(** Positions [0, 0, 1] with the first one repeated, stride 1, samples
    1, 2, 3, with the default settings. *)
Definition repeated_position : CubicInterpolant :=
  new (Js.dense [0; 0; 1]) (Js.dense [1; 2; 3]) 1 [Some (Finite 0)].

(** [CubicInterpolant.three_samples] seen here: positions [0, 1, 2],
    stride 2, the cache of the first interval. *)
Definition three_samples : CubicInterpolant :=
  of_real CubicInterpolant.three_samples.

End FullCubicInterpolant.

(** * Properties *)

(** ** Arrays *)
Module JsFacts.
Import Js.

Lemma get_nil (k : nat) : get [] k = None.
Proof. unfold get. now destruct k. Qed.

(** Reading after a write: the written index gives the value, every other
    index what was there, also when the write made the array grow. *)
Lemma get_set (a : array) (i : nat) (v : R) (k : nat) :
  get (set a i v) k = if Nat.eqb k i then Some v else get a k.
Proof.
  revert a k. induction i as [|i IH]; intros a k.
  - destruct a as [|c a]; destruct k as [|k]; try reflexivity.
    change (get (set [] 0 v) (S k)) with (get [] k).
    now rewrite !get_nil.
  - destruct a as [|c a]; destruct k as [|k]; try reflexivity.
    + change (get (set [] (S i) v) (S k)) with (get (set [] i v) k).
      rewrite IH, get_nil. reflexivity.
    + change (get (set (c :: a) (S i) v) (S k)) with (get (set a i v) k).
      rewrite IH. reflexivity.
Qed.

Lemma get_dense (l : list R) (k : nat) :
  (k < List.length l)%nat -> get (dense l) k = Some (nth k l 0).
Proof.
  revert k. induction l as [|x l IH]; intros k Hk; simpl in Hk.
  - lia.
  - destruct k as [|k]; [reflexivity|].
    change (get (dense (x :: l)) (S k)) with (get (dense l) k).
    rewrite IH by lia. reflexivity.
Qed.

Lemma get_dense_none (l : list R) (k : nat) :
  (List.length l <= k)%nat -> get (dense l) k = None.
Proof.
  intros Hk. unfold get, dense.
  replace (nth_error (map Some l) k) with (@None (option R)); [reflexivity|].
  symmetry. apply nth_error_None. rewrite length_map. exact Hk.
Qed.

Lemma getZ_of_nat (a : array) (k : nat) : getZ a (Z.of_nat k) = get a k.
Proof.
  unfold getZ. destruct (Z.ltb_spec (Z.of_nat k) 0); [lia|].
  now rewrite Nat2Z.id.
Qed.

Lemma getZ_dense_some (l : list R) (z : Z) :
  (0 <= z < Z.of_nat (List.length l))%Z -> getZ (dense l) z <> None.
Proof.
  intros Hz. unfold getZ. destruct (Z.ltb_spec z 0); [lia|].
  rewrite get_dense by lia. discriminate.
Qed.

Lemma getZ_dense_inv (l : list R) (z : Z) (v : R) :
  getZ (dense l) z = Some v -> (0 <= z < Z.of_nat (List.length l))%Z.
Proof.
  unfold getZ. destruct (Z.ltb_spec z 0) as [Hneg|Hpos]; [discriminate|].
  intros H. split; [assumption|].
  destruct (Nat.lt_ge_cases (Z.to_nat z) (List.length l)) as [Hlt|Hge];
    [lia|].
  rewrite get_dense_none in H by exact Hge. discriminate.
Qed.

Lemma quotient_some (a b : R) : b <> 0 -> quotient a b = Some (a / b).
Proof.
  intros Hb. unfold quotient. destruct (Req_dec_T b 0); [contradiction|].
  reflexivity.
Qed.

Lemma quotient_zero (a : R) : quotient a 0 = None.
Proof.
  unfold quotient. destruct (Req_dec_T 0 0) as [_|H]; [reflexivity|].
  now elim H.
Qed.

End JsFacts.

(** ** Numbers: clamp, atan2, EPSILON *)
Module RealFacts.

Lemma atan2_0_1 : Js.atan2 0 1 = 0.
Proof.
  unfold Js.atan2. destruct (Rlt_dec 0 1) as [_|H]; [|lra].
  replace (0 / 1) with 0 by field. apply atan_0.
Qed.

Lemma clamp_inside (v : R) : -1 <= v <= 1 -> MathUtils.clamp v (-1) 1 = v.
Proof.
  intros [Hl Hu]. unfold MathUtils.clamp.
  rewrite (Rmin_right 1 v) by exact Hu. apply Rmax_right. exact Hl.
Qed.

Lemma clamp_bounds (v : R) : -1 <= MathUtils.clamp v (-1) 1 <= 1.
Proof.
  unfold MathUtils.clamp. split.
  - apply Rmax_l.
  - apply Rmax_lub; [lra|apply Rmin_l].
Qed.

Lemma clamp_opp (v : R) :
  MathUtils.clamp (- v) (-1) 1 = - MathUtils.clamp v (-1) 1.
Proof.
  unfold MathUtils.clamp, Rmin.
  destruct (Rle_dec 1 v), (Rle_dec 1 (- v)); unfold Rmax;
    repeat match goal with
           | |- context [Rle_dec ?a ?b] => destruct (Rle_dec a b)
           end; lra.
Qed.

Lemma clamp_above (v : R) : 1 <= v -> MathUtils.clamp v (-1) 1 = 1.
Proof.
  intros Hv. unfold MathUtils.clamp.
  rewrite (Rmin_left 1 v) by exact Hv. apply Rmax_right. lra.
Qed.

(** The angle [atan2 s c] of a point of the unit circle in the right half
    plane, above the axis, has cosine [c] and sine [s]. *)
Lemma atan2_unit_circle (s c : R) :
  0 <= c -> 0 < s -> c * c + s * s = 1 ->
  cos (Js.atan2 s c) = c /\ sin (Js.atan2 s c) = s.
Proof.
  intros Hc Hs Hunit. unfold Js.atan2.
  destruct (Rlt_dec 0 c) as [Hpos|Hnpos].
  - assert (Hsq : sqrt (1 + (s / c)²) = / c).
    { replace (1 + (s / c)²) with ((/ c)²).
      - apply sqrt_Rsqr. left. apply Rinv_0_lt_compat. exact Hpos.
      - unfold Rsqr.
        replace (1 + s / c * (s / c)) with ((c * c + s * s) / (c * c))
          by (field; lra).
        rewrite Hunit. field. lra. }
    split.
    + rewrite cos_atan, Hsq. field. lra.
    + rewrite sin_atan, Hsq. field. lra.
  - assert (c = 0) by lra. subst c.
    destruct (Rlt_dec 0 0); [lra|].
    destruct (Rlt_dec 0 s); [|lra].
    assert (s = 1) by nra. subst s.
    split; [apply cos_PI2|apply sin_PI2].
Qed.

(** sin a ^2 + sin b ^2 + 2 sin a sin b cos (a + b) = sin (a + b) ^2 *)
Lemma sin_sum_square (a b : R) :
  sin a * sin a + sin b * sin b + 2 * (sin a * sin b) * cos (a + b)
  = sin (a + b) * sin (a + b).
Proof.
  rewrite cos_plus, sin_plus.
  pose proof (sin2_cos2 a) as Ha. pose proof (sin2_cos2 b) as Hb.
  unfold Rsqr in Ha, Hb.
  set (sa := sin a) in *. set (sb := sin b) in *.
  set (ca := cos a) in *. set (cb := cos b) in *.
  assert (Ea : ca * ca = 1 - sa * sa) by lra.
  assert (Eb : cb * cb = 1 - sb * sb) by lra.
  replace ((sa * cb + ca * sb) * (sa * cb + ca * sb))
    with (sa * sa * (cb * cb) + (ca * ca) * (sb * sb)
          + 2 * sa * sb * ca * cb) by ring.
  rewrite Ea, Eb. ring.
Qed.

Lemma tuple4_eq (a b c e a' b' c' e' : R) :
  a = a' -> b = b' -> c = c' -> e = e' -> (a, b, c, e) = (a', b', c', e').
Proof. intros -> -> -> ->. reflexivity. Qed.

Lemma sumsq_nonneg (a b c e : R) : 0 <= a * a + b * b + c * c + e * e.
Proof. nra. Qed.

Lemma EPSILON_pos : 0 < Js.EPSILON.
Proof. unfold Js.EPSILON. apply Rinv_0_lt_compat, pow_lt. lra. Qed.

Lemma EPSILON_lt_1 : Js.EPSILON < 1.
Proof.
  unfold Js.EPSILON. rewrite <- Rinv_1.
  apply Rinv_lt_contravar; [|apply Rlt_pow_R1; [lra|lia]].
  rewrite Rmult_1_l. apply pow_lt. lra.
Qed.

End RealFacts.

(** ** Quaternion: product, normalisation, conversion from Euler *)
Module QuaternionFacts.
Import Quaternion.

(** A quaternion read out of an array has the four cells as components. *)
Lemma fromArray_inv (this q : Quaternion) (array : Js.array) (offset : nat) :
  fromArray this array offset = Some q ->
  Js.get array offset = Some (_x q)
  /\ Js.get array (offset + 1) = Some (_y q)
  /\ Js.get array (offset + 2) = Some (_z q)
  /\ Js.get array (offset + 3) = Some (_w q).
Proof.
  unfold fromArray. intros H.
  destruct (Js.get array offset) as [x|]; [|discriminate].
  destruct (Js.get array (offset + 1)) as [y|]; [|discriminate].
  destruct (Js.get array (offset + 2)) as [z|]; [|discriminate].
  destruct (Js.get array (offset + 3)) as [w|]; [|discriminate].
  injection H as <-. repeat split.
Qed.

(** C8.  The static [multiplyQuaternionsFlat] and the method
    [multiplyQuaternions] agree: when the two sources, read at their
    offsets inside arrays of any size, are the quaternions [a] and [b]
    (as [fromArray] reads them), the array the static function returns is
    [dst] with the components of [this.multiplyQuaternions(a, b)] stored at
    [dstOffset] (as [toArray] stores them).  Both evaluate the same
    products and sums in the same order: the proof uses no law of
    arithmetic. *)
Theorem multiplyQuaternionsFlat_multiplyQuaternions
    (dst : Js.array) (dstOffset : nat)
    (src0 : Js.array) (srcOffset0 : nat)
    (src1 : Js.array) (srcOffset1 : nat)
    (this qa qb a b : Quaternion) :
  fromArray qa src0 srcOffset0 = Some a ->
  fromArray qb src1 srcOffset1 = Some b ->
  multiplyQuaternionsFlat dst dstOffset src0 srcOffset0 src1 srcOffset1
  = Some (toArray (multiplyQuaternions this a b) dst dstOffset).
Proof.
  intros Ha Hb.
  apply fromArray_inv in Ha as (Hx0 & Hy0 & Hz0 & Hw0).
  apply fromArray_inv in Hb as (Hx1 & Hy1 & Hz1 & Hw1).
  unfold multiplyQuaternionsFlat.
  rewrite Hx0, Hy0, Hz0, Hw0, Hx1, Hy1, Hz1, Hw1.
  reflexivity.
Qed.

(** Two quaternions packed in larger buffers, at offsets 1 and 2, and a
    destination written at offset 1. *)
Lemma multiplyQuaternionsFlat_multiplyQuaternions_witness :
  fromArray (new 0 0 0 1) (Js.dense [9; 1; 2; 3; 4; 9]) 1
  = Some (mkQuaternion 1 2 3 4 1)
  /\ fromArray (new 0 0 0 1) (Js.dense [9; 9; 5; 6; 7; 8]) 2
     = Some (mkQuaternion 5 6 7 8 1)
  /\ multiplyQuaternionsFlat (Js.dense [0; 0; 0; 0; 0; 0]) 1
       (Js.dense [9; 1; 2; 3; 4; 9]) 1 (Js.dense [9; 9; 5; 6; 7; 8]) 2
     = Some (toArray
               (multiplyQuaternions (new 0 0 0 1)
                  (mkQuaternion 1 2 3 4 1) (mkQuaternion 5 6 7 8 1))
               (Js.dense [0; 0; 0; 0; 0; 0]) 1).
Proof.
  split; [reflexivity|]. split; [reflexivity|].
  exact (multiplyQuaternionsFlat_multiplyQuaternions
           (Js.dense [0; 0; 0; 0; 0; 0]) 1
           (Js.dense [9; 1; 2; 3; 4; 9]) 1 (Js.dense [9; 9; 5; 6; 7; 8]) 2
           (new 0 0 0 1) (new 0 0 0 1) (new 0 0 0 1)
           (mkQuaternion 1 2 3 4 1) (mkQuaternion 5 6 7 8 1)
           eq_refl eq_refl).
Defined.

(** The same call, evaluated: (1,2,3,4) x (5,6,7,8) = (24,48,48,-6). *)
Example multiplyQuaternionsFlat_example :
  multiplyQuaternionsFlat (Js.dense [0; 0; 0; 0; 0; 0]) 1
    (Js.dense [9; 1; 2; 3; 4; 9]) 1 (Js.dense [9; 9; 5; 6; 7; 8]) 2
  = Some (Js.dense [0; 24; 48; 48; -6; 0]).
Proof.
  cbv [multiplyQuaternionsFlat Js.get Js.dense map nth_error Nat.add Js.set].
  repeat (f_equal; try lra).
Qed.

Lemma sum_of_squares_zero (x y z w : R) :
  x * x + y * y + z * z + w * w = 0 -> x = 0 /\ y = 0 /\ z = 0 /\ w = 0.
Proof. intros H. repeat split; nra. Qed.

(** The only quaternion of length 0 is (0, 0, 0, 0). *)
Lemma length_zero_iff (q : Quaternion) :
  length q = 0 <-> components q = (0, 0, 0, 0).
Proof.
  unfold length, components. split.
  - intros H. apply sqrt_eq_0 in H; [|nra].
    apply sum_of_squares_zero in H as (-> & -> & -> & ->). reflexivity.
  - intros H. injection H as -> -> -> ->.
    replace (0 * 0 + 0 * 0 + 0 * 0 + 0 * 0) with 0 by ring.
    apply sqrt_0.
Qed.

(** C6.  [normalize()] on the quaternion (0, 0, 0, 0), whose length is 0,
    gives the identity (0, 0, 0, 1); on every quaternion of non-zero length
    it multiplies each component by 1 / length. *)
Theorem normalize_zero_and_nonzero :
  (forall n : nat,
      length (mkQuaternion 0 0 0 0 n) = 0
      /\ components (normalize (mkQuaternion 0 0 0 0 n)) = (0, 0, 0, 1))
  /\ (forall q : Quaternion,
         length q <> 0 ->
         components (normalize q)
         = (_x q * (1 / length q), _y q * (1 / length q),
            _z q * (1 / length q), _w q * (1 / length q))).
Proof.
  split.
  - intros n.
    assert (H0 : length (mkQuaternion 0 0 0 0 n) = 0)
      by (apply length_zero_iff; reflexivity).
    split; [exact H0|].
    unfold normalize. rewrite H0.
    destruct (Req_dec_T 0 0) as [_|Hne]; [reflexivity|now elim Hne].
  - intros q Hq. unfold normalize.
    destruct (Req_dec_T (length q) 0) as [H0|_]; [now elim Hq|].
    reflexivity.
Qed.

Lemma length_0_3_0_4 (n : nat) : length (mkQuaternion 0 3 0 4 n) = 5.
Proof.
  unfold length; simpl.
  replace (0 * 0 + 3 * 3 + 0 * 0 + 4 * 4) with (5 * 5) by ring.
  apply sqrt_square; lra.
Qed.

(** The quaternion (0, 3, 0, 4) has length 5 and is scaled by 1/5. *)
Lemma normalize_zero_and_nonzero_witness :
  length (new 0 3 0 4) <> 0
  /\ components (normalize (new 0 3 0 4))
     = (0 * (1 / length (new 0 3 0 4)), 3 * (1 / length (new 0 3 0 4)),
        0 * (1 / length (new 0 3 0 4)), 4 * (1 / length (new 0 3 0 4))).
Proof.
  assert (H : length (new 0 3 0 4) <> 0)
    by (unfold new; rewrite length_0_3_0_4; lra).
  split; [exact H|].
  exact (proj2 normalize_zero_and_nonzero (new 0 3 0 4) H).
Defined.

End QuaternionFacts.

(** ** Rotation orders *)
Module OrderFacts.

(** A string outside the six rotation orders fails every test of the
    [switch] on the order. *)
Lemma unknown_order_tests (o : string) :
  ~ In o Euler.RotationOrders ->
  (o =? "XYZ")%string = false /\ (o =? "YXZ")%string = false
  /\ (o =? "ZXY")%string = false /\ (o =? "ZYX")%string = false
  /\ (o =? "YZX")%string = false /\ (o =? "XZY")%string = false.
Proof.
  intros Hno.
  repeat split; apply String.eqb_neq; intros ->; apply Hno; simpl; tauto.
Qed.

Lemma ABC_unknown : ~ In "ABC"%string Euler.RotationOrders.
Proof. simpl. intros H. repeat destruct H as [H|H]; discriminate || exact H. Qed.

Lemma empty_unknown : ~ In ""%string Euler.RotationOrders.
Proof. simpl. intros H. repeat destruct H as [H|H]; discriminate || exact H. Qed.

End OrderFacts.

(** ** Quaternion.setFromEuler *)
Module SetFromEulerFacts.
Import Quaternion.

(** C5.  [setFromEuler] throws exactly when [euler && euler.isEuler] is
    falsy.  For an Euler whose order is none of the six, it returns normally,
    the console receives the one warning, and x, y, z, w keep their values
    (the change hook runs unless [update === false]). *)
Theorem setFromEuler_throws_iff_not_euler :
  (forall (this : Quaternion) (euler : EulerArg) (update : option bool),
      (exists message, setFromEuler this euler update = Js.Throw message)
      <-> has_euler_identity euler = false)
  /\ (forall (this : Quaternion) (e : Euler.Euler) (update : option bool),
         ~ In (Euler._order e) Euler.RotationOrders ->
         exists q : Quaternion,
           setFromEuler this (Object true e) update
           = Js.Normal (q, [unknown_order_warning (Euler._order e)])
           /\ components q = components this
           /\ changes q = match update with
                          | Some false => changes this
                          | _ => S (changes this)
                          end).
Proof.
  split.
  - intros this euler update. split.
    + intros [message H]. destruct euler as [|[|] e]; try reflexivity.
      exfalso. revert H. unfold setFromEuler, negb.
      match goal with
      | |- context [let '(_, _) := ?X in _] => destruct X as [q ws]
      end.
      discriminate.
    + intros H. exists not_an_euler_error.
      destruct euler as [|[|] e]; try reflexivity. discriminate.
  - intros this e update Hno.
    apply OrderFacts.unknown_order_tests in Hno
      as (H1 & H2 & H3 & H4 & H5 & H6).
    unfold setFromEuler, negb. rewrite H1, H2, H3, H4, H5, H6.
    destruct update as [[|]|]; eexists; repeat split.
Qed.

(** A real Euler whose order is the string ABC. *)
Lemma setFromEuler_throws_iff_not_euler_witness :
  ~ In (Euler._order (Euler.new 1 2 3 "ABC")) Euler.RotationOrders
  /\ exists q : Quaternion,
      setFromEuler (new 0 0 0 1) (Object true (Euler.new 1 2 3 "ABC")) None
      = Js.Normal
          (q, [unknown_order_warning (Euler._order (Euler.new 1 2 3 "ABC"))])
      /\ components q = components (new 0 0 0 1)
      /\ changes q = S (changes (new 0 0 0 1)).
Proof.
  split; [exact OrderFacts.ABC_unknown|].
  exact (proj2 setFromEuler_throws_iff_not_euler (new 0 0 0 1)
           (Euler.new 1 2 3 "ABC") None OrderFacts.ABC_unknown).
Defined.

End SetFromEulerFacts.

(** ** Euler.setFromRotationMatrix *)
Module EulerFacts.
Import Matrix4 Euler.

(** C4.  When the element that goes through [asin] has absolute value at
    least 0.9999999, [setFromRotationMatrix] returns normally through the
    fallback branch of the order: one angle comes from the alternate [atan2]
    pair and the remaining one is 0.  One conjunct per order, with the
    element of that order. *)
Theorem setFromRotationMatrix_gimbal_lock
    (this : Euler) (m : Matrix4) (update : option bool) :
  well_formed m ->
  let m11 := te m 0 in let m12 := te m 4 in let m13 := te m 8 in
  let m21 := te m 1 in let m22 := te m 5 in let m23 := te m 9 in
  let m31 := te m 2 in let m32 := te m 6 in let m33 := te m 10 in
  let result order := fst (setFromRotationMatrix this m (Some order) update) in
  (0.9999999 <= Rabs m13 ->
   _y (result "XYZ"%string) = asin (MathUtils.clamp m13 (-1) 1)
   /\ _x (result "XYZ"%string) = Js.atan2 m32 m22
   /\ _z (result "XYZ"%string) = 0)
  /\ (0.9999999 <= Rabs m23 ->
      _x (result "YXZ"%string) = asin (- MathUtils.clamp m23 (-1) 1)
      /\ _y (result "YXZ"%string) = Js.atan2 (- m31) m11
      /\ _z (result "YXZ"%string) = 0)
  /\ (0.9999999 <= Rabs m32 ->
      _x (result "ZXY"%string) = asin (MathUtils.clamp m32 (-1) 1)
      /\ _z (result "ZXY"%string) = Js.atan2 m21 m11
      /\ _y (result "ZXY"%string) = 0)
  /\ (0.9999999 <= Rabs m31 ->
      _y (result "ZYX"%string) = asin (- MathUtils.clamp m31 (-1) 1)
      /\ _z (result "ZYX"%string) = Js.atan2 (- m12) m22
      /\ _x (result "ZYX"%string) = 0)
  /\ (0.9999999 <= Rabs m21 ->
      _z (result "YZX"%string) = asin (MathUtils.clamp m21 (-1) 1)
      /\ _y (result "YZX"%string) = Js.atan2 m13 m33
      /\ _x (result "YZX"%string) = 0)
  /\ (0.9999999 <= Rabs m12 ->
      _z (result "XZY"%string) = asin (- MathUtils.clamp m12 (-1) 1)
      /\ _x (result "XZY"%string) = Js.atan2 (- m23) m33
      /\ _y (result "XZY"%string) = 0).
Proof.
  intros _. cbv zeta.
  repeat split;
    unfold setFromRotationMatrix; simpl;
    match goal with
    | |- context [Rlt_dec ?a ?b] => destruct (Rlt_dec a b) as [Hlt|_]
    end;
    solve [lra | destruct update as [[|]|]; reflexivity].
Qed.

Lemma Rabs_te_rotationY90 : 0.9999999 <= Rabs (te rotationY90 8).
Proof. unfold te; simpl. rewrite Rabs_R1. lra. Qed.

(** The matrix of the rotation by +90 degrees about Y, with order XYZ. *)
Lemma setFromRotationMatrix_gimbal_lock_witness :
  well_formed rotationY90
  /\ 0.9999999 <= Rabs (te rotationY90 8)
  /\ _y (fst (setFromRotationMatrix (new 0.1 0.2 0.3 "XYZ") rotationY90
                (Some "XYZ"%string) None))
     = asin (MathUtils.clamp (te rotationY90 8) (-1) 1)
  /\ _x (fst (setFromRotationMatrix (new 0.1 0.2 0.3 "XYZ") rotationY90
                (Some "XYZ"%string) None))
     = Js.atan2 (te rotationY90 6) (te rotationY90 5)
  /\ _z (fst (setFromRotationMatrix (new 0.1 0.2 0.3 "XYZ") rotationY90
                (Some "XYZ"%string) None))
     = 0.
Proof.
  split; [reflexivity|]. split; [exact Rabs_te_rotationY90|].
  exact (proj1 (setFromRotationMatrix_gimbal_lock (new 0.1 0.2 0.3 "XYZ")
                  rotationY90 None eq_refl) Rabs_te_rotationY90).
Defined.

(** The same call, evaluated: the angles are (0, PI/2, 0). *)
Example setFromRotationMatrix_rotationY90 :
  setFromRotationMatrix (new 0.1 0.2 0.3 "XYZ") rotationY90
    (Some "XYZ"%string) None
  = (mkEuler 0 (PI / 2) 0 "XYZ" 1, []).
Proof.
  unfold setFromRotationMatrix, te; simpl.
  destruct (Rlt_dec (Rabs 1) 0.9999999) as [H|_].
  - rewrite Rabs_R1 in H. lra.
  - rewrite RealFacts.clamp_inside by lra. rewrite asin_1, RealFacts.atan2_0_1. reflexivity.
Qed.

(** C9, as stated, fails on the empty order string: [order || this._order]
    replaces it by the order of the Euler, here XYZ, so that the angles
    (1, 2, 3) are recomputed from the matrix and [_order] is not the empty
    string. *)
Lemma setFromRotationMatrix_empty_order_counterexample :
  ~ In ""%string RotationOrders
  /\ setFromRotationMatrix (new 1 2 3 "XYZ") identity (Some ""%string) None
     = (mkEuler 0 0 0 "XYZ" 1, [])
  /\ _order (fst (setFromRotationMatrix (new 1 2 3 "XYZ") identity
                    (Some ""%string) None)) <> ""%string
  /\ _x (fst (setFromRotationMatrix (new 1 2 3 "XYZ") identity
                (Some ""%string) None)) <> _x (new 1 2 3 "XYZ").
Proof.
  assert (E : setFromRotationMatrix (new 1 2 3 "XYZ") identity
                (Some ""%string) None
              = (mkEuler 0 0 0 "XYZ" 1, [])).
  { unfold setFromRotationMatrix, te; simpl.
    destruct (Rlt_dec (Rabs 0) 0.9999999) as [_|H].
    - rewrite RealFacts.clamp_inside by lra.
      replace (- 0) with 0 by ring. rewrite asin_0, RealFacts.atan2_0_1. reflexivity.
    - rewrite Rabs_R0 in H. lra. }
  split; [exact OrderFacts.empty_unknown|]. split; [exact E|].
  rewrite E; simpl. split; [discriminate|lra].
Qed.

(** C9, amended.  For a non-empty order string [o] that is none of the six,
    [setFromRotationMatrix(m, o, update)] keeps the three angles, stores [o]
    in [_order], warns once, and runs the change hook unless
    [update === false]. *)
Theorem setFromRotationMatrix_unknown_order
    (this : Euler) (m : Matrix4) (o : string) (update : option bool) :
  o <> ""%string ->
  ~ In o RotationOrders ->
  setFromRotationMatrix this m (Some o) update
  = (mkEuler (_x this) (_y this) (_z this) o
       (match update with
        | Some false => changes this
        | _ => S (changes this)
        end),
     [unknown_order_warning o]).
Proof.
  intros Hne Hno.
  apply OrderFacts.unknown_order_tests in Hno as (H1 & H2 & H3 & H4 & H5 & H6).
  unfold setFromRotationMatrix, Js.truthy.
  apply String.eqb_neq in Hne. rewrite Hne. simpl negb. cbv iota.
  rewrite H1, H2, H3, H4, H5, H6.
  destruct update as [[|]|]; reflexivity.
Qed.

Lemma ABC_not_empty : "ABC"%string <> ""%string.
Proof. discriminate. Qed.

(** The order ABC, with and without the opt-out of the hook. *)
Lemma setFromRotationMatrix_unknown_order_witness :
  "ABC"%string <> ""%string
  /\ ~ In "ABC"%string RotationOrders
  /\ setFromRotationMatrix (new 1 2 3 "XYZ") identity (Some "ABC"%string)
       (Some false)
     = (mkEuler 1 2 3 "ABC" 0, [unknown_order_warning "ABC"])
  /\ setFromRotationMatrix (new 1 2 3 "XYZ") identity (Some "ABC"%string)
       None
     = (mkEuler 1 2 3 "ABC" 1, [unknown_order_warning "ABC"]).
Proof.
  split; [exact ABC_not_empty|]. split; [exact OrderFacts.ABC_unknown|].
  split.
  - exact (setFromRotationMatrix_unknown_order (new 1 2 3 "XYZ") identity
             "ABC"%string (Some false) ABC_not_empty OrderFacts.ABC_unknown).
  - exact (setFromRotationMatrix_unknown_order (new 1 2 3 "XYZ") identity
             "ABC"%string None ABC_not_empty OrderFacts.ABC_unknown).
Defined.

End EulerFacts.

(** ** CubicInterpolant *)
Module CubicInterpolantFacts.
Import CubicInterpolant.

(** The loop, from index [i] for [remaining] iterations: when every
    iteration reads numbers, it ends, the cells [i .. i + remaining - 1] hold
    the blends and every other cell is as before. *)
Lemma combine_spec (values : Js.array) (oP o0 o1 oN : Z) (sP s0 s1 sN : R) :
  forall (remaining i : nat) (result : Js.array),
    (forall j, (i <= j < i + remaining)%nat ->
               blend values oP o0 o1 oN sP s0 s1 sN j <> None) ->
    exists r,
      combine values oP o0 o1 oN sP s0 s1 sN remaining i result = Some r
      /\ forall k,
          Js.get r k
          = if ((i <=? k) && (k <? i + remaining))%nat
            then blend values oP o0 o1 oN sP s0 s1 sN k
            else Js.get result k.
Proof.
  induction remaining as [|remaining IH]; intros i result Hdef.
  - exists result. split; [reflexivity|]. intros k.
    destruct (Nat.leb_spec i k), (Nat.ltb_spec k (i + 0)); simpl;
      try reflexivity; lia.
  - assert (Hi := Hdef i ltac:(lia)).
    destruct (blend values oP o0 o1 oN sP s0 s1 sN i) as [v|] eqn:Ev;
      [clear Hi|now elim Hi].
    destruct (IH (S i) (Js.set result i v)) as (r & Hr & Hget).
    { intros j Hj. apply Hdef. lia. }
    exists r. split.
    + rewrite <- Hr. revert Ev. unfold blend; simpl combine.
      destruct (Js.getZ values (oP + Z.of_nat i)) as [vP|]; [|discriminate].
      destruct (Js.getZ values (o0 + Z.of_nat i)) as [v0|]; [|discriminate].
      destruct (Js.getZ values (o1 + Z.of_nat i)) as [v1|]; [|discriminate].
      destruct (Js.getZ values (oN + Z.of_nat i)) as [vN|]; [|discriminate].
      intros [= <-]. reflexivity.
    + intros k. rewrite Hget, JsFacts.get_set.
      destruct (Nat.leb_spec (S i) k), (Nat.ltb_spec k (S i + remaining)),
        (Nat.leb_spec i k), (Nat.ltb_spec k (i + S remaining)),
        (Nat.eqb_spec k i); simpl; subst; try reflexivity; try lia.
      symmetry; exact Ev.
Qed.

(** With [t] equal to [t0] and [t0 <> t1], [interpolate_] ends and the
    result buffer holds, in its first [stride] cells, the sample row of index
    [i1 - 1]; the two real weights play no part, and the cells after the
    first [stride] are untouched.  ([FullCubicInterpolantFacts] has the
    weights that are not real.) *)
Lemma interpolate__at_t0 (this : CubicInterpolant) (i1 : Z) (t0 t1 : R) :
  t0 <> t1 ->
  stencil_defined this i1 ->
  exists result : Js.array,
    interpolate_ this i1 t0 t0 t1 = Some result
    /\ (forall i : nat, (i < valueSize this)%nat ->
          Js.get result i
          = Js.getZ (sampleValues this)
              ((i1 - 1) * Z.of_nat (valueSize this) + Z.of_nat i)%Z)
    /\ (forall i : nat, (valueSize this <= i)%nat ->
          Js.get result i = Js.get (resultBuffer this) i).
Proof.
  intros Ht Hdef. unfold interpolate_.
  replace ((t0 - t0) / (t1 - t0)) with 0 by (field; lra).
  set (wP := _weightPrev this). set (wN := _weightNext this).
  replace (- wP * (0 * 0 * 0) + 2 * wP * (0 * 0) - wP * 0) with 0 by ring.
  replace ((1 + wP) * (0 * 0 * 0) + (-1.5 - 2 * wP) * (0 * 0)
           + (-0.5 + wP) * 0 + 1) with 1 by ring.
  replace ((-1 - wN) * (0 * 0 * 0) + (1.5 + wN) * (0 * 0) + 0.5 * 0)
    with 0 by ring.
  replace (wN * (0 * 0 * 0) - wN * (0 * 0)) with 0 by ring.
  set (stride := valueSize this) in *.
  set (values := sampleValues this) in *.
  assert (Hblend : forall i, (i < stride)%nat ->
            blend values (_offsetPrev this)
              (i1 * Z.of_nat stride - Z.of_nat stride)
              (i1 * Z.of_nat stride) (_offsetNext this) 0 1 0 0 i
            = Js.getZ values ((i1 - 1) * Z.of_nat stride + Z.of_nat i)%Z).
  { intros i Hi. destruct (Hdef i Hi) as (HP & H0 & H1 & HN).
    fold stride values in HP, H0, H1, HN. unfold blend.
    replace ((i1 - 1) * Z.of_nat stride + Z.of_nat i)%Z
      with (i1 * Z.of_nat stride - Z.of_nat stride + Z.of_nat i)%Z by ring.
    destruct (Js.getZ values (_offsetPrev this + Z.of_nat i)) as [vP|];
      [|now elim HP].
    destruct (Js.getZ values
                (i1 * Z.of_nat stride - Z.of_nat stride + Z.of_nat i))
      as [v0|]; [|now elim H0].
    destruct (Js.getZ values (i1 * Z.of_nat stride + Z.of_nat i)) as [v1|];
      [|now elim H1].
    destruct (Js.getZ values (_offsetNext this + Z.of_nat i)) as [vN|];
      [|now elim HN].
    f_equal. ring. }
  destruct (combine_spec values (_offsetPrev this)
              (i1 * Z.of_nat stride - Z.of_nat stride)
              (i1 * Z.of_nat stride) (_offsetNext this) 0 1 0 0
              stride 0 (resultBuffer this)) as (r & Hr & Hget).
  { intros j Hj. rewrite Hblend by lia.
    destruct (Hdef j ltac:(lia)) as (_ & H0 & _).
    fold stride values in H0.
    replace ((i1 - 1) * Z.of_nat stride + Z.of_nat j)%Z
      with (i1 * Z.of_nat stride - Z.of_nat stride + Z.of_nat j)%Z by ring.
    exact H0. }
  exists r. split; [exact Hr|]. split; intros i Hi; rewrite Hget.
  - destruct (Nat.ltb_spec i (0 + stride)); [|lia]. simpl.
    apply Hblend. exact Hi.
  - destruct (Nat.ltb_spec i (0 + stride)); [lia|]. reflexivity.
Qed.

(** [three_samples] is what [intervalChanged_(1, 0, 1)] leaves: the previous
    row collapses onto row 1, the next row is row 2. *)
Example intervalChanged__three_samples :
  intervalChanged_
    (new (Js.dense [0; 1; 2]) (Js.dense [0; 0; 10; 0; 0; 0]) 2
       (Js.dense [7; 7])) 1 0 1
  = Some three_samples.
Proof.
  unfold intervalChanged_, three_samples, set_cache, new; simpl.
  rewrite !JsFacts.quotient_some by lra.
  replace ((1 - 0) * 0.5 / (0 - 1)) with (-0.5) by lra.
  replace ((1 - 0) * 0.5 / (2 - 1)) with 0.5 by lra.
  reflexivity.
Qed.

Lemma three_samples_stencil : stencil_defined three_samples 1.
Proof.
  intros i Hi. change (valueSize three_samples) with 2%nat in Hi.
  destruct i as [|[|i]]; [| |lia]; cbv zeta; repeat split; discriminate.
Qed.

Lemma zero_neq_one : 0 <> 1.
Proof. lra. Qed.

(** The first interval of [three_samples], evaluated at its left end. *)
Lemma interpolate__at_t0_witness :
  0 <> 1
  /\ stencil_defined three_samples 1
  /\ exists result : Js.array,
      interpolate_ three_samples 1 0 0 1 = Some result
      /\ (forall i : nat, (i < valueSize three_samples)%nat ->
            Js.get result i
            = Js.getZ (sampleValues three_samples)
                ((1 - 1) * Z.of_nat (valueSize three_samples) + Z.of_nat i)%Z)
      /\ (forall i : nat, (valueSize three_samples <= i)%nat ->
            Js.get result i = Js.get (resultBuffer three_samples) i).
Proof.
  split; [exact zero_neq_one|]. split; [exact three_samples_stencil|].
  exact (interpolate__at_t0 three_samples 1 0 1 zero_neq_one
           three_samples_stencil).
Defined.

(** Reading the two rows of a table of two samples. *)
Lemma two_rows_first (v0 v1 : list R) (i : nat) :
  (i < List.length v0)%nat ->
  Js.get (Js.dense (v0 ++ v1)) i = Some (nth i v0 0).
Proof.
  intros Hi. rewrite JsFacts.get_dense by (rewrite length_app; lia).
  now rewrite app_nth1.
Qed.

Lemma two_rows_second (v0 v1 : list R) (i : nat) :
  (i < List.length v1)%nat ->
  Js.get (Js.dense (v0 ++ v1)) (List.length v0 + i) = Some (nth i v1 0).
Proof.
  intros Hi. rewrite JsFacts.get_dense by (rewrite length_app; lia).
  rewrite app_nth2 by lia. do 2 f_equal. lia.
Qed.

(** The Hermite weights with both tangent weights at -1/2 add up to the
    linear blend. *)
Lemma hermite_natural (p a b : R) :
  let wP := - (1 / 2) in
  let wN := - (1 / 2) in
  let pp := p * p in
  let ppp := pp * p in
  (- wP * ppp + 2 * wP * pp - wP * p) * b
  + ((1 + wP) * ppp + (-1.5 - 2 * wP) * pp + (-0.5 + wP) * p + 1) * a
  + ((-1 - wN) * ppp + (1.5 + wN) * pp + 0.5 * p) * b
  + (wN * ppp - wN * pp) * a
  = (1 - p) * a + p * b.
Proof. cbv zeta. lra. Qed.

(** C3.  Two samples at [t0 < t1] with rows [v0] and [v1] of [stride]
    numbers, ZeroCurvatureEnding at both ends: [intervalChanged_(1, t0, t1)]
    then [interpolate_(1, t0, t, t1)] fills the result buffer with
    (1 - p) * v0 + p * v1, componentwise, where p = (t - t0) / (t1 - t0). *)
Theorem cubic_two_samples_is_linear
    (this : CubicInterpolant) (t0 t1 t : R) (v0 v1 : list R) :
  parameterPositions this = Js.dense [t0; t1] ->
  sampleValues this = Js.dense (v0 ++ v1) ->
  List.length v0 = valueSize this ->
  List.length v1 = valueSize this ->
  endingStart (getSettings_ this) = ZeroCurvatureEnding ->
  endingEnd (getSettings_ this) = ZeroCurvatureEnding ->
  t0 < t1 ->
  t0 <= t <= t1 ->
  exists (this' : CubicInterpolant) (result : Js.array),
    intervalChanged_ this 1 t0 t1 = Some this'
    /\ interpolate_ this' 1 t0 t t1 = Some result
    /\ forall i : nat, (i < valueSize this)%nat ->
         let p := (t - t0) / (t1 - t0) in
         Js.get result i = Some ((1 - p) * nth i v0 0 + p * nth i v1 0).
Proof.
  intros Hpp Hvalues Hv0 Hv1 Hstart Hend Hlt _.
  set (stride := valueSize this) in *.
  set (w := (t1 - t0) * 0.5 / (t0 - t1)).
  exists (set_cache this w w (1 * Z.of_nat stride)%Z
            ((1 - 1) * Z.of_nat stride)%Z).
  assert (Hw : w = - (1 / 2)).
  { unfold w. replace 0.5 with (/ 2) by lra. field. lra. }
  assert (Hchanged : intervalChanged_ this 1 t0 t1
            = Some (set_cache this w w (1 * Z.of_nat stride)%Z
                      ((1 - 1) * Z.of_nat stride)%Z)).
  { unfold intervalChanged_. rewrite Hpp, Hstart, Hend.
    change (match Js.quotient ((t1 - t0) * 0.5) (t0 - t1) with
            | Some weightPrev =>
              match Js.quotient ((t1 - t0) * 0.5) (t0 - t1) with
              | Some weightNext =>
                Some (set_cache this weightPrev weightNext
                        (1 * Z.of_nat stride)%Z ((1 - 1) * Z.of_nat stride)%Z)
              | None => None
              end
            | None => None
            end
            = Some (set_cache this w w (1 * Z.of_nat stride)%Z
                      ((1 - 1) * Z.of_nat stride)%Z)).
    rewrite JsFacts.quotient_some by lra. reflexivity. }
  set (p := (t - t0) / (t1 - t0)).
  rewrite Hchanged. unfold interpolate_, set_cache.
  cbn [resultBuffer sampleValues valueSize _offsetPrev _offsetNext
       _weightPrev _weightNext].
  fold stride p. rewrite Hvalues.
  match goal with
  | |- exists _, _ /\ combine ?vs ?oP ?o0 ?o1 ?oN ?sP ?s0 ?s1 ?sN _ _ _ = _ /\ _ =>
    pose proof (combine_spec vs oP o0 o1 oN sP s0 s1 sN stride 0
                  (resultBuffer this)) as Hspec;
    assert (Hblend : forall i, (i < stride)%nat ->
              blend vs oP o0 o1 oN sP s0 s1 sN i
              = Some ((1 - p) * nth i v0 0 + p * nth i v1 0))
  end.
  { intros i Hi. unfold blend.
    replace (1 * Z.of_nat stride + Z.of_nat i)%Z
      with (Z.of_nat (List.length v0 + i)) by lia.
    replace (1 * Z.of_nat stride - Z.of_nat stride + Z.of_nat i)%Z
      with (Z.of_nat i) by lia.
    replace ((1 - 1) * Z.of_nat stride + Z.of_nat i)%Z
      with (Z.of_nat i) by lia.
    rewrite !JsFacts.getZ_of_nat.
    rewrite two_rows_second by lia. rewrite two_rows_first by lia.
    f_equal. rewrite Hw. apply hermite_natural. }
  destruct Hspec as (r & Hr & Hget).
  { intros j Hj. rewrite Hblend by lia. discriminate. }
  exists r. split; [reflexivity|]. split; [exact Hr|].
  intros i Hi. cbv zeta. rewrite Hget.
  destruct (Nat.ltb_spec i (0 + stride)); [|lia]. simpl.
  apply Hblend. exact Hi.
Qed.

Lemma zero_lt_two : 0 < 2.
Proof. lra. Qed.

Lemma half_between : 0 <= 0.5 <= 2.
Proof. lra. Qed.

(** [two_samples] at t = 0.5. *)
Lemma cubic_two_samples_is_linear_witness :
  0 < 2
  /\ 0 <= 0.5 <= 2
  /\ exists (this' : CubicInterpolant) (result : Js.array),
      intervalChanged_ two_samples 1 0 2 = Some this'
      /\ interpolate_ this' 1 0 0.5 2 = Some result
      /\ forall i : nat, (i < valueSize two_samples)%nat ->
           let p := (0.5 - 0) / (2 - 0) in
           Js.get result i
           = Some ((1 - p) * nth i [1; 10] 0 + p * nth i [3; 30] 0).
Proof.
  split; [exact zero_lt_two|]. split; [exact half_between|].
  exact (cubic_two_samples_is_linear two_samples 0 2 0.5 [1; 10] [3; 30]
           eq_refl eq_refl eq_refl eq_refl eq_refl eq_refl
           zero_lt_two half_between).
Defined.

(** On a table with strictly increasing positions, [intervalChanged_] on a
    bracketing interval returns, whatever the ending modes: no divisor is
    zero, and the offsets it leaves put the four rows of the stencil inside
    [sampleValues]. *)
Lemma intervalChanged__stencil_defined
    (this : CubicInterpolant) (pp vs : list R) (k : nat) :
  parameterPositions this = Js.dense pp ->
  sampleValues this = Js.dense vs ->
  List.length vs = (List.length pp * valueSize this)%nat ->
  (forall j : nat, (S j < List.length pp)%nat ->
     nth j pp 0 < nth (S j) pp 0) ->
  (1 <= k < List.length pp)%nat ->
  exists this' : CubicInterpolant,
    intervalChanged_ this (Z.of_nat k) (nth (k - 1) pp 0) (nth k pp 0)
    = Some this'
    /\ sampleValues this' = sampleValues this
    /\ valueSize this' = valueSize this
    /\ resultBuffer this' = resultBuffer this
    /\ stencil_defined this' (Z.of_nat k).
Proof.
  intros Hpp Hvs Hlen Hasc Hk.
  set (n := List.length pp) in *. set (N := Z.of_nat n).
  set (t0 := nth (k - 1) pp 0). set (t1 := nth k pp 0).
  assert (H01 : t0 < t1).
  { unfold t0, t1. replace k with (S (k - 1)) at 2 by lia. apply Hasc. lia. }
  assert (Hfirst : nth 0 pp 0 < nth 1 pp 0) by (apply Hasc; lia).
  assert (Hlast : nth (n - 2) pp 0 < nth (n - 1) pp 0).
  { replace (n - 1)%nat with (S (n - 2)) by lia. apply Hasc. lia. }
  assert (Hrows : forall (wP wN : R) (iP iN : Z),
            (0 <= iP < N)%Z -> (0 <= iN < N)%Z ->
            stencil_defined
              (set_cache this wP wN (iP * Z.of_nat (valueSize this))
                 (iN * Z.of_nat (valueSize this))) (Z.of_nat k)).
  { intros wP wN iP iN HiP HiN i Hi. cbv zeta. unfold set_cache in *.
    cbn [valueSize sampleValues _offsetPrev _offsetNext] in *.
    rewrite Hvs.
    repeat split; apply JsFacts.getZ_dense_some; rewrite Hlen; fold n;
      unfold N in *; nia. }
  assert (Hread : forall j : nat, (j < n)%nat ->
            Js.getZ (Js.dense pp) (Z.of_nat j) = Some (nth j pp 0)).
  { intros j Hj. rewrite JsFacts.getZ_of_nat. now apply JsFacts.get_dense. }
  unfold intervalChanged_. cbv zeta. rewrite Hpp.
  assert (HP : exists iP tP,
            (0 <= iP < N)%Z /\ t0 - tP <> 0
            /\ match Js.getZ (Js.dense pp) (Z.of_nat k - 2) with
               | Some tPrev => Some ((Z.of_nat k - 2)%Z, tPrev)
               | None =>
                 match endingStart (getSettings_ this) with
                 | ZeroSlopeEnding => Some (Z.of_nat k, 2 * t0 - t1)
                 | WrapAroundEnding =>
                   let iPrev :=
                     (Z.of_nat (List.length (Js.dense pp)) - 2)%Z in
                   let? a := Js.getZ (Js.dense pp) iPrev in
                   let? b := Js.getZ (Js.dense pp) (iPrev + 1)%Z in
                   Some (iPrev, t0 + a - b)
                 | _ => Some (Z.of_nat k, t1)
                 end
               end = Some (iP, tP)).
  { destruct (le_lt_dec 2 k) as [H2|H2].
    - replace (Z.of_nat k - 2)%Z with (Z.of_nat (k - 2)) by lia.
      rewrite Hread by lia.
      exists (Z.of_nat (k - 2)), (nth (k - 2) pp 0).
      split; [unfold N; lia|]. split; [|reflexivity].
      assert (nth (k - 2) pp 0 < t0); [|lra].
      unfold t0. replace (k - 1)%nat with (S (k - 2)) by lia.
      apply Hasc. lia.
    - assert (k = 1%nat) by lia. subst k.
      change (Js.getZ (Js.dense pp) (Z.of_nat 1 - 2)) with (@None R).
      destruct (endingStart (getSettings_ this)).
      + exists (Z.of_nat 1), t1. split; [unfold N; lia|].
        split; [lra|reflexivity].
      + exists (Z.of_nat 1), (2 * t0 - t1). split; [unfold N; lia|].
        split; [lra|reflexivity].
      + cbv zeta.
        replace (Z.of_nat (List.length (Js.dense pp))) with N
          by (unfold N, n, Js.dense; now rewrite length_map).
        replace (N - 2)%Z with (Z.of_nat (n - 2)) by (unfold N; lia).
        replace (Z.of_nat (n - 2) + 1)%Z with (Z.of_nat (n - 1)) by lia.
        rewrite !Hread by lia.
        exists (Z.of_nat (n - 2)), (t0 + nth (n - 2) pp 0 - nth (n - 1) pp 0).
        split; [unfold N; lia|]. split; [lra|reflexivity]. }
  assert (HN : exists iN tN,
            (0 <= iN < N)%Z /\ tN - t1 <> 0
            /\ match Js.getZ (Js.dense pp) (Z.of_nat k + 1) with
               | Some tNext => Some ((Z.of_nat k + 1)%Z, tNext)
               | None =>
                 match endingEnd (getSettings_ this) with
                 | ZeroSlopeEnding => Some (Z.of_nat k, 2 * t1 - t0)
                 | WrapAroundEnding =>
                   let? a := Js.getZ (Js.dense pp) 1 in
                   let? b := Js.getZ (Js.dense pp) 0 in
                   Some (1%Z, t1 + a - b)
                 | _ => Some ((Z.of_nat k - 1)%Z, t0)
                 end
               end = Some (iN, tN)).
  { replace (Z.of_nat k + 1)%Z with (Z.of_nat (S k)) by lia.
    destruct (le_lt_dec n (S k)) as [HS|HS].
    - rewrite JsFacts.getZ_of_nat, JsFacts.get_dense_none by (fold n; lia).
      destruct (endingEnd (getSettings_ this)).
      + exists (Z.of_nat k - 1)%Z, t0. split; [unfold N; lia|].
        split; [lra|reflexivity].
      + exists (Z.of_nat k), (2 * t1 - t0). split; [unfold N; lia|].
        split; [lra|reflexivity].
      + assert (E1 : Js.getZ (Js.dense pp) 1 = Some (nth 1 pp 0))
          by (apply (Hread 1%nat); lia).
        assert (E0 : Js.getZ (Js.dense pp) 0 = Some (nth 0 pp 0))
          by (apply (Hread 0%nat); lia).
        rewrite E1, E0.
        exists 1%Z, (t1 + nth 1 pp 0 - nth 0 pp 0).
        split; [unfold N; lia|]. split; [lra|reflexivity].
    - rewrite Hread by lia.
      exists (Z.of_nat (S k)), (nth (S k) pp 0).
      split; [unfold N; lia|]. split; [|reflexivity].
      assert (t1 < nth (S k) pp 0); [|lra].
      apply Hasc. lia. }
  cbv zeta in HP, HN.
  destruct HP as (iP & tP & HiP & HdP & ->).
  destruct HN as (iN & tN & HiN & HdN & ->).
  rewrite !JsFacts.quotient_some by assumption.
  eexists. do 4 (split; [reflexivity|]). apply Hrows; assumption.
Qed.

End CubicInterpolantFacts.

(** ** CubicInterpolant with infinite weights *)
Module FullCubicInterpolantFacts.
Import Number FullCubicInterpolant.

Lemma number_get_nil (k : nat) : Number.get [] k = None.
Proof. unfold Number.get. now destruct k. Qed.

Lemma number_get_set (a : Number.array) (i : nat) (v : number) (k : nat) :
  Number.get (Number.set a i v) k
  = if Nat.eqb k i then Some v else Number.get a k.
Proof.
  revert a k. induction i as [|i IH]; intros a k.
  - destruct a as [|c a]; destruct k as [|k]; try reflexivity.
    change (Number.get (Number.set [] 0 v) (S k)) with (Number.get [] k).
    now rewrite !number_get_nil.
  - destruct a as [|c a]; destruct k as [|k]; try reflexivity.
    + change (Number.get (Number.set [] (S i) v) (S k))
        with (Number.get (Number.set [] i v) k).
      rewrite IH, number_get_nil. reflexivity.
    + change (Number.get (Number.set (c :: a) (S i) v) (S k))
        with (Number.get (Number.set a i v) k).
      rewrite IH. reflexivity.
Qed.

(** The loop always ends: the cells [i .. i + remaining - 1] hold the
    blends and every other cell is as before. *)
Lemma full_combine_spec (values : Js.array) (oP o0 o1 oN : Z)
    (sP s0 s1 sN : number) :
  forall (remaining i : nat) (result : Number.array) (k : nat),
    Number.get (combine values oP o0 o1 oN sP s0 s1 sN remaining i result) k
    = if ((i <=? k) && (k <? i + remaining))%nat
      then Some (blend values oP o0 o1 oN sP s0 s1 sN k)
      else Number.get result k.
Proof.
  induction remaining as [|remaining IH]; intros i result k.
  - simpl. destruct (Nat.leb_spec i k), (Nat.ltb_spec k (i + 0)); simpl;
      try reflexivity; lia.
  - simpl combine. rewrite IH, number_get_set. fold (blend values oP o0 o1 oN sP s0 s1 sN i).
    destruct (Nat.leb_spec (S i) k), (Nat.ltb_spec k (S i + remaining)),
      (Nat.leb_spec i k), (Nat.ltb_spec k (i + S remaining)),
      (Nat.eqb_spec k i); simpl; subst; try reflexivity; lia.
Qed.

Lemma div_finite (x y : R) :
  y <> 0 -> (Finite x / Finite y)%number = Finite (x / y).
Proof.
  intros Hy. unfold div. destruct (Req_dec_T y 0); [contradiction|].
  reflexivity.
Qed.

Lemma div_zero_pos (x : R) :
  0 < x -> (Finite x / Finite 0)%number = Infinity.
Proof.
  intros Hx. unfold div. destruct (Req_dec_T 0 0) as [_|H]; [|now elim H].
  unfold scale. destruct (Rlt_dec 0 x); [reflexivity|contradiction].
Qed.

Lemma scale_zero (inf : number) : scale inf 0 = NaN.
Proof.
  unfold scale. destruct (Rlt_dec 0 0); [lra|]. reflexivity.
Qed.

Lemma full_three_samples_stencil : stencil_defined three_samples 1.
Proof.
  intros i Hi. change (i < 2)%nat in Hi.
  destruct i as [|[|i]]; [| |lia]; cbv zeta; repeat split; discriminate.
Qed.

(** C10, amended.  With [t] equal to [t0], [t0 <> t1], the four rows of the
    stencil inside [sampleValues] and two finite cached weights,
    [interpolate_] leaves in the first [stride] cells of the result buffer
    the sample row of index [i1 - 1], whatever the two finite weights are,
    and the cells after the first [stride] as they were. *)
Theorem interpolate__at_t0_finite
    (this : CubicInterpolant) (i1 : Z) (t0 t1 wP wN : R) :
  _weightPrev this = Finite wP ->
  _weightNext this = Finite wN ->
  t0 <> t1 ->
  stencil_defined this i1 ->
  (forall i : nat, (i < valueSize this)%nat ->
     Number.get (interpolate_ this i1 t0 t0 t1) i
     = option_map Finite
         (Js.getZ (sampleValues this)
            ((i1 - 1) * Z.of_nat (valueSize this) + Z.of_nat i)%Z))
  /\ (forall i : nat, (valueSize this <= i)%nat ->
        Number.get (interpolate_ this i1 t0 t0 t1) i
        = Number.get (resultBuffer this) i).
Proof.
  intros HwP HwN Ht Hdef. unfold interpolate_. cbv zeta.
  rewrite HwP, HwN, div_finite by lra.
  replace ((t0 - t0) / (t1 - t0)) with 0 by (field; lra).
  cbn [mul add sub opp].
  split; intros i Hi; rewrite full_combine_spec.
  - destruct (Nat.leb_spec 0 i) as [_|Hle]; [|lia].
    destruct (Nat.ltb_spec i (0 + valueSize this)) as [_|Hge]; [|lia].
    cbn [andb].
    destruct (Hdef i Hi) as (HP & H0 & H1 & HN). cbv zeta in HP, H0, H1, HN.
    unfold blend.
    replace ((i1 - 1) * Z.of_nat (valueSize this) + Z.of_nat i)%Z
      with (i1 * Z.of_nat (valueSize this) - Z.of_nat (valueSize this)
            + Z.of_nat i)%Z by ring.
    destruct (Js.getZ (sampleValues this) (_offsetPrev this + Z.of_nat i))
      as [vP|]; [|now elim HP].
    destruct (Js.getZ (sampleValues this)
                (i1 * Z.of_nat (valueSize this) - Z.of_nat (valueSize this)
                 + Z.of_nat i)) as [v0|]; [|now elim H0].
    destruct (Js.getZ (sampleValues this)
                (i1 * Z.of_nat (valueSize this) + Z.of_nat i)) as [v1|];
      [|now elim H1].
    destruct (Js.getZ (sampleValues this) (_offsetNext this + Z.of_nat i))
      as [vN|]; [|now elim HN].
    cbn [read mul add option_map]. do 2 f_equal. lra.
  - destruct (Nat.ltb_spec i (0 + valueSize this)) as [Hlt|_]; [lia|].
    rewrite andb_false_r. reflexivity.
Qed.

(** What [intervalChanged_(2, 0, 1)] caches on the positions [0, 0, 1]:
    the previous position equals [t0], the divisor of the first weight is
    0 and the weight is [Infinity]. *)
Lemma intervalChanged__repeated_position :
  intervalChanged_ repeated_position 2 0 1
  = set_cache repeated_position Infinity (Finite (-0.5)) 0%Z 1%Z.
Proof.
  unfold intervalChanged_, repeated_position, new, set_cache.
  cbn [parameterPositions sampleValues valueSize resultBuffer settings
       DefaultSettings_ getSettings_ CubicInterpolant.endingStart
       CubicInterpolant.endingEnd].
  change (Js.getZ (Js.dense [0; 0; 1]) (2 - 2)) with (Some 0).
  change (Js.getZ (Js.dense [0; 0; 1]) (2 + 1)) with (@None R).
  cbv beta iota zeta. cbn [sub].
  replace ((1 - 0) * 0.5) with 0.5 by lra.
  replace (0 - 0) with 0 by lra.
  rewrite div_zero_pos, div_finite by lra.
  replace (0.5 / (0 - 1)) with (-0.5) by lra.
  reflexivity.
Qed.

(** C10, as stated, fails where a cached weight is not finite.  On the
    positions [0, 0, 1], [intervalChanged_(2, 0, 1)] caches the weight
    [Infinity]; [interpolate_(2, 0, 0, 1)] then multiplies it by 0 and
    stores [NaN], where row 1 of the table holds 2. *)
Lemma interpolate__at_t0_counterexample :
  let this := intervalChanged_ repeated_position 2 0 1 in
  _weightPrev this = Infinity
  /\ 0 <> 1
  /\ stencil_defined this 2
  /\ Js.getZ (sampleValues this)
       ((2 - 1) * Z.of_nat (valueSize this) + Z.of_nat 0)%Z = Some 2
  /\ Number.get (interpolate_ this 2 0 0 1) 0 = Some NaN
  /\ Number.get (interpolate_ this 2 0 0 1) 0
     <> option_map Finite
          (Js.getZ (sampleValues this)
             ((2 - 1) * Z.of_nat (valueSize this) + Z.of_nat 0)%Z).
Proof.
  cbv zeta. rewrite intervalChanged__repeated_position.
  assert (Hcell : Number.get
                    (interpolate_
                       (set_cache repeated_position Infinity (Finite (-0.5))
                          0%Z 1%Z) 2 0 0 1) 0 = Some NaN).
  { unfold interpolate_, set_cache, repeated_position, new.
    cbn [_weightPrev _weightNext _offsetPrev _offsetNext valueSize
         sampleValues resultBuffer].
    rewrite div_finite by lra.
    replace ((0 - 0) / (1 - 0)) with 0 by (field; lra).
    cbn [mul add sub opp]. rewrite !Rmult_0_l, !scale_zero.
    reflexivity. }
  split; [reflexivity|]. split; [lra|]. split.
  - intros i Hi. change (i < 1)%nat in Hi. destruct i as [|i]; [|lia].
    cbv zeta. repeat split; discriminate.
  - split; [reflexivity|]. split; [exact Hcell|].
    rewrite Hcell. discriminate.
Qed.

(** Positions [0, 1, 2], stride 2, with the cache of the first interval:
    at its left end the result is row 0. *)
Lemma interpolate__at_t0_finite_witness :
  _weightPrev three_samples = Finite (-0.5)
  /\ _weightNext three_samples = Finite 0.5
  /\ 0 <> 1
  /\ stencil_defined three_samples 1
  /\ (forall i : nat, (i < valueSize three_samples)%nat ->
        Number.get (interpolate_ three_samples 1 0 0 1) i
        = option_map Finite
            (Js.getZ (sampleValues three_samples)
               ((1 - 1) * Z.of_nat (valueSize three_samples)
                + Z.of_nat i)%Z))
  /\ (forall i : nat, (valueSize three_samples <= i)%nat ->
        Number.get (interpolate_ three_samples 1 0 0 1) i
        = Number.get (resultBuffer three_samples) i).
Proof.
  split; [reflexivity|]. split; [reflexivity|].
  split; [exact CubicInterpolantFacts.zero_neq_one|].
  split; [exact full_three_samples_stencil|].
  exact (interpolate__at_t0_finite three_samples 1 0 1 (-0.5) 0.5
           eq_refl eq_refl CubicInterpolantFacts.zero_neq_one
           full_three_samples_stencil).
Defined.

(** *** The real reading is the finite part of this one *)

Lemma of_array_set (a : Js.array) (i : nat) (v : R) :
  Number.of_array (Js.set a i v) = Number.set (Number.of_array a) i (Finite v).
Proof.
  revert a. induction i as [|i IH]; intros a.
  - destruct a as [|c a]; reflexivity.
  - destruct a as [|c a].
    + change (Number.of_array (Js.set [] (S i) v))
        with (None :: Number.of_array (Js.set [] i v)).
      rewrite IH. reflexivity.
    + change (Number.of_array (Js.set (c :: a) (S i) v))
        with (option_map Finite c :: Number.of_array (Js.set a i v)).
      rewrite IH. reflexivity.
Qed.

Lemma combine_of_real (values : Js.array) (oP o0 o1 oN : Z)
    (sP s0 s1 sN : R) :
  forall (remaining i : nat) (result r : Js.array),
    CubicInterpolant.combine values oP o0 o1 oN sP s0 s1 sN remaining i result
    = Some r ->
    combine values oP o0 o1 oN (Finite sP) (Finite s0) (Finite s1) (Finite sN)
      remaining i (Number.of_array result)
    = Number.of_array r.
Proof.
  induction remaining as [|remaining IH]; intros i result r.
  - simpl. intros [= <-]. reflexivity.
  - simpl.
    destruct (Js.getZ values (oP + Z.of_nat i)) as [vP|]; [|discriminate].
    destruct (Js.getZ values (o0 + Z.of_nat i)) as [v0|]; [|discriminate].
    destruct (Js.getZ values (o1 + Z.of_nat i)) as [v1|]; [|discriminate].
    destruct (Js.getZ values (oN + Z.of_nat i)) as [vN|]; [|discriminate].
    intros Hr. apply IH in Hr. rewrite of_array_set in Hr. exact Hr.
Qed.

(** Where [CubicInterpolant.interpolate_] returns a table of reals, this is
    what [interpolate_] computes. *)
Lemma interpolate__of_real (this : CubicInterpolant.CubicInterpolant)
    (i1 : Z) (t0 t t1 : R) (result : Js.array) :
  t0 <> t1 ->
  CubicInterpolant.interpolate_ this i1 t0 t t1 = Some result ->
  interpolate_ (of_real this) i1 t0 t t1 = Number.of_array result.
Proof.
  intros Ht. unfold CubicInterpolant.interpolate_, interpolate_, of_real.
  cbv zeta.
  cbn [_weightPrev _weightNext _offsetPrev _offsetNext valueSize
       sampleValues resultBuffer].
  rewrite div_finite by lra. cbn [mul add sub opp].
  apply combine_of_real.
Qed.

(** Where [CubicInterpolant.intervalChanged_] returns, no divisor is zero
    and this is the cache [intervalChanged_] leaves. *)
Lemma intervalChanged__of_real (this this' : CubicInterpolant.CubicInterpolant)
    (i1 : Z) (t0 t1 : R) :
  CubicInterpolant.intervalChanged_ this i1 t0 t1 = Some this' ->
  intervalChanged_ (of_real this) i1 t0 t1 = of_real this'.
Proof.
  unfold CubicInterpolant.intervalChanged_, intervalChanged_. cbv zeta.
  change (parameterPositions (of_real this))
    with (CubicInterpolant.parameterPositions this).
  change (getSettings_ (of_real this))
    with (CubicInterpolant.getSettings_ this).
  change (valueSize (of_real this)) with (CubicInterpolant.valueSize this).
  repeat (match goal with
          | |- context [Js.getZ ?a ?i] => destruct (Js.getZ a i)
          | |- context [CubicInterpolant.endingStart ?s] =>
            destruct (CubicInterpolant.endingStart s)
          | |- context [CubicInterpolant.endingEnd ?s] =>
            destruct (CubicInterpolant.endingEnd s)
          end; cbv beta iota; cbn [read add sub]);
    try discriminate;
    unfold Js.quotient;
    repeat match goal with
           | |- context [Req_dec_T ?a 0] => destruct (Req_dec_T a 0)
           end;
    try discriminate;
    intros [= <-]; rewrite !div_finite by assumption; reflexivity.
Qed.

End FullCubicInterpolantFacts.

(** ** Quaternion.angleTo *)
Module AngleFacts.
Import Quaternion.

Lemma dot_self (q : Quaternion) : dot q q = lengthSq q.
Proof. reflexivity. Qed.

Lemma lengthSq_nonneg (q : Quaternion) : 0 <= lengthSq q.
Proof. unfold lengthSq. nra. Qed.

(** [acos] vanishes only at 1. *)
Lemma acos_eq_0 (y : R) : -1 <= y <= 1 -> acos y = 0 -> y = 1.
Proof.
  intros Hy H0. rewrite <- (cos_acos y Hy), H0. apply cos_0.
Qed.

(** C7, as stated, fails on the zero quaternion: the dot product is 0 and the
    angle is 2 acos 0 = PI. *)
Lemma angleTo_self_counterexample :
  angleTo (new 0 0 0 0) (new 0 0 0 0) = PI
  /\ angleTo (new 0 0 0 0) (new 0 0 0 0) <> 0.
Proof.
  assert (E : angleTo (new 0 0 0 0) (new 0 0 0 0) = PI).
  { unfold angleTo, dot; simpl.
    replace (0 * 0 + 0 * 0 + 0 * 0 + 0 * 0) with 0 by ring.
    rewrite (RealFacts.clamp_inside 0) by lra.
    rewrite Rabs_R0, acos_0. field. }
  split; [exact E|]. rewrite E. apply PI_neq0.
Qed.

(** C7, amended.  [q.angleTo(q)] is 0 exactly for the quaternions of squared
    length at least 1, the unit quaternions among them; and [angleTo] is
    symmetric on all quaternions. *)
Theorem angleTo_self_and_symmetric :
  (forall q : Quaternion, angleTo q q = 0 <-> 1 <= lengthSq q)
  /\ (forall q : Quaternion, lengthSq q = 1 -> angleTo q q = 0)
  /\ (forall a b : Quaternion, angleTo a b = angleTo b a).
Proof.
  assert (Hself : forall q : Quaternion, angleTo q q = 0 <-> 1 <= lengthSq q).
  { intros q. unfold angleTo. rewrite dot_self.
    pose proof (lengthSq_nonneg q) as Hq. split.
    - intros H.
      assert (Hc := RealFacts.clamp_bounds (lengthSq q)).
      assert (Habs : Rabs (MathUtils.clamp (lengthSq q) (-1) 1) = 1).
      { apply acos_eq_0; [|lra].
        split; [pose proof (Rabs_pos (MathUtils.clamp (lengthSq q) (-1) 1));
                lra|].
        apply Rabs_le. exact Hc. }
      destruct (Rle_dec 1 (lengthSq q)) as [Hge|Hlt]; [exact Hge|exfalso].
      rewrite RealFacts.clamp_inside in Habs by lra.
      rewrite Rabs_right in Habs by lra. lra.
    - intros H. rewrite RealFacts.clamp_above by exact H.
      rewrite Rabs_R1, acos_1. ring. }
  split; [exact Hself|]. split.
  - intros q Hq. apply Hself. lra.
  - intros a b. unfold angleTo.
    replace (dot b a) with (dot a b) by (unfold dot; ring). reflexivity.
Qed.


End AngleFacts.

(** ** Quaternion.slerp *)
Module SlerpFacts.
Import Quaternion.

(** [slerp] is its two short cuts, the choice of the sign, and
    [slerp_rest]. *)
Lemma slerp_unfold (this qb : Quaternion) (t : R) :
  slerp this qb t
  = if Req_dec_T t 0 then this else
    if Req_dec_T t 1 then copy this qb else
    let cosHalfTheta :=
      _w this * _w qb + _x this * _x qb + _y this * _y qb + _z this * _z qb in
    if Rlt_dec cosHalfTheta 0 then
      slerp_rest (_x this) (_y this) (_z this) (_w this)
        (assign this (- _x qb) (- _y qb) (- _z qb) (- _w qb))
        (- cosHalfTheta) t
    else
      slerp_rest (_x this) (_y this) (_z this) (_w this) (copy this qb)
        cosHalfTheta t.
Proof.
  unfold slerp. cbv zeta.
  destruct (Req_dec_T t 0); [reflexivity|].
  destruct (Req_dec_T t 1); [reflexivity|].
  destruct (Rlt_dec _ 0); reflexivity.
Qed.

(** The components [slerp_rest] computes depend on the components of [this]
    only, not on how often the hook has run. *)
Lemma slerp_rest_components (x y z w : R) (this1 this2 : Quaternion)
    (c t : R) :
  components this1 = components this2 ->
  components (slerp_rest x y z w this1 c t)
  = components (slerp_rest x y z w this2 c t).
Proof.
  destruct this1 as [x1 y1 z1 w1 n1], this2 as [x2 y2 z2 w2 n2].
  unfold components; simpl. intros [= -> -> -> ->].
  unfold slerp_rest, normalize, length; simpl.
  destruct (Rge_dec c 1); [reflexivity|].
  destruct (Rle_dec _ Js.EPSILON); [|reflexivity].
  destruct (Req_dec_T _ 0); reflexivity.
Qed.










End SlerpFacts.

(** ** Quaternion.slerpFlat against Quaternion.slerp *)
Module SlerpFlatFacts.
Import Quaternion.

Lemma toArray_store (this : Quaternion) (array : Js.array) (offset : nat) :
  toArray this array offset = store array offset (components this).
Proof. reflexivity. Qed.

(** [slerpFlat] once the eight reads have given numbers. *)
Lemma slerpFlat_reads (dst : Js.array) (dstOffset : nat)
    (src0 : Js.array) (srcOffset0 : nat) (src1 : Js.array) (srcOffset1 : nat)
    (t x0 y0 z0 w0 x1 y1 z1 w1 : R) :
  Js.get src0 srcOffset0 = Some x0 ->
  Js.get src0 (srcOffset0 + 1) = Some y0 ->
  Js.get src0 (srcOffset0 + 2) = Some z0 ->
  Js.get src0 (srcOffset0 + 3) = Some w0 ->
  Js.get src1 srcOffset1 = Some x1 ->
  Js.get src1 (srcOffset1 + 1) = Some y1 ->
  Js.get src1 (srcOffset1 + 2) = Some z1 ->
  Js.get src1 (srcOffset1 + 3) = Some w1 ->
  slerpFlat dst dstOffset src0 srcOffset0 src1 srcOffset1 t
  = Some (store dst dstOffset
            (if Req_dec_T t 0 then (x0, y0, z0, w0)
             else if Req_dec_T t 1 then (x1, y1, z1, w1)
             else if strict_neq w0 w1 || strict_neq x0 x1
                     || strict_neq y0 y1 || strict_neq z0 z1
             then
               slerpFlat_tail x0 y0 z0 w0 x1 y1 z1 w1
                 (x0 * x1 + y0 * y1 + z0 * z1 + w0 * w1)
                 (if Rge_dec (x0 * x1 + y0 * y1 + z0 * z1 + w0 * w1) 0
                  then 1 else - 1)
                 t
             else (x0, y0, z0, w0))).
Proof.
  intros Hx0 Hy0 Hz0 Hw0 Hx1 Hy1 Hz1 Hw1.
  unfold slerpFlat. rewrite !Nat.add_0_r.
  rewrite Hx0, Hy0, Hz0, Hw0, Hx1, Hy1, Hz1, Hw1.
  destruct (Req_dec_T t 0); [reflexivity|].
  destruct (Req_dec_T t 1); [reflexivity|].
  destruct (strict_neq w0 w1 || strict_neq x0 x1 || strict_neq y0 y1
            || strict_neq z0 z1); [|reflexivity].
  unfold slerpFlat_tail. cbv zeta.
  destruct (Rgt_dec _ Js.EPSILON); destruct (Req_dec_T _ _); reflexivity.
Qed.

Section UnitQuaternions.

Variables x0 y0 z0 w0 x1 y1 z1 w1 : R.
Hypothesis unit0 : x0 * x0 + y0 * y0 + z0 * z0 + w0 * w0 = 1.
Hypothesis unit1 : x1 * x1 + y1 * y1 + z1 * z1 + w1 * w1 = 1.

(** The dot product, in the order [slerpFlat] sums it. *)
Let d : R := x0 * x1 + y0 * y1 + z0 * z1 + w0 * w1.

(** The squared length of the combination s q0 + u q1. *)
Lemma combination_sumsq (s u : R) :
  (x0 * s + x1 * u) * (x0 * s + x1 * u)
  + (y0 * s + y1 * u) * (y0 * s + y1 * u)
  + (z0 * s + z1 * u) * (z0 * s + z1 * u)
  + (w0 * s + w1 * u) * (w0 * s + w1 * u)
  = s * s + u * u + 2 * (s * u) * d.
Proof.
  transitivity (s * s * (x0 * x0 + y0 * y0 + z0 * z0 + w0 * w0)
                + u * u * (x1 * x1 + y1 * y1 + z1 * z1 + w1 * w1)
                + 2 * (s * u) * d).
  - unfold d. ring.
  - rewrite unit0, unit1. ring.
Qed.

(** Cauchy-Schwarz for two unit quaternions. *)
Lemma dot_square_le_1 : d * d <= 1.
Proof.
  pose proof (combination_sumsq 1 (- d)) as H.
  assert (0 <= 1 * 1 + - d * - d + 2 * (1 * - d) * d).
  { rewrite <- H. apply RealFacts.sumsq_nonneg. }
  nra.
Qed.

(** ... with equality only for q1 = q0 or q1 = - q0. *)
Lemma dot_1_equal (dir : R) :
  dir * dir = 1 -> 1 <= d * dir ->
  x1 * dir = x0 /\ y1 * dir = y0 /\ z1 * dir = z0 /\ w1 * dir = w0.
Proof.
  intros Hdir Hge.
  pose proof (combination_sumsq 1 (- dir)) as H.
  assert (Hz : (x0 * 1 + x1 * - dir) * (x0 * 1 + x1 * - dir)
               + (y0 * 1 + y1 * - dir) * (y0 * 1 + y1 * - dir)
               + (z0 * 1 + z1 * - dir) * (z0 * 1 + z1 * - dir)
               + (w0 * 1 + w1 * - dir) * (w0 * 1 + w1 * - dir) <= 0)
    by (rewrite H; nra).
  set (ex := x0 * 1 + x1 * - dir) in *. set (ey := y0 * 1 + y1 * - dir) in *.
  set (ez := z0 * 1 + z1 * - dir) in *. set (ew := w0 * 1 + w1 * - dir) in *.
  assert (ex = 0 /\ ey = 0 /\ ez = 0 /\ ew = 0) as (Ex & Ey & Ez & Ew)
    by (repeat split; nra).
  unfold ex, ey, ez, ew in *. repeat split; lra.
Qed.

(** The linear blend of two unit quaternions on the same side is not the
    zero quaternion, whatever [t]. *)
Lemma lerp_sumsq_pos (dir t : R) :
  dir * dir = 1 -> 0 <= d * dir ->
  0 < (x0 * (1 - t) + x1 * (t * dir)) * (x0 * (1 - t) + x1 * (t * dir))
      + (y0 * (1 - t) + y1 * (t * dir)) * (y0 * (1 - t) + y1 * (t * dir))
      + (z0 * (1 - t) + z1 * (t * dir)) * (z0 * (1 - t) + z1 * (t * dir))
      + (w0 * (1 - t) + w1 * (t * dir)) * (w0 * (1 - t) + w1 * (t * dir)).
Proof.
  intros Hdir Hc. rewrite combination_sumsq.
  pose proof dot_square_le_1 as Hd.
  set (c := d * dir) in *.
  assert (Hc1 : c <= 1).
  { assert (c * c = d * d) by (unfold c; nra). nra. }
  replace ((1 - t) * (1 - t) + t * dir * (t * dir)
           + 2 * ((1 - t) * (t * dir)) * d)
    with ((1 - t) * (1 - t) + t * t * (dir * dir) + 2 * ((1 - t) * t) * c)
    by (unfold c; ring).
  rewrite Hdir.
  destruct (Rle_dec 0 ((1 - t) * t)) as [Hpos|Hneg].
  - assert (0 <= (1 - t) * t * c) by (apply Rmult_le_pos; assumption).
    nra.
  - assert (0 <= - ((1 - t) * t) * (1 - c))
      by (apply Rmult_le_pos; lra).
    nra.
Qed.

(** [slerpFlat], past its test that the quaternions differ, against [slerp],
    past its choice of the sign: [dir] is 1 or -1 and [d * dir >= 0]. *)
Lemma slerpFlat_tail_slerp_rest (dir t : R) (n : nat) :
  dir * dir = 1 -> 0 <= d * dir ->
  slerpFlat_tail x0 y0 z0 w0 x1 y1 z1 w1 d dir t
  = components
      (slerp_rest x0 y0 z0 w0
         (mkQuaternion (x1 * dir) (y1 * dir) (z1 * dir) (w1 * dir) n)
         (d * dir) t).
Proof.
  intros Hdir Hc.
  pose proof dot_square_le_1 as Hd.
  pose proof RealFacts.EPSILON_pos as Heps.
  assert (Hcc : d * dir * (d * dir) = d * d)
    by (replace (d * dir * (d * dir)) with (d * d * (dir * dir)) by ring;
        rewrite Hdir; ring).
  unfold slerp_rest, slerpFlat_tail. cbv zeta. rewrite Hcc.
  destruct (Rge_dec (d * dir) 1) as [Hge|Hlt].
  - (* the same rotation: slerp leaves this as it was *)
    destruct (dot_1_equal dir Hdir) as (Hx & Hy & Hz & Hw); [lra|].
    assert (Hdd : 1 - d * d = 0) by nra. rewrite Hdd.
    destruct (Rgt_dec 0 Js.EPSILON); [lra|].
    destruct (Req_dec_T (1 - t) (1 - t)) as [_|Hne]; [|now elim Hne].
    replace (x0 * (1 - t) + x1 * (t * dir)) with x0
      by (replace (x1 * (t * dir)) with (x1 * dir * t) by ring;
          rewrite Hx; ring).
    replace (y0 * (1 - t) + y1 * (t * dir)) with y0
      by (replace (y1 * (t * dir)) with (y1 * dir * t) by ring;
          rewrite Hy; ring).
    replace (z0 * (1 - t) + z1 * (t * dir)) with z0
      by (replace (z1 * (t * dir)) with (z1 * dir * t) by ring;
          rewrite Hz; ring).
    replace (w0 * (1 - t) + w1 * (t * dir)) with w0
      by (replace (w1 * (t * dir)) with (w1 * dir * t) by ring;
          rewrite Hw; ring).
    rewrite unit0, sqrt_1. replace (1 / 1) with 1 by field.
    rewrite !Rmult_1_r. reflexivity.
  - destruct (Rle_dec (1 - d * d) Js.EPSILON) as [Hle|Hgt];
      destruct (Rgt_dec (1 - d * d) Js.EPSILON) as [Hgt'|Hle']; try lra.
    + (* the linear blend, normalised on both sides *)
      destruct (Req_dec_T (1 - t) (1 - t)) as [_|Hne]; [|now elim Hne].
      unfold normalize, length, components, assign, _onChangeCallback.
      cbn [_x _y _z _w].
      replace ((1 - t) * x0 + t * (x1 * dir))
        with (x0 * (1 - t) + x1 * (t * dir)) by ring.
      replace ((1 - t) * y0 + t * (y1 * dir))
        with (y0 * (1 - t) + y1 * (t * dir)) by ring.
      replace ((1 - t) * z0 + t * (z1 * dir))
        with (z0 * (1 - t) + z1 * (t * dir)) by ring.
      replace ((1 - t) * w0 + t * (w1 * dir))
        with (w0 * (1 - t) + w1 * (t * dir)) by ring.
      pose proof (lerp_sumsq_pos dir t Hdir Hc) as Hpos.
      apply sqrt_lt_R0 in Hpos.
      destruct (Req_dec_T _ 0) as [E|_]; [lra|]. reflexivity.
    + (* the spherical blend *)
      set (sn := sqrt (1 - d * d)).
      assert (Hsn : 0 < sn) by (apply sqrt_lt_R0; lra).
      set (len := Js.atan2 sn (d * dir)).
      set (s' := sin ((1 - t) * len) / sn).
      set (t' := sin (t * len) / sn).
      unfold components, assign, _onChangeCallback. cbn [_x _y _z _w].
      destruct (Req_dec_T s' (1 - t')) as [E|_];
        [|apply RealFacts.tuple4_eq; ring].
      (* s = 1 - t by coincidence: the blend has length 1 already *)
      assert (Hone : (x0 * s' + x1 * (t' * dir)) * (x0 * s' + x1 * (t' * dir))
                     + (y0 * s' + y1 * (t' * dir)) * (y0 * s' + y1 * (t' * dir))
                     + (z0 * s' + z1 * (t' * dir)) * (z0 * s' + z1 * (t' * dir))
                     + (w0 * s' + w1 * (t' * dir)) * (w0 * s' + w1 * (t' * dir))
                     = 1).
      { rewrite combination_sumsq.
        assert (Hss : sn * sn = 1 - d * d) by (apply sqrt_sqrt; lra).
        destruct (RealFacts.atan2_unit_circle sn (d * dir) Hc Hsn)
          as [Hcos Hsin]; [rewrite Hcc; lra|].
        fold len in Hcos, Hsin.
        pose proof (RealFacts.sin_sum_square ((1 - t) * len) (t * len)) as Hid.
        replace ((1 - t) * len + t * len) with len in Hid by ring.
        rewrite Hcos, Hsin in Hid.
        unfold s', t'.
        set (sa := sin ((1 - t) * len)) in *.
        set (sb := sin (t * len)) in *.
        replace (sa / sn * (sa / sn) + sb / sn * dir * (sb / sn * dir)
                 + 2 * (sa / sn * (sb / sn * dir)) * d)
          with ((sa * sa + sb * sb * (dir * dir) + 2 * (sa * sb) * (d * dir))
                / (sn * sn)) by (field; lra).
        rewrite Hdir, Rmult_1_r, Hid. field. lra. }
      rewrite Hone, sqrt_1. replace (1 / 1) with 1 by field.
      rewrite !Rmult_1_r. apply RealFacts.tuple4_eq; ring.
Qed.

End UnitQuaternions.

Lemma strict_neq_false (a b : R) : strict_neq a b = false -> a = b.
Proof. unfold strict_neq. destruct (Req_dec_T a b); [trivial|discriminate]. Qed.

(** Between the reads and the writes, [slerpFlat] computes the components
    of [slerp] on unit quaternions. *)
Lemma slerpFlat_core_slerp (a b : Quaternion) (t : R) :
  lengthSq a = 1 -> lengthSq b = 1 ->
  (if Req_dec_T t 0 then components a
   else if Req_dec_T t 1 then components b
   else if strict_neq (_w a) (_w b) || strict_neq (_x a) (_x b)
           || strict_neq (_y a) (_y b) || strict_neq (_z a) (_z b)
   then
     slerpFlat_tail (_x a) (_y a) (_z a) (_w a) (_x b) (_y b) (_z b) (_w b)
       (_x a * _x b + _y a * _y b + _z a * _z b + _w a * _w b)
       (if Rge_dec (_x a * _x b + _y a * _y b + _z a * _z b + _w a * _w b) 0
        then 1 else - 1)
       t
   else components a)
  = components (slerp a b t).
Proof.
  destruct a as [x0 y0 z0 w0 n0], b as [x1 y1 z1 w1 n1].
  unfold lengthSq. cbn [_x _y _z _w]. intros unit0 unit1.
  rewrite SlerpFacts.slerp_unfold. cbv zeta. cbn [_x _y _z _w].
  destruct (Req_dec_T t 0); [reflexivity|].
  destruct (Req_dec_T t 1); [reflexivity|].
  replace (w0 * w1 + x0 * x1 + y0 * y1 + z0 * z1)
    with (x0 * x1 + y0 * y1 + z0 * z1 + w0 * w1) by ring.
  destruct (strict_neq w0 w1 || strict_neq x0 x1 || strict_neq y0 y1
            || strict_neq z0 z1) eqn:Hdiff.
  - destruct (Rge_dec (x0 * x1 + y0 * y1 + z0 * z1 + w0 * w1) 0) as [Hge|Hnge];
      destruct (Rlt_dec (x0 * x1 + y0 * y1 + z0 * z1 + w0 * w1) 0)
        as [Hlt|Hnlt];
      try lra.
    + rewrite (slerpFlat_tail_slerp_rest x0 y0 z0 w0 x1 y1 z1 w1 unit0 unit1
                 1 t 0) by lra.
      replace ((x0 * x1 + y0 * y1 + z0 * z1 + w0 * w1) * 1)
        with (x0 * x1 + y0 * y1 + z0 * z1 + w0 * w1) by ring.
      apply SlerpFacts.slerp_rest_components, RealFacts.tuple4_eq; cbn; ring.
    + rewrite (slerpFlat_tail_slerp_rest x0 y0 z0 w0 x1 y1 z1 w1 unit0 unit1
                 (- 1) t 0) by lra.
      replace ((x0 * x1 + y0 * y1 + z0 * z1 + w0 * w1) * - 1)
        with (- (x0 * x1 + y0 * y1 + z0 * z1 + w0 * w1)) by ring.
      apply SlerpFacts.slerp_rest_components, RealFacts.tuple4_eq; cbn; ring.
  - apply orb_false_elim in Hdiff as [Hdiff Hz].
    apply orb_false_elim in Hdiff as [Hdiff Hy].
    apply orb_false_elim in Hdiff as [Hw Hx].
    apply strict_neq_false in Hx, Hy, Hz, Hw. subst x1 y1 z1 w1.
    destruct (Rlt_dec _ 0) as [Hlt|_]; [lra|].
    unfold slerp_rest. destruct (Rge_dec _ 1) as [_|Hn]; [reflexivity|lra].
Qed.

(** The two formulas agree on unit quaternions, over the real numbers: for
    two quaternions of squared length exactly 1 held in flat arrays, and for
    every [t], [slerpFlat] returns [dst] with, at [dstOffset], the components
    [slerp] computes on the same quaternions.  The normalisation under
    [s === 1 - t] is the one of the linear branch of [slerp] or, past the
    spherical branch, leaves a blend of length 1 as it is.  This is a fact
    of the exact arithmetic only.  Doubles cannot tell a squared length of 1
    from 1 + 1e-18, and between (0, 0, 0, 1) and (1e-9, 0, 0, 1), which both
    have the computed squared length 1, [slerp] returns at
    [cosHalfTheta >= 1.0] where [slerpFlat] blends; the two also sum the dot
    product in different orders, so that its rounded sign can differ. *)
Lemma slerpFlat_slerp_unit
    (dst : Js.array) (dstOffset : nat)
    (src0 : Js.array) (srcOffset0 : nat)
    (src1 : Js.array) (srcOffset1 : nat)
    (t : R) (qa qb a b : Quaternion) :
  fromArray qa src0 srcOffset0 = Some a ->
  fromArray qb src1 srcOffset1 = Some b ->
  lengthSq a = 1 ->
  lengthSq b = 1 ->
  slerpFlat dst dstOffset src0 srcOffset0 src1 srcOffset1 t
  = Some (toArray (slerp a b t) dst dstOffset).
Proof.
  intros Ha Hb Hunita Hunitb.
  apply QuaternionFacts.fromArray_inv in Ha as (Hx0 & Hy0 & Hz0 & Hw0).
  apply QuaternionFacts.fromArray_inv in Hb as (Hx1 & Hy1 & Hz1 & Hw1).
  rewrite (slerpFlat_reads dst dstOffset src0 srcOffset0 src1 srcOffset1 t
             _ _ _ _ _ _ _ _ Hx0 Hy0 Hz0 Hw0 Hx1 Hy1 Hz1 Hw1).
  rewrite toArray_store.
  rewrite <- (slerpFlat_core_slerp a b t Hunita Hunitb).
  reflexivity.
Qed.




Lemma lengthSq_axis_w (n : nat) : lengthSq (mkQuaternion 0 0 0 1 n) = 1.
Proof. unfold lengthSq; simpl. ring. Qed.

Lemma lengthSq_3_4 (n : nat) :
  lengthSq (mkQuaternion 0 (3 / 5) 0 (4 / 5) n) = 1.
Proof. unfold lengthSq; simpl. field. Qed.

(** One third of the way from the identity to (0, 3/5, 0, 4/5), both packed
    in larger buffers. *)
Lemma slerpFlat_slerp_unit_witness :
  fromArray (new 0 0 0 1) (Js.dense [9; 0; 0; 0; 1; 9]) 1
  = Some (mkQuaternion 0 0 0 1 1)
  /\ fromArray (new 0 0 0 1) (Js.dense [9; 9; 0; 3 / 5; 0; 4 / 5]) 2
     = Some (mkQuaternion 0 (3 / 5) 0 (4 / 5) 1)
  /\ lengthSq (mkQuaternion 0 0 0 1 1) = 1
  /\ lengthSq (mkQuaternion 0 (3 / 5) 0 (4 / 5) 1) = 1
  /\ slerpFlat (Js.dense [0; 0; 0; 0; 0; 0]) 1
       (Js.dense [9; 0; 0; 0; 1; 9]) 1
       (Js.dense [9; 9; 0; 3 / 5; 0; 4 / 5]) 2 (1 / 3)
     = Some (toArray
               (slerp (mkQuaternion 0 0 0 1 1)
                  (mkQuaternion 0 (3 / 5) 0 (4 / 5) 1) (1 / 3))
               (Js.dense [0; 0; 0; 0; 0; 0]) 1).
Proof.
  split; [reflexivity|]. split; [reflexivity|].
  split; [exact (lengthSq_axis_w 1)|]. split; [exact (lengthSq_3_4 1)|].
  exact (slerpFlat_slerp_unit (Js.dense [0; 0; 0; 0; 0; 0]) 1
           (Js.dense [9; 0; 0; 0; 1; 9]) 1
           (Js.dense [9; 9; 0; 3 / 5; 0; 4 / 5]) 2 (1 / 3)
           (new 0 0 0 1) (new 0 0 0 1)
           (mkQuaternion 0 0 0 1 1) (mkQuaternion 0 (3 / 5) 0 (4 / 5) 1)
           eq_refl eq_refl (lengthSq_axis_w 1) (lengthSq_3_4 1)).
Defined.




End SlerpFlatFacts.

(** * Further properties of the sources *)

(** ** Quaternion: the algebra of the Hamilton product *)
Module QuaternionAlgebra.
Import Quaternion.

(** X1.  The squared length of [this.multiplyQuaternions(a, b)] is the
    product of the squared lengths of [a] and [b]: the product of two unit
    quaternions is a unit quaternion, and no normalisation is needed after
    composing rotations in exact arithmetic. *)
Theorem multiplyQuaternions_lengthSq (this a b : Quaternion) :
  lengthSq (multiplyQuaternions this a b) = lengthSq a * lengthSq b.
Proof. unfold lengthSq, multiplyQuaternions; cbn. ring. Qed.

(** X2.  The product is associative: [a.multiply(b).multiply(c)] and
    [a.multiply(b.multiply(c))] leave the same components. *)
Theorem multiply_assoc (a b c : Quaternion) :
  components (multiply (multiply a b) c)
  = components (multiply a (multiply b c)).
Proof.
  unfold multiply, multiplyQuaternions, components; cbn.
  apply RealFacts.tuple4_eq; ring.
Qed.

(** X3.  The quaternion [identity()] leaves is neutral on both sides:
    [q.multiply(e)] and [q.premultiply(e)] keep the components of [q]. *)
Theorem identity_neutral (q e : Quaternion) :
  components (multiply q (identity e)) = components q
  /\ components (premultiply q (identity e)) = components q.
Proof.
  unfold multiply, premultiply, multiplyQuaternions, identity, set,
    components; cbn.
  split; apply RealFacts.tuple4_eq; ring.
Qed.

(** X4.  Multiplying a quaternion by the inverse of a copy of itself, on
    either side, gives (0, 0, 0, |q|^2): the identity when [q] is a unit
    quaternion, which is what [invert] assumes. *)
Theorem multiply_invert (q : Quaternion) :
  components (multiply q (invert (clone q))) = (0, 0, 0, lengthSq q)
  /\ components (premultiply q (invert (clone q))) = (0, 0, 0, lengthSq q).
Proof.
  unfold multiply, premultiply, multiplyQuaternions, invert, conjugate,
    clone, new, components, lengthSq; cbn.
  split; apply RealFacts.tuple4_eq; ring.
Qed.

(** X5.  [conjugate] is an involution and reverses products: the conjugate
    of a b has the components of conjugate(b) conjugate(a). *)
Theorem conjugate_involutive_and_reverses (a b : Quaternion) :
  components (conjugate (conjugate a)) = components a
  /\ components (conjugate (multiply a b))
     = components (multiply (conjugate b) (conjugate a)).
Proof.
  unfold multiply, multiplyQuaternions, conjugate, components; cbn.
  split; apply RealFacts.tuple4_eq; ring.
Qed.

Lemma lengthSq_hook (q : Quaternion) :
  lengthSq (_onChangeCallback q) = lengthSq q.
Proof. reflexivity. Qed.

Lemma length_sqrt_lengthSq (q : Quaternion) : length q = sqrt (lengthSq q).
Proof. reflexivity. Qed.

(** [normalize] always leaves a unit quaternion. *)
Lemma normalize_unit (q : Quaternion) : lengthSq (normalize q) = 1.
Proof.
  unfold normalize. rewrite lengthSq_hook.
  destruct (Req_dec_T (length q) 0) as [H0|Hne].
  - unfold lengthSq, assign; cbn. ring.
  - assert (Hsq : length q * length q = lengthSq q).
    { rewrite length_sqrt_lengthSq. apply sqrt_sqrt.
      apply AngleFacts.lengthSq_nonneg. }
    unfold lengthSq at 1, assign; cbn [_x _y _z _w].
    replace (_x q * (1 / length q) * (_x q * (1 / length q))
             + _y q * (1 / length q) * (_y q * (1 / length q))
             + _z q * (1 / length q) * (_z q * (1 / length q))
             + _w q * (1 / length q) * (_w q * (1 / length q)))
      with (lengthSq q / (length q * length q))
      by (unfold lengthSq; field; exact Hne).
    rewrite Hsq. field. rewrite <- Hsq. nra.
Qed.

(** X6.  [normalize()] leaves a unit quaternion whatever it starts from (the
    zero quaternion becomes the identity), and normalising twice changes
    nothing more. *)
Theorem normalize_unit_and_idempotent (q : Quaternion) :
  lengthSq (normalize q) = 1
  /\ components (normalize (normalize q)) = components (normalize q).
Proof.
  pose proof (normalize_unit q) as Hunit. split; [exact Hunit|].
  set (n := normalize q) in *.
  assert (Hlen : length n = 1)
    by (rewrite length_sqrt_lengthSq, Hunit; apply sqrt_1).
  unfold normalize at 1. rewrite Hlen.
  destruct (Req_dec_T 1 0) as [E|_]; [lra|].
  unfold components; cbn. apply RealFacts.tuple4_eq; field.
Qed.

End QuaternionAlgebra.

(** ** Quaternion: slerp, rotateTowards, equals, arrays *)
Module SlerpUnitFacts.
Import Quaternion.

Lemma lengthSq_components (p q : Quaternion) :
  components p = components q -> lengthSq p = lengthSq q.
Proof.
  unfold components, lengthSq. intros [= -> -> -> ->]. reflexivity.
Qed.

Section UnitPair.

Variables x0 y0 z0 w0 x1 y1 z1 w1 : R.
Hypothesis unit0 : x0 * x0 + y0 * y0 + z0 * z0 + w0 * w0 = 1.
Hypothesis unit1 : x1 * x1 + y1 * y1 + z1 * z1 + w1 * w1 = 1.

Let d : R := x0 * x1 + y0 * y1 + z0 * z1 + w0 * w1.

(** Past the choice of the sign, [slerp] on unit quaternions gives a unit
    quaternion in each of its three branches. *)
Lemma slerp_rest_unit (dir t : R) (n : nat) :
  dir * dir = 1 -> 0 <= d * dir ->
  lengthSq
    (slerp_rest x0 y0 z0 w0
       (mkQuaternion (x1 * dir) (y1 * dir) (z1 * dir) (w1 * dir) n)
       (d * dir) t) = 1.
Proof.
  intros Hdir Hc.
  pose proof RealFacts.EPSILON_pos as Heps.
  assert (Hcc : d * dir * (d * dir) = d * d)
    by (replace (d * dir * (d * dir)) with (d * d * (dir * dir)) by ring;
        rewrite Hdir; ring).
  unfold slerp_rest. cbv zeta. rewrite Hcc.
  destruct (Rge_dec (d * dir) 1) as [Hge|Hlt].
  - unfold lengthSq, assign; cbn. exact unit0.
  - destruct (Rle_dec (1 - d * d) Js.EPSILON) as [Hle|Hgt].
    + rewrite QuaternionAlgebra.lengthSq_hook.
      apply QuaternionAlgebra.normalize_unit.
    + rewrite QuaternionAlgebra.lengthSq_hook.
      set (sn := sqrt (1 - d * d)).
      assert (Hsn : 0 < sn) by (apply sqrt_lt_R0; lra).
      assert (Hss : sn * sn = 1 - d * d) by (apply sqrt_sqrt; lra).
      set (len := Js.atan2 sn (d * dir)).
      destruct (RealFacts.atan2_unit_circle sn (d * dir) Hc Hsn)
        as [Hcos Hsin]; [rewrite Hcc; lra|].
      fold len in Hcos, Hsin.
      pose proof (RealFacts.sin_sum_square ((1 - t) * len) (t * len)) as Hid.
      replace ((1 - t) * len + t * len) with len in Hid by ring.
      rewrite Hcos, Hsin in Hid.
      set (sa := sin ((1 - t) * len)) in *.
      set (sb := sin (t * len)) in *.
      unfold lengthSq, assign; cbn [_x _y _z _w].
      replace (x0 * (sa / sn) + x1 * dir * (sb / sn))
        with (x0 * (sa / sn) + x1 * (sb / sn * dir)) by ring.
      replace (y0 * (sa / sn) + y1 * dir * (sb / sn))
        with (y0 * (sa / sn) + y1 * (sb / sn * dir)) by ring.
      replace (z0 * (sa / sn) + z1 * dir * (sb / sn))
        with (z0 * (sa / sn) + z1 * (sb / sn * dir)) by ring.
      replace (w0 * (sa / sn) + w1 * dir * (sb / sn))
        with (w0 * (sa / sn) + w1 * (sb / sn * dir)) by ring.
      rewrite (SlerpFlatFacts.combination_sumsq x0 y0 z0 w0 x1 y1 z1 w1
                 unit0 unit1).
      fold d.
      replace (sa / sn * (sa / sn) + sb / sn * dir * (sb / sn * dir)
               + 2 * (sa / sn * (sb / sn * dir)) * d)
        with ((sa * sa + sb * sb * (dir * dir) + 2 * (sa * sb) * (d * dir))
              / (sn * sn)) by (field; lra).
      rewrite Hdir, Rmult_1_r, Hid. field. lra.
Qed.

End UnitPair.

(** X7.  [slerp] keeps unit length: between two unit quaternions, for every
    [t] (inside [0, 1] or not), the result is a unit quaternion, in the
    short cuts, the unchanged case, the normalised linear blend and the
    spherical blend alike. *)
Theorem slerp_unit (a b : Quaternion) (t : R) :
  lengthSq a = 1 -> lengthSq b = 1 -> lengthSq (slerp a b t) = 1.
Proof.
  destruct a as [x0 y0 z0 w0 n0], b as [x1 y1 z1 w1 n1].
  unfold lengthSq at 1 2. cbn [_x _y _z _w]. intros unit0 unit1.
  rewrite SlerpFacts.slerp_unfold. cbv zeta. cbn [_x _y _z _w].
  destruct (Req_dec_T t 0); [exact unit0|].
  destruct (Req_dec_T t 1); [exact unit1|].
  replace (w0 * w1 + x0 * x1 + y0 * y1 + z0 * z1)
    with (x0 * x1 + y0 * y1 + z0 * z1 + w0 * w1) by ring.
  destruct (Rlt_dec (x0 * x1 + y0 * y1 + z0 * z1 + w0 * w1) 0) as [Hlt|Hge].
  - rewrite <- (slerp_rest_unit x0 y0 z0 w0 x1 y1 z1 w1 unit0 unit1 (- 1) t 0)
      by lra.
    replace ((x0 * x1 + y0 * y1 + z0 * z1 + w0 * w1) * - 1)
      with (- (x0 * x1 + y0 * y1 + z0 * z1 + w0 * w1)) by ring.
    apply lengthSq_components, SlerpFacts.slerp_rest_components,
      RealFacts.tuple4_eq; cbn; ring.
  - rewrite <- (slerp_rest_unit x0 y0 z0 w0 x1 y1 z1 w1 unit0 unit1 1 t 0)
      by lra.
    replace ((x0 * x1 + y0 * y1 + z0 * z1 + w0 * w1) * 1)
      with (x0 * x1 + y0 * y1 + z0 * z1 + w0 * w1) by ring.
    apply lengthSq_components, SlerpFacts.slerp_rest_components,
      RealFacts.tuple4_eq; cbn; ring.
Qed.

(** A third of the way from the identity to (0, 3/5, 0, 4/5). *)
Lemma slerp_unit_witness :
  lengthSq (new 0 0 0 1) = 1
  /\ lengthSq (new 0 (3 / 5) 0 (4 / 5)) = 1
  /\ lengthSq (slerp (new 0 0 0 1) (new 0 (3 / 5) 0 (4 / 5)) (1 / 3)) = 1.
Proof.
  split; [exact (SlerpFlatFacts.lengthSq_axis_w 0)|].
  split; [exact (SlerpFlatFacts.lengthSq_3_4 0)|].
  exact (slerp_unit (new 0 0 0 1) (new 0 (3 / 5) 0 (4 / 5)) (1 / 3)
           (SlerpFlatFacts.lengthSq_axis_w 0) (SlerpFlatFacts.lengthSq_3_4 0)).
Defined.

(** The components [slerp] leaves depend on the components of [this] only. *)
Lemma slerp_components (this1 this2 qb : Quaternion) (t : R) :
  components this1 = components this2 ->
  components (slerp this1 qb t) = components (slerp this2 qb t).
Proof.
  destruct this1 as [x1 y1 z1 w1 n1], this2 as [x2 y2 z2 w2 n2].
  unfold components at 1 2; cbn [_x _y _z _w]. intros [= -> -> -> ->].
  rewrite !SlerpFacts.slerp_unfold. cbv zeta. cbn [_x _y _z _w].
  destruct (Req_dec_T t 0); [reflexivity|].
  destruct (Req_dec_T t 1); [reflexivity|].
  destruct (Rlt_dec _ 0);
    apply SlerpFacts.slerp_rest_components; reflexivity.
Qed.

(** [this.slerpQuaternions(qa, qb, t)] leaves in [this] the components
    that [qa.slerp(qb, t)] computes, whatever [this] held before. *)
Lemma slerpQuaternions_slerp (this qa qb : Quaternion) (t : R) :
  components (slerpQuaternions this qa qb t) = components (slerp qa qb t).
Proof.
  unfold slerpQuaternions. apply slerp_components. reflexivity.
Qed.

End SlerpUnitFacts.

(** ** Quaternion: angles, comparison and storage *)
Module QuaternionUseFacts.
Import Quaternion.

Lemma acos_le_PI2 (y : R) : 0 <= y <= 1 -> 0 <= acos y <= PI / 2.
Proof.
  intros Hy. pose proof (acos_bound y) as [Hlo Hhi]. split; [exact Hlo|].
  destruct (Rle_dec (acos y) (PI / 2)) as [Hle|Hgt]; [exact Hle|exfalso].
  assert (Hcos : cos (acos y) < 0).
  { apply cos_lt_0; [lra|]. pose proof PI_RGT_0. lra. }
  rewrite cos_acos in Hcos by lra. lra.
Qed.

(** X9.  [angleTo] always lies between 0 and PI, whatever the lengths of the
    two quaternions: the dot product is clamped and its sign dropped. *)
Theorem angleTo_range (a q : Quaternion) : 0 <= angleTo a q <= PI.
Proof.
  unfold angleTo.
  pose proof (RealFacts.clamp_bounds (dot a q)) as Hc.
  assert (Habs : 0 <= Rabs (MathUtils.clamp (dot a q) (-1) 1) <= 1).
  { split; [apply Rabs_pos|apply Rabs_le; exact Hc]. }
  pose proof (acos_le_PI2 _ Habs). lra.
Qed.

(** X10.  [rotateTowards] does not overshoot: when the step is at least the
    angle to [q] (and that angle is not 0), the quaternion lands exactly on
    [q]. *)
Theorem rotateTowards_reaches (this q : Quaternion) (step : R) :
  angleTo this q <> 0 ->
  angleTo this q <= step ->
  components (rotateTowards this q step) = components q.
Proof.
  intros Hne Hstep. unfold rotateTowards.
  destruct (Req_dec_T (angleTo this q) 0) as [E|_]; [now elim Hne|].
  pose proof (angleTo_range this q) as [Hlo _].
  assert (Hpos : 0 < angleTo this q) by lra.
  assert (Hmin : Rmin 1 (step / angleTo this q) = 1).
  { apply Rmin_left.
    apply (Rmult_le_reg_r (angleTo this q)); [exact Hpos|].
    unfold Rdiv. rewrite Rmult_assoc, Rinv_l by lra. lra. }
  rewrite Hmin. unfold slerp.
  destruct (Req_dec_T 1 0); [lra|]. destruct (Req_dec_T 1 1); [|lra].
  reflexivity.
Qed.

Lemma angleTo_orthogonal : angleTo (new 0 0 0 1) (new 1 0 0 0) = PI.
Proof.
  unfold angleTo, dot; cbn.
  replace (0 * 1 + 0 * 0 + 0 * 0 + 1 * 0) with 0 by ring.
  rewrite (RealFacts.clamp_inside 0) by lra.
  rewrite Rabs_R0, acos_0. field.
Qed.

Lemma angleTo_orthogonal_nonzero : angleTo (new 0 0 0 1) (new 1 0 0 0) <> 0.
Proof. rewrite angleTo_orthogonal. apply PI_neq0. Qed.

Lemma angleTo_orthogonal_le_4 : angleTo (new 0 0 0 1) (new 1 0 0 0) <= 4.
Proof. rewrite angleTo_orthogonal. apply PI_4. Qed.

(** From the identity towards (1, 0, 0, 0), PI away, with a step of 4. *)
Lemma rotateTowards_reaches_witness :
  angleTo (new 0 0 0 1) (new 1 0 0 0) <> 0
  /\ angleTo (new 0 0 0 1) (new 1 0 0 0) <= 4
  /\ components (rotateTowards (new 0 0 0 1) (new 1 0 0 0) 4)
     = components (new 1 0 0 0).
Proof.
  split; [exact angleTo_orthogonal_nonzero|].
  split; [exact angleTo_orthogonal_le_4|].
  exact (rotateTowards_reaches (new 0 0 0 1) (new 1 0 0 0) 4
           angleTo_orthogonal_nonzero angleTo_orthogonal_le_4).
Defined.

(** X11.  [equals] holds exactly when the four components are equal; how
    often the change hook has run plays no part. *)
Theorem equals_iff_components (a b : Quaternion) :
  equals a b = true <-> components a = components b.
Proof.
  unfold equals, components. split.
  - intros H.
    destruct (Req_dec_T (_x b) (_x a)) as [->|]; [|discriminate].
    destruct (Req_dec_T (_y b) (_y a)) as [->|]; [|discriminate].
    destruct (Req_dec_T (_z b) (_z a)) as [->|]; [|discriminate].
    destruct (Req_dec_T (_w b) (_w a)) as [->|]; [|discriminate].
    reflexivity.
  - intros [= -> -> -> ->].
    destruct (Req_dec_T (_x b) (_x b)) as [_|N]; [|now elim N].
    destruct (Req_dec_T (_y b) (_y b)) as [_|N]; [|now elim N].
    destruct (Req_dec_T (_z b) (_z b)) as [_|N]; [|now elim N].
    destruct (Req_dec_T (_w b) (_w b)) as [_|N]; [|now elim N].
    reflexivity.
Qed.

(** X12.  [toArray] then [fromArray] at the same offset gives back the four
    components, in any array and at any offset (also past its end, where the
    array grows), and [toArray] changes no cell outside
    [offset .. offset + 3]. *)
Theorem toArray_fromArray (q this : Quaternion) (array : Js.array)
    (offset : nat) :
  (exists r : Quaternion,
      fromArray this (toArray q array offset) offset = Some r
      /\ components r = components q)
  /\ (forall k : nat, (k < offset \/ offset + 4 <= k)%nat ->
        Js.get (toArray q array offset) k = Js.get array k).
Proof.
  split.
  - unfold fromArray, toArray. rewrite !JsFacts.get_set.
    repeat match goal with
           | |- context [Nat.eqb ?a ?b] =>
             destruct (Nat.eqb_spec a b); try lia
           end.
    eexists. split; reflexivity.
  - intros k Hk. unfold toArray. rewrite !JsFacts.get_set.
    repeat match goal with
           | |- context [Nat.eqb ?a ?b] =>
             destruct (Nat.eqb_spec a b); try lia
           end.
    reflexivity.
Qed.

End QuaternionUseFacts.

(** ** Quaternion: conversions from Euler angles and from axis and angle *)
Module ConversionFacts.
Import Quaternion.

Lemma half_angle_unit (a : R) :
  cos (a / 2) * cos (a / 2) + sin (a / 2) * sin (a / 2) = 1.
Proof. pose proof (sin2_cos2 (a / 2)) as H. unfold Rsqr in H. lra. Qed.

(** The six sign patterns of [setFromEuler] all have squared length
    (c1^2 + s1^2) (c2^2 + s2^2) (c3^2 + s3^2). *)
Lemma euler_pattern_unit (c1 s1 c2 s2 c3 s3 e1 e2 e3 e4 : R) :
  c1 * c1 + s1 * s1 = 1 -> c2 * c2 + s2 * s2 = 1 -> c3 * c3 + s3 * s3 = 1 ->
  e1 * e1 = 1 -> e2 * e2 = 1 -> e3 * e3 = 1 -> e4 * e4 = 1 ->
  e1 + e2 + e3 + e4 = 0 ->
  (s1 * c2 * c3 + e1 * (c1 * s2 * s3)) * (s1 * c2 * c3 + e1 * (c1 * s2 * s3))
  + (c1 * s2 * c3 + e2 * (s1 * c2 * s3)) * (c1 * s2 * c3 + e2 * (s1 * c2 * s3))
  + (c1 * c2 * s3 + e3 * (s1 * s2 * c3)) * (c1 * c2 * s3 + e3 * (s1 * s2 * c3))
  + (c1 * c2 * c3 + e4 * (s1 * s2 * s3)) * (c1 * c2 * c3 + e4 * (s1 * s2 * s3))
  = 1.
Proof.
  intros H1 H2 H3 E1 E2 E3 E4 Hsum.
  transitivity ((c1 * c1 + s1 * s1) * (c2 * c2 + s2 * s2)
                * (c3 * c3 + s3 * s3)
                + 2 * (e1 + e2 + e3 + e4) * (c1 * s1 * c2 * s2 * c3 * s3)
                + (e1 * e1 - 1) * (c1 * s2 * s3 * (c1 * s2 * s3))
                + (e2 * e2 - 1) * (s1 * c2 * s3 * (s1 * c2 * s3))
                + (e3 * e3 - 1) * (s1 * s2 * c3 * (s1 * s2 * c3))
                + (e4 * e4 - 1) * (s1 * s2 * s3 * (s1 * s2 * s3))).
  - ring.
  - rewrite H1, H2, H3, E1, E2, E3, E4, Hsum. ring.
Qed.

(** X13.  For each of the six rotation orders [setFromEuler] returns
    normally, without a warning, and leaves a unit quaternion, whatever the
    three angles. *)
Theorem setFromEuler_unit (this : Quaternion) (e : Euler.Euler)
    (update : option bool) :
  In (Euler._order e) Euler.RotationOrders ->
  exists q : Quaternion,
    setFromEuler this (Object true e) update = Js.Normal (q, [])
    /\ lengthSq q = 1.
Proof.
  intros Hin.
  pose proof (half_angle_unit (Euler._x e)) as H1.
  pose proof (half_angle_unit (Euler._y e)) as H2.
  pose proof (half_angle_unit (Euler._z e)) as H3.
  set (c1 := cos (Euler._x e / 2)) in *. set (s1 := sin (Euler._x e / 2)) in *.
  set (c2 := cos (Euler._y e / 2)) in *. set (s2 := sin (Euler._y e / 2)) in *.
  set (c3 := cos (Euler._z e / 2)) in *. set (s3 := sin (Euler._z e / 2)) in *.
  assert (Hpat : forall e1 e2 e3 e4 x y z w,
            e1 * e1 = 1 -> e2 * e2 = 1 -> e3 * e3 = 1 -> e4 * e4 = 1 ->
            e1 + e2 + e3 + e4 = 0 ->
            x = s1 * c2 * c3 + e1 * (c1 * s2 * s3) ->
            y = c1 * s2 * c3 + e2 * (s1 * c2 * s3) ->
            z = c1 * c2 * s3 + e3 * (s1 * s2 * c3) ->
            w = c1 * c2 * c3 + e4 * (s1 * s2 * s3) ->
            x * x + y * y + z * z + w * w = 1).
  { intros e1 e2 e3 e4 x y z w E1 E2 E3 E4 Hs -> -> -> ->.
    apply euler_pattern_unit; assumption. }
  unfold setFromEuler, negb. fold c1 s1 c2 s2 c3 s3.
  simpl in Hin.
  destruct Hin as [<-|[<-|[<-|[<-|[<-|[<-|[]]]]]]]; simpl;
    destruct update as [[|]|]; eexists; (split; [reflexivity|]);
    unfold lengthSq; cbn [_x _y _z _w _onChangeCallback assign].
  all: first
    [ apply (Hpat 1 (-1) 1 (-1)); lra
    | apply (Hpat 1 1 (-1) (-1)); lra
    | apply (Hpat (-1) 1 1 (-1)); lra
    | apply (Hpat (-1) (-1) 1 1); lra
    | apply (Hpat 1 (-1) (-1) 1); lra
    | apply (Hpat (-1) 1 (-1) 1); lra ].
Qed.

Lemma ZYX_known : In "ZYX"%string Euler.RotationOrders.
Proof. simpl. tauto. Qed.

(** The angles (1, 2, 3) in the order ZYX. *)
Lemma setFromEuler_unit_witness :
  In (Euler._order (Euler.new 1 2 3 "ZYX")) Euler.RotationOrders
  /\ exists q : Quaternion,
      setFromEuler (new 0 0 0 1) (Object true (Euler.new 1 2 3 "ZYX")) None
      = Js.Normal (q, [])
      /\ lengthSq q = 1.
Proof.
  split; [exact ZYX_known|].
  exact (setFromEuler_unit (new 0 0 0 1) (Euler.new 1 2 3 "ZYX") None
           ZYX_known).
Defined.

Lemma cos_half_0 : cos (0 / 2) = 1.
Proof. replace (0 / 2) with 0 by field. apply cos_0. Qed.

Lemma sin_half_0 : sin (0 / 2) = 0.
Proof. replace (0 / 2) with 0 by field. apply sin_0. Qed.

(** X14.  A rotation about a single coordinate axis does not depend on the
    order: for each of the six orders, [setFromEuler] on the angles
    (a, 0, 0), (0, a, 0) or (0, 0, a) leaves the components that
    [setFromAxisAngle] computes for the X, Y or Z axis and the angle a. *)
Theorem setFromEuler_single_axis (this that : Quaternion) (a : R)
    (order : string) (update : option bool) :
  In order Euler.RotationOrders ->
  (exists q : Quaternion,
      setFromEuler this (Object true (Euler.new a 0 0 order)) update
      = Js.Normal (q, [])
      /\ components q
         = components (setFromAxisAngle that (Vector3.new 1 0 0) a))
  /\ (exists q : Quaternion,
        setFromEuler this (Object true (Euler.new 0 a 0 order)) update
        = Js.Normal (q, [])
        /\ components q
           = components (setFromAxisAngle that (Vector3.new 0 1 0) a))
  /\ (exists q : Quaternion,
        setFromEuler this (Object true (Euler.new 0 0 a order)) update
        = Js.Normal (q, [])
        /\ components q
           = components (setFromAxisAngle that (Vector3.new 0 0 1) a)).
Proof.
  intros Hin. simpl in Hin.
  unfold setFromEuler, setFromAxisAngle, negb, Euler.new.
  cbn [Euler._x Euler._y Euler._z Euler._order Vector3.new Vector3.x
       Vector3.y Vector3.z].
  rewrite cos_half_0, sin_half_0.
  destruct Hin as [<-|[<-|[<-|[<-|[<-|[<-|[]]]]]]]; simpl;
    destruct update as [[|]|];
    (split; [|split]); eexists; (split; [reflexivity|]);
    unfold components; cbn [_x _y _z _w _onChangeCallback assign];
    apply RealFacts.tuple4_eq; ring.
Qed.

Lemma XZY_known : In "XZY"%string Euler.RotationOrders.
Proof. simpl. tauto. Qed.

(** The order XZY and the angle 1/2; the first conjunct is the X axis. *)
Lemma setFromEuler_single_axis_witness :
  In "XZY"%string Euler.RotationOrders
  /\ exists q : Quaternion,
      setFromEuler (new 0 0 0 1)
        (Object true (Euler.new (1 / 2) 0 0 "XZY")) None
      = Js.Normal (q, [])
      /\ components q
         = components
             (setFromAxisAngle (new 0 0 0 1) (Vector3.new 1 0 0) (1 / 2)).
Proof.
  split; [exact XZY_known|].
  exact (proj1 (setFromEuler_single_axis (new 0 0 0 1) (new 0 0 0 1) (1 / 2)
                  "XZY"%string None XZY_known)).
Defined.

(** X15.  With a unit axis [setFromAxisAngle] leaves a unit quaternion, for
    every angle. *)
Theorem setFromAxisAngle_unit (this : Quaternion) (axis : Vector3.Vector3)
    (angle : R) :
  Vector3.dot axis axis = 1 ->
  lengthSq (setFromAxisAngle this axis angle) = 1.
Proof.
  unfold Vector3.dot, setFromAxisAngle, lengthSq.
  cbn [_x _y _z _w _onChangeCallback assign]. intros Haxis.
  pose proof (half_angle_unit angle) as Hh.
  set (s := sin (angle / 2)) in *. set (c := cos (angle / 2)) in *.
  transitivity ((Vector3.x axis * Vector3.x axis
                 + Vector3.y axis * Vector3.y axis
                 + Vector3.z axis * Vector3.z axis) * (s * s) + c * c).
  - ring.
  - rewrite Haxis. lra.
Qed.

Lemma axis_3_4_unit : Vector3.dot (Vector3.new (3 / 5) 0 (4 / 5))
                        (Vector3.new (3 / 5) 0 (4 / 5)) = 1.
Proof. unfold Vector3.dot; cbn. field. Qed.

(** The axis (3/5, 0, 4/5) and the angle 2. *)
Lemma setFromAxisAngle_unit_witness :
  Vector3.dot (Vector3.new (3 / 5) 0 (4 / 5)) (Vector3.new (3 / 5) 0 (4 / 5))
  = 1
  /\ lengthSq (setFromAxisAngle (new 0 0 0 1)
                 (Vector3.new (3 / 5) 0 (4 / 5)) 2) = 1.
Proof.
  split; [exact axis_3_4_unit|].
  exact (setFromAxisAngle_unit (new 0 0 0 1) (Vector3.new (3 / 5) 0 (4 / 5))
           2 axis_3_4_unit).
Defined.

End ConversionFacts.

(** ** Quaternion.setFromUnitVectors *)
Module UnitVectorsFacts.
Import Quaternion.

(** Rotating by a quaternion scaled by [k] scales the result by [k * k]. *)
Lemma rotate_scaled (n : nat) (k x y z w : R) (v : Vector3.Vector3) :
  rotate (mkQuaternion (x * k) (y * k) (z * k) (w * k) n) v
  = (let '(rx, ry, rz, rw) := rotate (mkQuaternion x y z w n) v in
     (k * k * rx, k * k * ry, k * k * rz, k * k * rw)).
Proof.
  unfold rotate, multiply, multiplyQuaternions, conjugate, clone, new,
    components; cbn.
  apply RealFacts.tuple4_eq; ring.
Qed.

(** The quaternion (a x b, 1 + a . b), not normalised, applied to a. *)
Lemma rotate_cross (n : nat) (a1 a2 a3 b1 b2 b3 : R) :
  let A := a1 * a1 + a2 * a2 + a3 * a3 in
  let B := b1 * b1 + b2 * b2 + b3 * b3 in
  let r := a1 * b1 + a2 * b2 + a3 * b3 + 1 in
  rotate (mkQuaternion (a2 * b3 - a3 * b2) (a3 * b1 - a1 * b3)
            (a1 * b2 - a2 * b1) r n)
    (Vector3.mkVector3 a1 a2 a3)
  = ((1 - A * B) * a1 + 2 * r * A * b1,
     (1 - A * B) * a2 + 2 * r * A * b2,
     (1 - A * B) * a3 + 2 * r * A * b3,
     0).
Proof.
  cbv zeta.
  unfold rotate, multiply, multiplyQuaternions, conjugate, clone, new,
    components; cbn.
  apply RealFacts.tuple4_eq; ring.
Qed.

(** X16.  For unit vectors that are not (nearly) opposite, the quaternion
    [setFromUnitVectors(vFrom, vTo)] leaves rotates [vFrom] onto [vTo]:
    q (vFrom, 0) conjugate(q) = (vTo, 0). *)
Theorem setFromUnitVectors_rotates (this : Quaternion)
    (vFrom vTo : Vector3.Vector3) :
  Vector3.dot vFrom vFrom = 1 ->
  Vector3.dot vTo vTo = 1 ->
  Js.EPSILON <= Vector3.dot vFrom vTo + 1 ->
  rotate (setFromUnitVectors this vFrom vTo) vFrom
  = (Vector3.x vTo, Vector3.y vTo, Vector3.z vTo, 0).
Proof.
  destruct vFrom as [a1 a2 a3], vTo as [b1 b2 b3].
  unfold Vector3.dot; cbn [Vector3.x Vector3.y Vector3.z].
  intros HA HB Hr. pose proof RealFacts.EPSILON_pos as Heps.
  unfold setFromUnitVectors, Vector3.dot.
  cbn [Vector3.x Vector3.y Vector3.z].
  set (r := a1 * b1 + a2 * b2 + a3 * b3 + 1) in *.
  destruct (Rlt_dec r Js.EPSILON) as [Hlt|_]; [lra|].
  unfold normalize, length, assign, _onChangeCallback. cbn [_x _y _z _w].
  assert (Hsq : (a2 * b3 - a3 * b2) * (a2 * b3 - a3 * b2)
                + (a3 * b1 - a1 * b3) * (a3 * b1 - a1 * b3)
                + (a1 * b2 - a2 * b1) * (a1 * b2 - a2 * b1) + r * r
                = 2 * r).
  { transitivity ((a1 * a1 + a2 * a2 + a3 * a3)
                  * (b1 * b1 + b2 * b2 + b3 * b3) - 1 + 2 * r).
    - unfold r. ring.
    - rewrite HA, HB. ring. }
  rewrite Hsq.
  set (l := sqrt (2 * r)).
  assert (Hl : l * l = 2 * r) by (apply sqrt_sqrt; lra).
  assert (Hlpos : 0 < l) by (apply sqrt_lt_R0; lra).
  destruct (Req_dec_T l 0) as [E|_]; [lra|].
  cbn [_x _y _z _w changes].
  rewrite rotate_scaled.
  pose proof (rotate_cross (S (changes this)) a1 a2 a3 b1 b2 b3) as Hrot.
  cbv zeta in Hrot. fold r in Hrot. rewrite Hrot, HA, HB.
  assert (Hk : 1 / l * (1 / l) * (2 * r) = 1) by (rewrite <- Hl; field; lra).
  set (k2 := 1 / l * (1 / l)) in *. cbv iota beta.
  apply RealFacts.tuple4_eq.
  - replace (k2 * ((1 - 1 * 1) * a1 + 2 * r * 1 * b1))
      with (k2 * (2 * r) * b1) by ring.
    rewrite Hk. ring.
  - replace (k2 * ((1 - 1 * 1) * a2 + 2 * r * 1 * b2))
      with (k2 * (2 * r) * b2) by ring.
    rewrite Hk. ring.
  - replace (k2 * ((1 - 1 * 1) * a3 + 2 * r * 1 * b3))
      with (k2 * (2 * r) * b3) by ring.
    rewrite Hk. ring.
  - ring.
Qed.

Lemma x_axis_unit : Vector3.dot (Vector3.new 1 0 0) (Vector3.new 1 0 0) = 1.
Proof. unfold Vector3.dot; cbn. ring. Qed.

Lemma y_axis_unit : Vector3.dot (Vector3.new 0 1 0) (Vector3.new 0 1 0) = 1.
Proof. unfold Vector3.dot; cbn. ring. Qed.

Lemma x_y_not_opposite :
  Js.EPSILON <= Vector3.dot (Vector3.new 1 0 0) (Vector3.new 0 1 0) + 1.
Proof.
  unfold Vector3.dot; cbn. pose proof RealFacts.EPSILON_lt_1. lra.
Qed.

(** From the X axis to the Y axis. *)
Lemma setFromUnitVectors_rotates_witness :
  Vector3.dot (Vector3.new 1 0 0) (Vector3.new 1 0 0) = 1
  /\ Vector3.dot (Vector3.new 0 1 0) (Vector3.new 0 1 0) = 1
  /\ Js.EPSILON <= Vector3.dot (Vector3.new 1 0 0) (Vector3.new 0 1 0) + 1
  /\ rotate (setFromUnitVectors (new 0 0 0 1) (Vector3.new 1 0 0)
               (Vector3.new 0 1 0)) (Vector3.new 1 0 0)
     = (0, 1, 0, 0).
Proof.
  split; [exact x_axis_unit|]. split; [exact y_axis_unit|].
  split; [exact x_y_not_opposite|].
  exact (setFromUnitVectors_rotates (new 0 0 0 1) (Vector3.new 1 0 0)
           (Vector3.new 0 1 0) x_axis_unit y_axis_unit x_y_not_opposite).
Defined.

(** A quaternion (u, 0) with u orthogonal to a, not normalised, applied
    to a. *)
Lemma rotate_half_turn (n : nat) (u1 u2 u3 a1 a2 a3 : R) :
  u1 * a1 + u2 * a2 + u3 * a3 = 0 ->
  rotate (mkQuaternion u1 u2 u3 0 n) (Vector3.mkVector3 a1 a2 a3)
  = (- (u1 * u1 + u2 * u2 + u3 * u3) * a1,
     - (u1 * u1 + u2 * u2 + u3 * u3) * a2,
     - (u1 * u1 + u2 * u2 + u3 * u3) * a3,
     0).
Proof.
  intros Horth.
  unfold rotate, multiply, multiplyQuaternions, conjugate, clone, new,
    components; cbn.
  apply RealFacts.tuple4_eq.
  - transitivity (- (u1 * u1 + u2 * u2 + u3 * u3) * a1
                  + 2 * u1 * (u1 * a1 + u2 * a2 + u3 * a3)); [ring|].
    rewrite Horth. ring.
  - transitivity (- (u1 * u1 + u2 * u2 + u3 * u3) * a2
                  + 2 * u2 * (u1 * a1 + u2 * a2 + u3 * a3)); [ring|].
    rewrite Horth. ring.
  - transitivity (- (u1 * u1 + u2 * u2 + u3 * u3) * a3
                  + 2 * u3 * (u1 * a1 + u2 * a2 + u3 * a3)); [ring|].
    rewrite Horth. ring.
  - transitivity (0 * (u1 * a1 + u2 * a2 + u3 * a3)); [ring|]. ring.
Qed.

(** The fallback of [setFromUnitVectors] on a non-zero axis (u, 0)
    orthogonal to a: a unit quaternion with w = 0 that sends a to -a. *)
Lemma half_turn_normalized (this : Quaternion) (u1 u2 u3 a1 a2 a3 : R) :
  u1 * a1 + u2 * a2 + u3 * a3 = 0 ->
  0 < u1 * u1 + u2 * u2 + u3 * u3 ->
  _w (normalize (assign this u1 u2 u3 0)) = 0
  /\ rotate (normalize (assign this u1 u2 u3 0)) (Vector3.mkVector3 a1 a2 a3)
     = (- a1, - a2, - a3, 0).
Proof.
  intros Horth Hpos.
  unfold normalize, length, assign, _onChangeCallback. cbn [_x _y _z _w].
  replace (u1 * u1 + u2 * u2 + u3 * u3 + 0 * 0)
    with (u1 * u1 + u2 * u2 + u3 * u3) by ring.
  set (U := u1 * u1 + u2 * u2 + u3 * u3) in *.
  set (l := sqrt U).
  assert (Hl : l * l = U) by (apply sqrt_sqrt; lra).
  assert (Hlpos : 0 < l) by (apply sqrt_lt_R0; lra).
  destruct (Req_dec_T l 0) as [E|_]; [lra|].
  cbn [_x _y _z _w changes]. split; [ring|].
  rewrite rotate_scaled, (rotate_half_turn _ u1 u2 u3 a1 a2 a3 Horth).
  fold U. cbv iota beta.
  assert (Hk : 1 / l * (1 / l) * U = 1) by (rewrite <- Hl; field; lra).
  set (k2 := 1 / l * (1 / l)) in *.
  apply RealFacts.tuple4_eq.
  - replace (k2 * (- U * a1)) with (- (k2 * U) * a1) by ring.
    rewrite Hk. ring.
  - replace (k2 * (- U * a2)) with (- (k2 * U) * a2) by ring.
    rewrite Hk. ring.
  - replace (k2 * (- U * a3)) with (- (k2 * U) * a3) by ring.
    rewrite Hk. ring.
  - ring.
Qed.

(** X17.  When the two vectors are (nearly) opposite, [dot + 1 < EPSILON],
    [setFromUnitVectors] leaves a half turn about an axis orthogonal to
    [vFrom]: w is 0 and the rotation sends [vFrom] to [- vFrom].  The axis
    chosen is never the zero vector, so the guard of [normalize] is not
    reached. *)
Theorem setFromUnitVectors_opposite (this : Quaternion)
    (vFrom vTo : Vector3.Vector3) :
  Vector3.dot vFrom vTo + 1 < Js.EPSILON ->
  _w (setFromUnitVectors this vFrom vTo) = 0
  /\ rotate (setFromUnitVectors this vFrom vTo) vFrom
     = (- Vector3.x vFrom, - Vector3.y vFrom, - Vector3.z vFrom, 0).
Proof.
  destruct vFrom as [a1 a2 a3], vTo as [b1 b2 b3].
  unfold setFromUnitVectors, Vector3.dot.
  cbn [Vector3.x Vector3.y Vector3.z]. intros Hr.
  pose proof RealFacts.EPSILON_lt_1 as Heps.
  destruct (Rlt_dec (a1 * b1 + a2 * b2 + a3 * b3 + 1) Js.EPSILON)
    as [_|Hn]; [|now elim Hn].
  destruct (Rgt_dec (Rabs a1) (Rabs a3)) as [Hgt|Hle].
  - apply half_turn_normalized; [ring|].
    assert (a1 <> 0).
    { intros ->. rewrite Rabs_R0 in Hgt. pose proof (Rabs_pos a3). lra. }
    nra.
  - apply half_turn_normalized; [ring|].
    destruct (Req_dec_T a3 0) as [Ha3|Ha3]; [|nra].
    destruct (Req_dec_T a2 0) as [Ha2|Ha2]; [|nra].
    exfalso. subst a2 a3. rewrite Rabs_R0 in Hle.
    assert (a1 = 0).
    { destruct (Req_dec_T a1 0) as [E|E]; [exact E|].
      apply Rabs_pos_lt in E. lra. }
    subst a1. lra.
Qed.

Lemma x_opposite :
  Vector3.dot (Vector3.new 1 0 0) (Vector3.new (-1) 0 0) + 1 < Js.EPSILON.
Proof.
  unfold Vector3.dot; cbn. pose proof RealFacts.EPSILON_pos. lra.
Qed.

(** From the X axis to its opposite. *)
Lemma setFromUnitVectors_opposite_witness :
  Vector3.dot (Vector3.new 1 0 0) (Vector3.new (-1) 0 0) + 1 < Js.EPSILON
  /\ _w (setFromUnitVectors (new 0 0 0 1) (Vector3.new 1 0 0)
            (Vector3.new (-1) 0 0)) = 0
  /\ rotate (setFromUnitVectors (new 0 0 0 1) (Vector3.new 1 0 0)
               (Vector3.new (-1) 0 0)) (Vector3.new 1 0 0)
     = (- Vector3.x (Vector3.new 1 0 0), - Vector3.y (Vector3.new 1 0 0),
        - Vector3.z (Vector3.new 1 0 0), 0).
Proof.
  split; [exact x_opposite|].
  exact (setFromUnitVectors_opposite (new 0 0 0 1) (Vector3.new 1 0 0)
           (Vector3.new (-1) 0 0) x_opposite).
Defined.

(** X18.  [setFromUnitVectors] leaves a unit quaternion whatever the two
    vectors are, unit or not, the zero vector included: it ends with
    [normalize]. *)
Theorem setFromUnitVectors_unit (this : Quaternion)
    (vFrom vTo : Vector3.Vector3) :
  lengthSq (setFromUnitVectors this vFrom vTo) = 1.
Proof. unfold setFromUnitVectors. apply QuaternionAlgebra.normalize_unit. Qed.

End UnitVectorsFacts.

(** ** Quaternion.setFromRotationMatrix *)
Module FromMatrixFacts.
Import Quaternion.

Lemma sqrt_4_square_pos (v : R) : 0 < v -> sqrt (4 * (v * v)) = 2 * v.
Proof.
  intros Hv. replace (4 * (v * v)) with ((2 * v) * (2 * v)) by ring.
  apply sqrt_square. lra.
Qed.

Lemma sqrt_4_square_neg (v : R) : v < 0 -> sqrt (4 * (v * v)) = - (2 * v).
Proof.
  intros Hv. replace (4 * (v * v)) with ((- (2 * v)) * (- (2 * v))) by ring.
  apply sqrt_square. lra.
Qed.

(** X19.  [setFromRotationMatrix] inverts the passage from a unit quaternion
    to its rotation matrix, up to the sign: on the rotation matrix of a unit
    quaternion q it leaves q or -q (the same rotation), whichever of its
    four branches is taken, and no branch divides by 0. *)
Theorem setFromRotationMatrix_recovers (this q : Quaternion)
    (m : Matrix4.Matrix4) :
  lengthSq q = 1 ->
  rotation_of m q ->
  components (setFromRotationMatrix this m) = components q
  \/ components (setFromRotationMatrix this m) = components (opposite q).
Proof.
  destruct q as [x y z w n]. unfold lengthSq, rotation_of, opposite, new.
  cbn [_x _y _z _w]. cbv zeta.
  intros Hunit (H11 & H12 & H13 & H21 & H22 & H23 & H31 & H32 & H33).
  unfold setFromRotationMatrix, gt. cbv zeta.
  rewrite H11, H12, H13, H21, H22, H23, H31, H32, H33.
  unfold components, assign, _onChangeCallback. cbn [_x _y _z _w].
  replace 0.5 with (1 / 2) by lra. replace 0.25 with (1 / 4) by lra.
  replace 2.0 with 2 by lra. replace 1.0 with 1 by lra.
  destruct (Rgt_dec _ 0) as [Htr|Htr].
  - (* trace > 0: w is the pivot *)
    replace (1 - 2 * (y * y + z * z) + (1 - 2 * (x * x + z * z))
             + (1 - 2 * (x * x + y * y)) + 1)
      with (4 * (w * w)) by lra.
    assert (Hw : w <> 0) by nra.
    destruct (Rlt_dec 0 w) as [Hpos|Hneg].
    + left. rewrite sqrt_4_square_pos by exact Hpos.
      apply RealFacts.tuple4_eq; cbn [_x _y _z _w]; field; lra.
    + right. rewrite sqrt_4_square_neg by lra.
      apply RealFacts.tuple4_eq; cbn [_x _y _z _w]; field; lra.
  - destruct (Rgt_dec (1 - 2 * (y * y + z * z)) (1 - 2 * (x * x + z * z)))
      as [Hxy|Hxy];
      [destruct (Rgt_dec (1 - 2 * (y * y + z * z))
                   (1 - 2 * (x * x + y * y))) as [Hxz|Hxz]|];
      cbn [andb].
    + (* m11 is the largest: x is the pivot *)
      replace (1 + (1 - 2 * (y * y + z * z)) - (1 - 2 * (x * x + z * z))
               - (1 - 2 * (x * x + y * y)))
        with (4 * (x * x)) by lra.
      assert (Hx : x <> 0) by nra.
      destruct (Rlt_dec 0 x) as [Hpos|Hneg].
      * left. rewrite sqrt_4_square_pos by exact Hpos.
        apply RealFacts.tuple4_eq; cbn [_x _y _z _w]; field; lra.
      * right. rewrite sqrt_4_square_neg by lra.
        apply RealFacts.tuple4_eq; cbn [_x _y _z _w]; field; lra.
    + destruct (Rgt_dec (1 - 2 * (x * x + z * z)) (1 - 2 * (x * x + y * y)))
        as [Hyz|Hyz].
      * replace (1 + (1 - 2 * (x * x + z * z)) - (1 - 2 * (y * y + z * z))
                 - (1 - 2 * (x * x + y * y)))
          with (4 * (y * y)) by lra.
        assert (Hy : y <> 0) by nra.
        destruct (Rlt_dec 0 y) as [Hpos|Hneg].
        -- left. rewrite sqrt_4_square_pos by exact Hpos.
           apply RealFacts.tuple4_eq; cbn [_x _y _z _w]; field; lra.
        -- right. rewrite sqrt_4_square_neg by lra.
           apply RealFacts.tuple4_eq; cbn [_x _y _z _w]; field; lra.
      * replace (1 + (1 - 2 * (x * x + y * y)) - (1 - 2 * (y * y + z * z))
                 - (1 - 2 * (x * x + z * z)))
          with (4 * (z * z)) by lra.
        assert (Hz : z <> 0) by nra.
        destruct (Rlt_dec 0 z) as [Hpos|Hneg].
        -- left. rewrite sqrt_4_square_pos by exact Hpos.
           apply RealFacts.tuple4_eq; cbn [_x _y _z _w]; field; lra.
        -- right. rewrite sqrt_4_square_neg by lra.
           apply RealFacts.tuple4_eq; cbn [_x _y _z _w]; field; lra.
    + destruct (Rgt_dec (1 - 2 * (x * x + z * z)) (1 - 2 * (x * x + y * y)))
        as [Hyz|Hyz].
      * replace (1 + (1 - 2 * (x * x + z * z)) - (1 - 2 * (y * y + z * z))
                 - (1 - 2 * (x * x + y * y)))
          with (4 * (y * y)) by lra.
        assert (Hy : y <> 0) by nra.
        destruct (Rlt_dec 0 y) as [Hpos|Hneg].
        -- left. rewrite sqrt_4_square_pos by exact Hpos.
           apply RealFacts.tuple4_eq; cbn [_x _y _z _w]; field; lra.
        -- right. rewrite sqrt_4_square_neg by lra.
           apply RealFacts.tuple4_eq; cbn [_x _y _z _w]; field; lra.
      * replace (1 + (1 - 2 * (x * x + y * y)) - (1 - 2 * (y * y + z * z))
                 - (1 - 2 * (x * x + z * z)))
          with (4 * (z * z)) by lra.
        assert (Hz : z <> 0) by nra.
        destruct (Rlt_dec 0 z) as [Hpos|Hneg].
        -- left. rewrite sqrt_4_square_pos by exact Hpos.
           apply RealFacts.tuple4_eq; cbn [_x _y _z _w]; field; lra.
        -- right. rewrite sqrt_4_square_neg by lra.
           apply RealFacts.tuple4_eq; cbn [_x _y _z _w]; field; lra.
Qed.

Lemma rotationY_3_4_rotation :
  rotation_of Matrix4.rotationY_3_4 (new 0 (3 / 5) 0 (4 / 5)).
Proof.
  unfold rotation_of, Matrix4.te, Matrix4.rotationY_3_4; cbn.
  repeat split; field.
Qed.

(** The rotation about Y of the quaternion (0, 3/5, 0, 4/5). *)
Lemma setFromRotationMatrix_recovers_witness :
  lengthSq (new 0 (3 / 5) 0 (4 / 5)) = 1
  /\ rotation_of Matrix4.rotationY_3_4 (new 0 (3 / 5) 0 (4 / 5))
  /\ (components (setFromRotationMatrix (new 0 0 0 1) Matrix4.rotationY_3_4)
      = components (new 0 (3 / 5) 0 (4 / 5))
      \/ components (setFromRotationMatrix (new 0 0 0 1)
                       Matrix4.rotationY_3_4)
         = components (opposite (new 0 (3 / 5) 0 (4 / 5)))).
Proof.
  split; [exact (SlerpFlatFacts.lengthSq_3_4 0)|].
  split; [exact rotationY_3_4_rotation|].
  exact (setFromRotationMatrix_recovers (new 0 0 0 1)
           (new 0 (3 / 5) 0 (4 / 5)) Matrix4.rotationY_3_4
           (SlerpFlatFacts.lengthSq_3_4 0) rotationY_3_4_rotation).
Defined.

End FromMatrixFacts.

(** ** Euler: ranges of the angles, comparison, vectors *)
Module EulerUseFacts.
Import Euler.

(** [Math.atan2] answers in [-PI, PI]. *)
Lemma atan2_range (y x : R) : - PI <= Js.atan2 y x <= PI.
Proof.
  pose proof PI_RGT_0 as Hpi. unfold Js.atan2.
  pose proof (atan_bound (y / x)) as [Hlo Hhi].
  destruct (Rlt_dec 0 x) as [Hx|Hx]; [lra|].
  destruct (Rlt_dec x 0) as [Hx'|Hx'].
  - destruct (Rle_dec 0 y) as [Hy|Hy].
    + assert (Hq : y / x <= 0).
      { unfold Rdiv. pose proof (Rinv_lt_0_compat x Hx') as Hinv.
        replace (y * / x) with (- (y * (- / x))) by ring.
        assert (0 <= y * (- / x)) by (apply Rmult_le_pos; lra).
        lra. }
      assert (atan (y / x) <= 0).
      { destruct Hq as [Hq|Hq].
        - left. rewrite <- atan_0. apply atan_increasing. exact Hq.
        - rewrite Hq, atan_0. lra. }
      lra.
    + assert (Hq : 0 < y / x).
      { unfold Rdiv.
        replace (y * / x) with ((- y) * (- / x)) by ring.
        apply Rmult_lt_0_compat; [lra|].
        pose proof (Rinv_lt_0_compat x Hx'). lra. }
      assert (0 < atan (y / x))
        by (rewrite <- atan_0; apply atan_increasing; exact Hq).
      lra.
  - destruct (Rlt_dec 0 y); [lra|]. destruct (Rlt_dec y 0); lra.
Qed.

(** X20.  For each of the six orders the angles [setFromRotationMatrix]
    leaves are principal values: all three lie in [-PI, PI], and the middle
    angle of the order, the one taken from [asin], lies in
    [-PI/2, PI/2] -- y for XYZ and ZYX, x for YXZ and ZXY, z for YZX and
    XZY -- in the regular branch and in the gimbal-lock branch alike. *)
Theorem setFromRotationMatrix_ranges (this : Euler) (m : Matrix4.Matrix4)
    (o : string) (update : option bool) :
  In o RotationOrders ->
  let e := fst (setFromRotationMatrix this m (Some o) update) in
  (- PI <= _x e <= PI /\ - PI <= _y e <= PI /\ - PI <= _z e <= PI)
  /\ (o = "XYZ"%string \/ o = "ZYX"%string ->
      - (PI / 2) <= _y e <= PI / 2)
  /\ (o = "YXZ"%string \/ o = "ZXY"%string ->
      - (PI / 2) <= _x e <= PI / 2)
  /\ (o = "YZX"%string \/ o = "XZY"%string ->
      - (PI / 2) <= _z e <= PI / 2).
Proof.
  intros Hin. simpl in Hin. pose proof PI_RGT_0 as Hpi.
  assert (Ha : forall v,
            - PI <= asin v <= PI /\ - (PI / 2) <= asin v <= PI / 2)
    by (intros v; pose proof (asin_bound v); lra).
  assert (Hz : - PI <= 0 <= PI) by lra.
  destruct Hin as [<-|[<-|[<-|[<-|[<-|[<-|[]]]]]]];
    unfold setFromRotationMatrix; simpl;
    match goal with
    | |- context [Rlt_dec ?a ?b] => destruct (Rlt_dec a b)
    end;
    destruct update as [[|]|]; simpl;
    repeat match goal with
           | |- - PI <= Js.atan2 _ _ <= PI => apply atan2_range
           | |- - PI <= asin _ <= PI => apply Ha
           | |- - (PI / 2) <= asin _ <= PI / 2 => apply Ha
           | |- - PI <= 0 <= PI => exact Hz
           | |- _ \/ _ -> _ => intros [E|E]; try discriminate E
           | |- _ /\ _ => split
           end.
Qed.

Lemma XYZ_known : In "XYZ"%string RotationOrders.
Proof. simpl. tauto. Qed.

(** The rotation by +90 degrees about Y, in the order XYZ. *)
Lemma setFromRotationMatrix_ranges_witness :
  In "XYZ"%string RotationOrders
  /\ (- PI <= _x (fst (setFromRotationMatrix (new 0.1 0.2 0.3 "XYZ")
                         Matrix4.rotationY90 (Some "XYZ"%string) None)) <= PI
      /\ - PI <= _y (fst (setFromRotationMatrix (new 0.1 0.2 0.3 "XYZ")
                            Matrix4.rotationY90 (Some "XYZ"%string) None))
         <= PI
      /\ - PI <= _z (fst (setFromRotationMatrix (new 0.1 0.2 0.3 "XYZ")
                            Matrix4.rotationY90 (Some "XYZ"%string) None))
         <= PI).
Proof.
  split; [exact XYZ_known|].
  exact (proj1 (setFromRotationMatrix_ranges (new 0.1 0.2 0.3 "XYZ")
                  Matrix4.rotationY90 "XYZ"%string None XYZ_known)).
Defined.

(** X21.  [equals] holds exactly when the three angles and the order are
    equal; a [clone], and the target of [copy], are equal to their source. *)
Theorem equals_iff_fields (a b this : Euler) :
  (equals a b = true
   <-> (_x a, _y a, _z a, _order a) = (_x b, _y b, _z b, _order b))
  /\ equals (clone a) a = true
  /\ equals (copy this a) a = true.
Proof.
  assert (Hiff : forall a b : Euler,
            equals a b = true
            <-> (_x a, _y a, _z a, _order a) = (_x b, _y b, _z b, _order b)).
  { clear. intros a b. unfold equals. split.
    - intros H.
      destruct (Req_dec_T (_x b) (_x a)) as [->|]; [|discriminate].
      destruct (Req_dec_T (_y b) (_y a)) as [->|]; [|discriminate].
      destruct (Req_dec_T (_z b) (_z a)) as [->|]; [|discriminate].
      simpl in H. apply String.eqb_eq in H. rewrite H. reflexivity.
    - intros [= -> -> -> ->].
      destruct (Req_dec_T (_x b) (_x b)) as [_|N]; [|now elim N].
      destruct (Req_dec_T (_y b) (_y b)) as [_|N]; [|now elim N].
      destruct (Req_dec_T (_z b) (_z b)) as [_|N]; [|now elim N].
      simpl. apply String.eqb_refl. }
  split; [apply Hiff|]. split; apply Hiff; reflexivity.
Qed.

(** X22.  Through a vector and back: [setFromVector3] on the vector
    [toVector3] gives, with the order omitted or given as the empty string,
    leaves the three angles and the order as they were; the change hook runs
    once. *)
Theorem toVector3_setFromVector3 (this : Euler)
    (optionalResult : option Vector3.Vector3) :
  setFromVector3 this (toVector3 this optionalResult) None
  = _onChangeCallback this
  /\ setFromVector3 this (toVector3 this optionalResult) (Some ""%string)
     = _onChangeCallback this.
Proof.
  destruct this as [x y z o n].
  assert (Hself : (if Js.truthy o then o else o) = o)
    by (destruct (Js.truthy o); reflexivity).
  destruct optionalResult as [v|];
    unfold setFromVector3, toVector3, set, _onChangeCallback, Vector3.set,
      Vector3.new; cbn; rewrite Hself; split; reflexivity.
Qed.

End EulerUseFacts.

(** ** CubicInterpolant: knots, constants, buffer *)
Module CubicUseFacts.
Import CubicInterpolant.

(** [interpolate_] when the stencil is inside the table: it returns, every
    cell [i < stride] of the result holds the blend of the four stencil cells
    with the weights [basis], and the cells from [stride] on are as before. *)
Lemma interpolate__blend (this : CubicInterpolant) (i1 : Z) (t0 t t1 : R) :
  stencil_defined this i1 ->
  exists result : Js.array,
    interpolate_ this i1 t0 t t1 = Some result
    /\ (forall i : nat, (i < valueSize this)%nat ->
          exists vP v0 v1 vN : R,
            Js.getZ (sampleValues this) (_offsetPrev this + Z.of_nat i)%Z
            = Some vP
            /\ Js.getZ (sampleValues this)
                 (i1 * Z.of_nat (valueSize this) - Z.of_nat (valueSize this)
                  + Z.of_nat i)%Z = Some v0
            /\ Js.getZ (sampleValues this)
                 (i1 * Z.of_nat (valueSize this) + Z.of_nat i)%Z = Some v1
            /\ Js.getZ (sampleValues this) (_offsetNext this + Z.of_nat i)%Z
               = Some vN
            /\ Js.get result i
               = (let '(sP, s0, s1, sN) :=
                    basis (_weightPrev this) (_weightNext this)
                      ((t - t0) / (t1 - t0)) in
                  Some (sP * vP + s0 * v0 + s1 * v1 + sN * vN)))
    /\ (forall i : nat, (valueSize this <= i)%nat ->
          Js.get result i = Js.get (resultBuffer this) i).
Proof.
  intros Hdef. unfold interpolate_, basis. cbv zeta.
  set (stride := valueSize this) in *.
  set (values := sampleValues this) in *.
  match goal with
  | |- exists _, combine ?vs ?oP ?o0 ?o1 ?oN ?sP ?s0 ?s1 ?sN _ _ _ = _ /\ _ =>
    pose proof (CubicInterpolantFacts.combine_spec vs oP o0 o1 oN sP s0 s1 sN
                  stride 0 (resultBuffer this)) as Hspec;
    assert (Hblend : forall i, (i < stride)%nat ->
              exists vP v0 v1 vN : R,
                Js.getZ vs (oP + Z.of_nat i)%Z = Some vP
                /\ Js.getZ vs (o0 + Z.of_nat i)%Z = Some v0
                /\ Js.getZ vs (o1 + Z.of_nat i)%Z = Some v1
                /\ Js.getZ vs (oN + Z.of_nat i)%Z = Some vN
                /\ blend vs oP o0 o1 oN sP s0 s1 sN i
                   = Some (sP * vP + s0 * v0 + s1 * v1 + sN * vN))
  end.
  { intros i Hi. destruct (Hdef i Hi) as (HP & H0 & H1 & HN).
    fold stride values in HP, H0, H1, HN. unfold blend.
    destruct (Js.getZ values (_offsetPrev this + Z.of_nat i)) as [vP|];
      [|now elim HP].
    destruct (Js.getZ values
                (i1 * Z.of_nat stride - Z.of_nat stride + Z.of_nat i))
      as [v0|]; [|now elim H0].
    destruct (Js.getZ values (i1 * Z.of_nat stride + Z.of_nat i)) as [v1|];
      [|now elim H1].
    destruct (Js.getZ values (_offsetNext this + Z.of_nat i)) as [vN|];
      [|now elim HN].
    exists vP, v0, v1, vN. repeat split. }
  destruct Hspec as (r & Hr & Hget).
  { intros j Hj. destruct (Hblend j ltac:(lia)) as (? & ? & ? & ? & _ & _ & _ & _ & ->).
    discriminate. }
  exists r. split; [exact Hr|]. split.
  - intros i Hi. destruct (Hblend i Hi) as (vP & v0 & v1 & vN & HP & H0 & H1 & HN & Hb).
    exists vP, v0, v1, vN. repeat split; try assumption.
    rewrite Hget. destruct (Nat.ltb_spec i (0 + stride)); [|lia]. exact Hb.
  - intros i Hi. rewrite Hget.
    destruct (Nat.ltb_spec i (0 + stride)); [lia|]. reflexivity.
Qed.

(** X25.  [interpolate_] writes the cells [0 .. stride - 1] of the result
    buffer and no other: when the stencil is inside the table each of them
    holds a number afterwards, for every [t], and every cell from [stride]
    on is as it was. *)
Theorem interpolate__frame (this : CubicInterpolant) (i1 : Z) (t0 t t1 : R) :
  stencil_defined this i1 ->
  exists result : Js.array,
    interpolate_ this i1 t0 t t1 = Some result
    /\ (forall i : nat, (i < valueSize this)%nat -> Js.get result i <> None)
    /\ (forall i : nat, (valueSize this <= i)%nat ->
          Js.get result i = Js.get (resultBuffer this) i).
Proof.
  intros Hdef.
  destruct (interpolate__blend this i1 t0 t t1 Hdef) as (r & Hr & Hget & Hrest).
  exists r. split; [exact Hr|]. split; [|exact Hrest].
  intros i Hi.
  destruct (Hget i Hi) as (vP & v0 & v1 & vN & _ & _ & _ & _ & ->).
  destruct (basis _ _ _) as [[[sP s0] s1] sN]. discriminate.
Qed.

(** [three_samples] at t = 0.25 in its first interval. *)
Lemma interpolate__frame_witness :
  stencil_defined three_samples 1
  /\ exists result : Js.array,
      interpolate_ three_samples 1 0 0.25 1 = Some result
      /\ (forall i : nat, (i < valueSize three_samples)%nat ->
            Js.get result i <> None)
      /\ (forall i : nat, (valueSize three_samples <= i)%nat ->
            Js.get result i = Js.get (resultBuffer three_samples) i).
Proof.
  split; [exact CubicInterpolantFacts.three_samples_stencil|].
  exact (interpolate__frame three_samples 1 0 0.25 1
           CubicInterpolantFacts.three_samples_stencil).
Defined.





(** The Hermite blend of four points of a straight line, with the tangent
    weights [intervalChanged_] computes from their times, is the point of
    the line at [t]. *)
Lemma hermite_linear (a b tP t0 t1 tN t : R) :
  tP <> t0 -> t0 <> t1 -> t1 <> tN ->
  let '(sP, s0, s1, sN) :=
    basis ((t1 - t0) * 0.5 / (t0 - tP)) ((t1 - t0) * 0.5 / (tN - t1))
      ((t - t0) / (t1 - t0)) in
  sP * (a + b * tP) + s0 * (a + b * t0) + s1 * (a + b * t1)
  + sN * (a + b * tN)
  = a + b * t.
Proof.
  intros HP H01 HN. unfold basis. cbv zeta.
  replace 0.5 with (1 / 2) by lra. replace (-0.5) with (- (1 / 2)) by lra.
  replace 1.5 with (3 / 2) by lra. replace (-1.5) with (- (3 / 2)) by lra.
  field. repeat split; lra.
Qed.

(** X27.  With the default endings (ZeroCurvatureEnding at both ends) the
    cubic interpolant reproduces straight lines: when the positions are
    strictly increasing and every component of the samples lies on a line
    a + b t, then on every interval, the first and the last included,
    [intervalChanged_] followed by [interpolate_] gives a + b t for
    every [t]. *)
Theorem cubic_reproduces_lines
    (this : CubicInterpolant) (pp vs : list R) (a b : nat -> R)
    (k : nat) (t : R) :
  parameterPositions this = Js.dense pp ->
  sampleValues this = Js.dense vs ->
  List.length vs = (List.length pp * valueSize this)%nat ->
  endingStart (getSettings_ this) = ZeroCurvatureEnding ->
  endingEnd (getSettings_ this) = ZeroCurvatureEnding ->
  (forall j : nat, (S j < List.length pp)%nat ->
     nth j pp 0 < nth (S j) pp 0) ->
  (forall j i : nat, (j < List.length pp)%nat -> (i < valueSize this)%nat ->
     nth (j * valueSize this + i) vs 0 = a i + b i * nth j pp 0) ->
  (1 <= k < List.length pp)%nat ->
  exists (this' : CubicInterpolant) (result : Js.array),
    intervalChanged_ this (Z.of_nat k) (nth (k - 1) pp 0) (nth k pp 0)
    = Some this'
    /\ interpolate_ this' (Z.of_nat k) (nth (k - 1) pp 0) t (nth k pp 0)
       = Some result
    /\ forall i : nat, (i < valueSize this)%nat ->
         Js.get result i = Some (a i + b i * t).
Proof.
  intros Hpp Hvs Hlen Hstart Hend Hasc Hline Hk.
  set (N := List.length pp) in *. set (stride := valueSize this) in *.
  set (t0 := nth (k - 1) pp 0). set (t1 := nth k pp 0).
  assert (H01 : t0 < t1).
  { unfold t0, t1. replace k with (S (k - 1)) at 2 by lia.
    apply Hasc. lia. }
  (* the previous point of the stencil *)
  assert (HP : exists iP : nat,
            (iP < N)%nat /\ nth iP pp 0 <> t0
            /\ match Js.getZ (Js.dense pp) (Z.of_nat k - 2) with
               | Some tPrev => Some ((Z.of_nat k - 2)%Z, tPrev)
               | None => Some (Z.of_nat k, t1)
               end = Some (Z.of_nat iP, nth iP pp 0)).
  { destruct (le_lt_dec 2 k) as [H2|H2].
    - exists (k - 2)%nat.
      replace (Z.of_nat k - 2)%Z with (Z.of_nat (k - 2)) by lia.
      rewrite JsFacts.getZ_of_nat, JsFacts.get_dense by (fold N; lia).
      split; [lia|]. split; [|reflexivity].
      assert (nth (k - 2) pp 0 < t0); [|lra].
      unfold t0. replace (k - 1)%nat with (S (k - 2)) by lia.
      apply Hasc. fold N. lia.
    - assert (k = 1%nat) by lia. subst k. exists 1%nat.
      split; [lia|]. split; [fold t1; lra|reflexivity]. }
  (* the next point of the stencil *)
  assert (HN : exists iN : nat,
            (iN < N)%nat /\ nth iN pp 0 <> t1
            /\ match Js.getZ (Js.dense pp) (Z.of_nat k + 1) with
               | Some tNext => Some ((Z.of_nat k + 1)%Z, tNext)
               | None => Some ((Z.of_nat k - 1)%Z, t0)
               end = Some (Z.of_nat iN, nth iN pp 0)).
  { replace (Z.of_nat k + 1)%Z with (Z.of_nat (k + 1)) by lia.
    rewrite JsFacts.getZ_of_nat.
    destruct (le_lt_dec N (k + 1)) as [Hlast|Hin].
    - rewrite JsFacts.get_dense_none by (fold N; lia).
      exists (k - 1)%nat. split; [lia|]. split; [fold t0; lra|].
      replace (Z.of_nat k - 1)%Z with (Z.of_nat (k - 1)) by lia.
      reflexivity.
    - rewrite JsFacts.get_dense by (fold N; lia).
      exists (k + 1)%nat. split; [lia|]. split; [|reflexivity].
      assert (t1 < nth (k + 1) pp 0); [|lra].
      unfold t1. replace (k + 1)%nat with (S k) by lia.
      apply Hasc. fold N. lia. }
  destruct HP as (iP & HiP & HtP & EP). destruct HN as (iN & HiN & HtN & EN).
  set (this' := set_cache this
                  ((t1 - t0) * 0.5 / (t0 - nth iP pp 0))
                  ((t1 - t0) * 0.5 / (nth iN pp 0 - t1))
                  (Z.of_nat iP * Z.of_nat stride)%Z
                  (Z.of_nat iN * Z.of_nat stride)%Z).
  assert (Hch : intervalChanged_ this (Z.of_nat k) t0 t1 = Some this').
  { unfold intervalChanged_. cbv zeta. rewrite Hpp, Hstart, Hend.
    cbv beta iota. rewrite EP, EN.
    rewrite !JsFacts.quotient_some by lra. reflexivity. }
  (* reading a row of the table *)
  assert (Hrow : forall j i : nat, (j < N)%nat -> (i < stride)%nat ->
            Js.getZ (Js.dense vs)
              (Z.of_nat j * Z.of_nat stride + Z.of_nat i)%Z
            = Some (a i + b i * nth j pp 0)).
  { intros j i Hj Hi.
    replace (Z.of_nat j * Z.of_nat stride + Z.of_nat i)%Z
      with (Z.of_nat (j * stride + i)) by nia.
    rewrite JsFacts.getZ_of_nat, JsFacts.get_dense by (rewrite Hlen; nia).
    f_equal. apply Hline; assumption. }
  assert (Hrow0 : forall i : nat, (i < stride)%nat ->
            Js.getZ (Js.dense vs)
              (Z.of_nat k * Z.of_nat stride - Z.of_nat stride
               + Z.of_nat i)%Z
            = Some (a i + b i * t0)).
  { intros i Hi.
    replace (Z.of_nat k * Z.of_nat stride - Z.of_nat stride + Z.of_nat i)%Z
      with (Z.of_nat (k - 1) * Z.of_nat stride + Z.of_nat i)%Z by nia.
    apply Hrow; [lia|exact Hi]. }
  assert (Hdef : stencil_defined this' (Z.of_nat k)).
  { intros i Hi. cbv zeta. unfold this', set_cache in *.
    cbn [valueSize sampleValues _offsetPrev _offsetNext] in *.
    fold stride in Hi |- *. rewrite Hvs.
    rewrite (Hrow iP i HiP Hi), (Hrow0 i Hi), (Hrow k i ltac:(lia) Hi),
      (Hrow iN i HiN Hi).
    repeat split; discriminate. }
  destruct (interpolate__blend this' (Z.of_nat k) t0 t t1 Hdef)
    as (r & Hr & Hget & _).
  exists this', r. split; [exact Hch|]. split; [exact Hr|].
  intros i Hi.
  destruct (Hget i Hi) as (vP & v0 & v1 & vN & RP & R0 & R1 & RN & ->).
  unfold this', set_cache in RP, R0, R1, RN |- *.
  cbn [valueSize sampleValues _offsetPrev _offsetNext _weightPrev
       _weightNext] in RP, R0, R1, RN |- *.
  fold stride in RP, R0, R1, RN. rewrite Hvs in RP, R0, R1, RN.
  rewrite (Hrow iP i HiP Hi) in RP. rewrite (Hrow0 i Hi) in R0.
  rewrite (Hrow k i ltac:(lia) Hi) in R1. rewrite (Hrow iN i HiN Hi) in RN.
  injection RP as <-. injection R0 as <-. injection R1 as <-.
  injection RN as <-. fold t1.
  pose proof (hermite_linear (a i) (b i) (nth iP pp 0) t0 t1 (nth iN pp 0) t
                HtP ltac:(lra) ltac:(lra)) as Hlin.
  destruct (basis _ _ _) as [[[sP s0] s1] sN]. f_equal. exact Hlin.
Qed.

Lemma line_samples_ascending :
  forall j : nat, (S j < List.length [0; 1; 3; 4])%nat ->
    nth j [0; 1; 3; 4] 0 < nth (S j) [0; 1; 3; 4] 0.
Proof.
  intros j Hj. simpl in Hj.
  destruct j as [|[|[|j]]]; simpl; try lra. lia.
Qed.

Lemma line_samples_on_line :
  forall j i : nat, (j < List.length [0; 1; 3; 4])%nat ->
    (i < valueSize line_samples)%nat ->
    nth (j * valueSize line_samples + i) [5; 7; 11; 13] 0
    = (fun _ => 5) i + (fun _ => 2) i * nth j [0; 1; 3; 4] 0.
Proof.
  intros j i Hj Hi. simpl in Hj. change (valueSize line_samples) with 1%nat in *.
  destruct i as [|i]; [|lia].
  destruct j as [|[|[|[|j]]]]; simpl; try lra. lia.
Qed.

Lemma one_two_four : (1 <= 2 < List.length [0; 1; 3; 4])%nat.
Proof. simpl. lia. Qed.

(** [line_samples], the samples of 5 + 2 t at 0, 1, 3, 4: the middle
    interval at t = 2. *)
Lemma cubic_reproduces_lines_witness :
  (forall j : nat, (S j < List.length [0; 1; 3; 4])%nat ->
     nth j [0; 1; 3; 4] 0 < nth (S j) [0; 1; 3; 4] 0)
  /\ (1 <= 2 < List.length [0; 1; 3; 4])%nat
  /\ exists (this' : CubicInterpolant) (result : Js.array),
      intervalChanged_ line_samples (Z.of_nat 2)
        (nth (2 - 1) [0; 1; 3; 4] 0) (nth 2 [0; 1; 3; 4] 0) = Some this'
      /\ interpolate_ this' (Z.of_nat 2) (nth (2 - 1) [0; 1; 3; 4] 0) 2
           (nth 2 [0; 1; 3; 4] 0) = Some result
      /\ forall i : nat, (i < valueSize line_samples)%nat ->
           Js.get result i = Some ((fun _ => 5) i + (fun _ => 2) i * 2).
Proof.
  split; [exact line_samples_ascending|]. split; [exact one_two_four|].
  exact (cubic_reproduces_lines line_samples [0; 1; 3; 4] [5; 7; 11; 13]
           (fun _ => 5) (fun _ => 2) 2 2
           eq_refl eq_refl eq_refl eq_refl eq_refl
           line_samples_ascending line_samples_on_line one_two_four).
Defined.

End CubicUseFacts.

(** ** Quaternion.setFromEuler as a product of axis rotations *)
Module EulerProductFacts.
Import Quaternion.

(** X28.  [setFromEuler] is the product of the three rotations about the
    coordinate axes, taken in the order the order string spells: for XYZ it
    leaves qx qy qz, for YXZ qy qx qz, and so on, where qx, qy, qz are what
    [setFromAxisAngle] gives for the X, Y, Z axis and the angles x, y, z,
    and the product is [multiply]. *)
Theorem setFromEuler_is_product (this : Quaternion) (x y z : R)
    (update : option bool) :
  let qx := setFromAxisAngle (new 0 0 0 1) (Vector3.new 1 0 0) x in
  let qy := setFromAxisAngle (new 0 0 0 1) (Vector3.new 0 1 0) y in
  let qz := setFromAxisAngle (new 0 0 0 1) (Vector3.new 0 0 1) z in
  let result order :=
    match setFromEuler this (Object true (Euler.new x y z order)) update with
    | Js.Normal (q, _) => Some (components q)
    | Js.Throw _ => None
    end in
  result "XYZ"%string = Some (components (multiply (multiply qx qy) qz))
  /\ result "YXZ"%string = Some (components (multiply (multiply qy qx) qz))
  /\ result "ZXY"%string = Some (components (multiply (multiply qz qx) qy))
  /\ result "ZYX"%string = Some (components (multiply (multiply qz qy) qx))
  /\ result "YZX"%string = Some (components (multiply (multiply qy qz) qx))
  /\ result "XZY"%string = Some (components (multiply (multiply qx qz) qy)).
Proof.
  cbv zeta.
  unfold setFromEuler, setFromAxisAngle, multiply, multiplyQuaternions,
    negb, Euler.new, new.
  cbn [Euler._x Euler._y Euler._z Euler._order Vector3.new Vector3.x
       Vector3.y Vector3.z].
  repeat split; simpl; destruct update as [[|]|];
    unfold components; cbn [_x _y _z _w _onChangeCallback assign];
    f_equal; apply RealFacts.tuple4_eq; ring.
Qed.

End EulerProductFacts.

(** ** Euler angles through a quaternion and a rotation matrix *)
Module RoundTripFacts.
Import Quaternion.

(** The angle [Math.atan2] gives for a point in polar form has the sine and
    the cosine of the polar angle. *)
Lemma atan2_polar_same_angle (k x : R) :
  0 < k -> Euler.same_angle (Js.atan2 (k * sin x) (k * cos x)) x.
Proof.
  intros Hk. pose proof (sin2_cos2 x) as Hunit. unfold Rsqr in Hunit.
  unfold Euler.same_angle.
  remember (sin x) as s eqn:Es. remember (cos x) as c eqn:Ec.
  clear Es Ec.
  assert (Hq : forall d, d <> 0 -> k * s / (k * d) = s / d)
    by (intros; field; split; lra).
  assert (Hsqrt : c <> 0 -> sqrt (1 + (s / c)²) = / Rabs c).
  { intros Hc. replace (1 + (s / c)²) with ((/ Rabs c)²).
    - apply sqrt_Rsqr. left. apply Rinv_0_lt_compat, Rabs_pos_lt, Hc.
    - unfold Rsqr. rewrite <- Rinv_mult, <- Rabs_mult.
      rewrite (Rabs_pos_eq (c * c)) by nra.
      replace (1 + s / c * (s / c)) with ((s * s + c * c) / (c * c))
        by (field; exact Hc).
      rewrite Hunit. field. exact Hc. }
  unfold Js.atan2.
  destruct (Rlt_dec 0 (k * c)) as [Hpos|Hnpos].
  - assert (Hc : 0 < c) by nra.
    rewrite Hq by lra. rewrite cos_atan, sin_atan, Hsqrt by lra.
    rewrite (Rabs_pos_eq c) by lra. split; field; lra.
  - destruct (Rlt_dec (k * c) 0) as [Hneg|Hnneg].
    + assert (Hc : c < 0) by nra.
      assert (Habs : Rabs c = - c) by (apply Rabs_left; exact Hc).
      destruct (Rle_dec 0 (k * s)) as [Hs|Hs]; rewrite Hq by lra.
      * rewrite neg_cos, neg_sin, cos_atan, sin_atan, Hsqrt, Habs by lra.
        split; field; lra.
      * replace (atan (s / c) - PI) with (- (PI - atan (s / c))) by ring.
        rewrite cos_neg, sin_neg.
        replace (PI - atan (s / c)) with (- atan (s / c) + PI) by ring.
        rewrite neg_cos, neg_sin, cos_neg, sin_neg, cos_atan, sin_atan,
          Hsqrt, Habs by lra.
        split; field; lra.
    + assert (Hc : c = 0) by nra.
      assert (Hs2 : s * s = 1) by (rewrite Hc in Hunit; lra).
      destruct (Rlt_dec 0 (k * s)) as [Hs|Hs].
      * assert (s = 1) by nra. rewrite cos_PI2, sin_PI2. lra.
      * destruct (Rlt_dec (k * s) 0) as [Hs'|Hs'].
        -- assert (s = -1) by nra.
           rewrite cos_neg, sin_neg, cos_PI2, sin_PI2. lra.
        -- assert (s = 0) by nra. nra.
Qed.

(** Below the gimbal-lock threshold the cosine of the middle angle is
    positive. *)
Lemma middle_cos_pos (a : R) :
  - (PI / 2) <= a <= PI / 2 -> Rabs (sin a) < 0.9999999 -> 0 < cos a.
Proof.
  intros [Hlo Hhi] Hs.
  destruct (Req_dec_T a (PI / 2)) as [->|Hn1].
  { rewrite sin_PI2, Rabs_R1 in Hs. lra. }
  destruct (Req_dec_T a (- (PI / 2))) as [->|Hn2].
  { rewrite sin_neg, sin_PI2, Rabs_Ropp, Rabs_R1 in Hs. lra. }
  apply cos_gt_0; lra.
Qed.

(** Sine and cosine of an angle from those of its half. *)
Lemma double_angle (a : R) :
  sin a = 2 * sin (a / 2) * cos (a / 2)
  /\ cos a = cos (a / 2) * cos (a / 2) - sin (a / 2) * sin (a / 2)
  /\ cos (a / 2) * cos (a / 2) = 1 - sin (a / 2) * sin (a / 2).
Proof.
  repeat split.
  - replace a with (2 * (a / 2)) at 1 by field. rewrite sin_2a. ring.
  - replace a with (2 * (a / 2)) at 1 by field. rewrite cos_2a. ring.
  - pose proof (sin2_cos2 (a / 2)) as H. unfold Rsqr in H. lra.
Qed.

(** An element of the rotation matrix of [setFromEuler]'s quaternion, as a
    product of sines and cosines of the angles. *)
Ltac entry Hm :=
  rewrite Hm; cbn [_x _y _z _w assign _onChangeCallback];
  match goal with
  | Sx : sin ?x = _, Cx : cos ?x = _, Ex : cos (?x / 2) * _ = _,
    Sy : sin ?y = _, Cy : cos ?y = _, Ey : cos (?y / 2) * _ = _,
    Sz : sin ?z = _, Cz : cos ?z = _, Ez : cos (?z / 2) * _ = _ |- _ =>
    rewrite ?Sx, ?Cx, ?Sy, ?Cy, ?Sz, ?Cz; ring [Ex Ey Ez]
  end.

(** The regular branch of [Euler.setFromRotationMatrix] on such elements. *)
Ltac extract Hmid Hs E1 E2 E3 E4 E5 :=
  rewrite E1 in Hs; rewrite ?Rabs_Ropp in Hs;
  pose proof (middle_cos_pos _ Hmid Hs);
  unfold Euler.setFromRotationMatrix;
  cbn [Js.truthy String.eqb Ascii.eqb Bool.eqb negb String.length
       Euler._order];
  rewrite E1, E2, E3, E4, E5;
  rewrite ?RealFacts.clamp_opp, ?Ropp_involutive, ?Rabs_Ropp;
  rewrite RealFacts.clamp_inside by apply SIN_bound;
  match goal with
  | |- context [Rlt_dec ?a ?b] => destruct (Rlt_dec a b); [|contradiction]
  end;
  rewrite asin_sin by assumption;
  match goal with
  | |- context [match ?u with Some _ => _ | None => _ end] =>
    destruct u as [[|]|]
  end;
  cbv zeta; unfold Euler.asin_angle;
  cbn [fst Euler._onChangeCallback Euler.set_order Euler.set_x Euler.set_y
       Euler.set_z Euler._x Euler._y Euler._z Euler._order String.eqb
       Ascii.eqb Bool.eqb orb];
  repeat split;
  match goal with
  | Hk : 0 < ?k |- cos (Js.atan2 (?k * sin ?a) (?k * cos ?a)) = cos ?a =>
    exact (proj1 (atan2_polar_same_angle k a Hk))
  | Hk : 0 < ?k |- sin (Js.atan2 (?k * sin ?a) (?k * cos ?a)) = sin ?a =>
    exact (proj2 (atan2_polar_same_angle k a Hk))
  end.

(** X8.  Euler angles survive the trip through a quaternion and its rotation
    matrix, for each of the six orders.  When [q] is what
    [Quaternion.setFromEuler] makes of [e], the upper 3x3 block of [m] is the
    rotation matrix of [q], the angle of [e] that the order takes from
    [Math.asin] lies in [-PI/2, PI/2] and the element of [m] that
    [setFromRotationMatrix] tests passes its test [< 0.9999999], then
    [Euler.setFromRotationMatrix(m, e.order)] leaves that angle, the two
    other angles up to a multiple of 2 PI (the same sine and cosine), and
    the order of [e].  The two conversions use the same axis conventions. *)
Theorem setFromRotationMatrix_setFromEuler (e this : Euler.Euler)
    (q0 q : Quaternion) (warnings : list string) (m : Matrix4.Matrix4)
    (update update' : option bool) :
  In (Euler._order e) Euler.RotationOrders ->
  - (PI / 2) <= Euler.asin_angle e <= PI / 2 ->
  Rabs (Euler.asin_element (Euler._order e) m) < 0.9999999 ->
  setFromEuler q0 (Object true e) update = Js.Normal (q, warnings) ->
  rotation_of m q ->
  let r := fst (Euler.setFromRotationMatrix this m (Some (Euler._order e))
                  update') in
  Euler.asin_angle r = Euler.asin_angle e
  /\ Euler.same_angle (Euler._x r) (Euler._x e)
  /\ Euler.same_angle (Euler._y r) (Euler._y e)
  /\ Euler.same_angle (Euler._z r) (Euler._z e)
  /\ Euler._order r = Euler._order e.
Proof.
  destruct e as [x y z o n]. cbn [Euler._x Euler._y Euler._z Euler._order].
  intros Ho Hmid Hs Hq Hm.
  destruct (double_angle x) as (Sx & Cx & Ex).
  destruct (double_angle y) as (Sy & Cy & Ey).
  destruct (double_angle z) as (Sz & Cz & Ez).
  destruct Hm as (H0 & H4 & H8 & H1 & H5 & H9 & H2 & H6 & H10).
  unfold Euler.RotationOrders in Ho. cbn [In] in Ho.
  destruct Ho as [<-|[<-|[<-|[<-|[<-|[<-|[]]]]]]];
    unfold Euler.asin_angle in Hmid; unfold Euler.asin_element in Hs;
    cbn [Euler._order Euler._x Euler._y Euler._z String.eqb Ascii.eqb
         Bool.eqb orb] in Hmid, Hs;
    unfold setFromEuler in Hq;
    cbn [negb Euler._order Euler._x Euler._y Euler._z String.eqb Ascii.eqb
         Bool.eqb] in Hq;
    injection Hq as Hq _; subst q.
  - (* XYZ *)
    assert (E1 : Matrix4.te m 8 = sin y) by (destruct update as [[|]|]; entry H8).
    assert (E2 : Matrix4.te m 9 = - (cos y * sin x)) by (destruct update as [[|]|]; entry H9).
    assert (E3 : Matrix4.te m 10 = cos y * cos x) by (destruct update as [[|]|]; entry H10).
    assert (E4 : Matrix4.te m 4 = - (cos y * sin z)) by (destruct update as [[|]|]; entry H4).
    assert (E5 : Matrix4.te m 0 = cos y * cos z) by (destruct update as [[|]|]; entry H0).
    extract Hmid Hs E1 E2 E3 E4 E5.
  - (* YZX *)
    assert (E1 : Matrix4.te m 1 = sin z) by (destruct update as [[|]|]; entry H1).
    assert (E2 : Matrix4.te m 9 = - (cos z * sin x)) by (destruct update as [[|]|]; entry H9).
    assert (E3 : Matrix4.te m 5 = cos z * cos x) by (destruct update as [[|]|]; entry H5).
    assert (E4 : Matrix4.te m 2 = - (cos z * sin y)) by (destruct update as [[|]|]; entry H2).
    assert (E5 : Matrix4.te m 0 = cos z * cos y) by (destruct update as [[|]|]; entry H0).
    extract Hmid Hs E1 E2 E3 E4 E5.
  - (* ZXY *)
    assert (E1 : Matrix4.te m 6 = sin x) by (destruct update as [[|]|]; entry H6).
    assert (E2 : Matrix4.te m 2 = - (cos x * sin y)) by (destruct update as [[|]|]; entry H2).
    assert (E3 : Matrix4.te m 10 = cos x * cos y) by (destruct update as [[|]|]; entry H10).
    assert (E4 : Matrix4.te m 4 = - (cos x * sin z)) by (destruct update as [[|]|]; entry H4).
    assert (E5 : Matrix4.te m 5 = cos x * cos z) by (destruct update as [[|]|]; entry H5).
    extract Hmid Hs E1 E2 E3 E4 E5.
  - (* XZY *)
    assert (E1 : Matrix4.te m 4 = - sin z) by (destruct update as [[|]|]; entry H4).
    assert (E2 : Matrix4.te m 6 = cos z * sin x) by (destruct update as [[|]|]; entry H6).
    assert (E3 : Matrix4.te m 5 = cos z * cos x) by (destruct update as [[|]|]; entry H5).
    assert (E4 : Matrix4.te m 8 = cos z * sin y) by (destruct update as [[|]|]; entry H8).
    assert (E5 : Matrix4.te m 0 = cos z * cos y) by (destruct update as [[|]|]; entry H0).
    extract Hmid Hs E1 E2 E3 E4 E5.
  - (* YXZ *)
    assert (E1 : Matrix4.te m 9 = - sin x) by (destruct update as [[|]|]; entry H9).
    assert (E2 : Matrix4.te m 8 = cos x * sin y) by (destruct update as [[|]|]; entry H8).
    assert (E3 : Matrix4.te m 10 = cos x * cos y) by (destruct update as [[|]|]; entry H10).
    assert (E4 : Matrix4.te m 1 = cos x * sin z) by (destruct update as [[|]|]; entry H1).
    assert (E5 : Matrix4.te m 5 = cos x * cos z) by (destruct update as [[|]|]; entry H5).
    extract Hmid Hs E1 E2 E3 E4 E5.
  - (* ZYX *)
    assert (E1 : Matrix4.te m 2 = - sin y) by (destruct update as [[|]|]; entry H2).
    assert (E2 : Matrix4.te m 6 = cos y * sin x) by (destruct update as [[|]|]; entry H6).
    assert (E3 : Matrix4.te m 10 = cos y * cos x) by (destruct update as [[|]|]; entry H10).
    assert (E4 : Matrix4.te m 1 = cos y * sin z) by (destruct update as [[|]|]; entry H1).
    assert (E5 : Matrix4.te m 0 = cos y * cos z) by (destruct update as [[|]|]; entry H0).
    extract Hmid Hs E1 E2 E3 E4 E5.
Qed.

(** The half turn about X, that is the angles (PI, 0, 0) in the order XYZ:
    the angle x comes back up to a multiple of 2 PI. *)
Lemma setFromRotationMatrix_setFromEuler_witness :
  let r := fst (Euler.setFromRotationMatrix (Euler.new 0 0 0 "ZYX")
                  Matrix4.rotationX180 (Some "XYZ"%string) None) in
  Euler.asin_angle r = 0
  /\ Euler.same_angle (Euler._x r) PI
  /\ Euler.same_angle (Euler._y r) 0
  /\ Euler.same_angle (Euler._z r) 0
  /\ Euler._order r = "XYZ"%string.
Proof.
  apply (setFromRotationMatrix_setFromEuler
           (Euler.new PI 0 0 "XYZ") (Euler.new 0 0 0 "ZYX") (new 0 0 0 1)
           (mkQuaternion 1 0 0 0 1) [] Matrix4.rotationX180 None None).
  - left; reflexivity.
  - unfold Euler.asin_angle. cbn. pose proof PI_RGT_0. lra.
  - unfold Euler.asin_element, Matrix4.te. cbn. rewrite Rabs_R0. lra.
  - unfold setFromEuler. cbn.
    replace (0 / 2) with 0 by field.
    rewrite cos_PI2, sin_PI2, cos_0, sin_0.
    do 2 f_equal. unfold assign, _onChangeCallback. cbn. f_equal; ring.
  - unfold rotation_of, Matrix4.te. cbn. repeat split; ring.
Defined.

End RoundTripFacts.

(** ** CubicInterpolant: the tangents of the curve *)
Module TangentFacts.
Import CubicInterpolant.

(** A derivative depends on the values of the function only. *)
Lemma derivable_pt_lim_ext (f g : R -> R) (x l l' : R) :
  (forall t, f t = g t) -> l = l' ->
  derivable_pt_lim f x l -> derivable_pt_lim g x l'.
Proof.
  intros E <- H eps Heps. destruct (H eps Heps) as [delta Hd].
  exists delta. intros h Hh Hlt. rewrite <- !E. now apply Hd.
Qed.

(** The derivative of a cubic in [p = (t - t0) / d]. *)
Lemma cubic_derivative (a0 a1 a2 a3 t0 d x : R) :
  d <> 0 ->
  derivable_pt_lim
    (fun t => let p := (t - t0) / d in
              a0 + a1 * p + a2 * (p * p) + a3 * (p * p * p))
    x
    (let p := (x - t0) / d in (a1 + 2 * a2 * p + 3 * a3 * (p * p)) / d).
Proof.
  intros Hd. cbv zeta.
  set (P := ((id - fct_cte t0) * fct_cte (/ d))%F).
  assert (HP : derivable_pt_lim P x (/ d)).
  { apply derivable_pt_lim_ext
      with (f := P) (l := (1 - 0) * fct_cte (/ d) x + (id - fct_cte t0)%F x * 0).
    - reflexivity.
    - unfold fct_cte. ring.
    - apply derivable_pt_lim_mult.
      + apply derivable_pt_lim_minus;
          [apply derivable_pt_lim_id|apply derivable_pt_lim_const].
      + apply derivable_pt_lim_const. }
  assert (HP2 : derivable_pt_lim (P * P)%F x (/ d * P x + P x * / d))
    by (apply derivable_pt_lim_mult; exact HP).
  assert (HP3 : derivable_pt_lim (P * P * P)%F x
                  ((/ d * P x + P x * / d) * P x + (P * P)%F x * / d))
    by (apply derivable_pt_lim_mult; assumption).
  apply derivable_pt_lim_ext
    with (f := (fct_cte a0 + mult_real_fct a1 P + mult_real_fct a2 (P * P)
                + mult_real_fct a3 (P * P * P))%F)
         (l := 0 + a1 * / d + a2 * (/ d * P x + P x * / d)
               + a3 * ((/ d * P x + P x * / d) * P x + (P * P)%F x * / d)).
  - intros t. unfold P, plus_fct, mult_fct, minus_fct, mult_real_fct,
      fct_cte, id. unfold Rdiv. ring.
  - unfold P, plus_fct, mult_fct, minus_fct, mult_real_fct, fct_cte, id.
    unfold Rdiv. ring.
  - repeat apply derivable_pt_lim_plus;
      try (apply derivable_pt_lim_scal; assumption).
    apply derivable_pt_lim_const.
Qed.

(** The curve of one interval is a cubic in [p = (t - t0) / (t1 - t0)], and
    the cached weights fix its tangents at the two ends. *)
Lemma curve_tangents (this : CubicInterpolant) (i1 : Z) (t0 t1 : R)
    (i : nat) (vP v0 v1 vN : R) :
  t0 <> t1 ->
  stencil_defined this i1 ->
  (i < valueSize this)%nat ->
  Js.getZ (sampleValues this) (_offsetPrev this + Z.of_nat i)%Z = Some vP ->
  Js.getZ (sampleValues this)
    (i1 * Z.of_nat (valueSize this) - Z.of_nat (valueSize this)
     + Z.of_nat i)%Z = Some v0 ->
  Js.getZ (sampleValues this) (i1 * Z.of_nat (valueSize this) + Z.of_nat i)%Z
  = Some v1 ->
  Js.getZ (sampleValues this) (_offsetNext this + Z.of_nat i)%Z = Some vN ->
  derivable_pt_lim (curve this i1 t0 t1 i) t0
    ((_weightPrev this * (v0 - vP) + (v1 - v0) / 2) / (t1 - t0))
  /\ derivable_pt_lim (curve this i1 t0 t1 i) t1
       (((v1 - v0) / 2 + _weightNext this * (vN - v1)) / (t1 - t0)).
Proof.
  intros Hne Hdef Hi HP H0 H1 HN.
  set (wP := _weightPrev this). set (wN := _weightNext this).
  set (a1 := - wP * vP + (- (1 / 2) + wP) * v0 + 1 / 2 * v1).
  set (a2 := 2 * wP * vP + (- (3 / 2) - 2 * wP) * v0 + (3 / 2 + wN) * v1
             - wN * vN).
  set (a3 := - wP * vP + (1 + wP) * v0 + (-1 - wN) * v1 + wN * vN).
  assert (Hcurve : forall t,
            (let p := (t - t0) / (t1 - t0) in
             v0 + a1 * p + a2 * (p * p) + a3 * (p * p * p))
            = curve this i1 t0 t1 i t).
  { intros t. unfold curve.
    destruct (CubicUseFacts.interpolate__blend this i1 t0 t t1 Hdef)
      as (result & -> & Hcells & _).
    destruct (Hcells i Hi) as (vP' & v0' & v1' & vN' & EP & E0 & E1 & EN & ->).
    rewrite HP in EP. rewrite H0 in E0. rewrite H1 in E1. rewrite HN in EN.
    injection EP as <-. injection E0 as <-. injection E1 as <-.
    injection EN as <-.
    unfold basis. cbv zeta. unfold a1, a2, a3. fold wP wN.
    replace 0.5 with (1 / 2) by lra. replace (-0.5) with (- (1 / 2)) by lra.
    replace 1.5 with (3 / 2) by lra. replace (-1.5) with (- (3 / 2)) by lra.
    ring. }
  assert (Hd : t1 - t0 <> 0) by lra.
  split.
  - apply derivable_pt_lim_ext with (2 := eq_refl) (1 := Hcurve).
    eapply derivable_pt_lim_ext;
      [reflexivity| |apply (cubic_derivative v0 a1 a2 a3 t0 (t1 - t0) t0 Hd)].
    cbv zeta. unfold a1. field. exact Hd.
  - apply derivable_pt_lim_ext with (2 := eq_refl) (1 := Hcurve).
    eapply derivable_pt_lim_ext;
      [reflexivity| |apply (cubic_derivative v0 a1 a2 a3 t0 (t1 - t0) t1 Hd)].
    cbv zeta. unfold a1, a2, a3. field. exact Hd.
Qed.



(** *** The first and the last interval *)
Section Table.
Variables (this : CubicInterpolant) (pp vs : list R) (i : nat).
Hypothesis Hpp : parameterPositions this = Js.dense pp.
Hypothesis Hvs : sampleValues this = Js.dense vs.
Hypothesis Hlen : List.length vs = (List.length pp * valueSize this)%nat.
Hypothesis Hasc : forall j : nat, (S j < List.length pp)%nat ->
  nth j pp 0 < nth (S j) pp 0.
Hypothesis HN : (2 <= List.length pp)%nat.
Hypothesis Hi : (i < valueSize this)%nat.

Let N := List.length pp.
Let t (j : nat) := nth j pp 0.
Let v (j : nat) := nth (j * valueSize this + i) vs 0.
Let slope (j : nat) := (v (S j) - v j) / (t (S j) - t j).

(** Row [j] of the sample table, component [i]. *)
Lemma table_row (this' : CubicInterpolant) (j : nat) :
  sampleValues this' = sampleValues this -> (j < N)%nat ->
  Js.getZ (sampleValues this')
    (Z.of_nat j * Z.of_nat (valueSize this) + Z.of_nat i)
  = Some (v j).
Proof.
  intros Hsv Hj. rewrite Hsv, Hvs.
  replace (Z.of_nat j * Z.of_nat (valueSize this) + Z.of_nat i)%Z
    with (Z.of_nat (j * valueSize this + i)) by lia.
  rewrite JsFacts.getZ_of_nat, JsFacts.get_dense; [reflexivity|].
  rewrite Hlen. fold N. nia.
Qed.

Lemma table_position (j : nat) :
  (j < N)%nat -> Js.getZ (Js.dense pp) (Z.of_nat j) = Some (t j).
Proof.
  intros Hj. rewrite JsFacts.getZ_of_nat. now apply JsFacts.get_dense.
Qed.

(** The tangent at the first sample, by the ending mode at the start. *)
Lemma start_tangent :
  exists this' : CubicInterpolant,
    intervalChanged_ this 1 (t 0%nat) (t 1%nat) = Some this'
    /\ derivable_pt_lim (curve this' 1 (t 0%nat) (t 1%nat) i) (t 0%nat)
         match endingStart (getSettings_ this) with
         | ZeroSlopeEnding => 0
         | ZeroCurvatureEnding => slope 0%nat
         | WrapAroundEnding =>
           ((v 0%nat - v (N - 2)%nat) / (t (N - 1)%nat - t (N - 2)%nat)
            + slope 0%nat) / 2
         end.
Proof.
  assert (H01 : t 0%nat < t 1%nat) by (apply Hasc; lia).
  assert (Hlast : t (N - 2)%nat < t (N - 1)%nat).
  { unfold t. replace (N - 1)%nat with (S (N - 2)) by (unfold N; lia).
    apply Hasc. lia. }
  destruct (CubicInterpolantFacts.intervalChanged__stencil_defined
              this pp vs 1%nat Hpp Hvs Hlen Hasc ltac:(lia))
    as (this' & Hch & Hsv & Hsz & _ & Hdef).
  change (intervalChanged_ this 1 (t 0%nat) (t 1%nat) = Some this') in Hch.
  exists this'. split; [exact Hch|].
  assert (Hcache : exists iP : nat,
            (iP < N)%nat
            /\ _offsetPrev this' = (Z.of_nat iP * Z.of_nat (valueSize this))%Z
            /\ (_weightPrev this' * (v 0%nat - v iP)
                + (v 1%nat - v 0%nat) / 2) / (t 1%nat - t 0%nat)
               = match endingStart (getSettings_ this) with
                 | ZeroSlopeEnding => 0
                 | ZeroCurvatureEnding => slope 0%nat
                 | WrapAroundEnding =>
                   ((v 0%nat - v (N - 2)%nat)
                      / (t (N - 1)%nat - t (N - 2)%nat)
                    + slope 0%nat) / 2
                 end).
  { revert Hch. unfold intervalChanged_. cbv zeta. rewrite Hpp.
    change (1 - 2)%Z with (-1)%Z. change (Js.getZ (Js.dense pp) (-1)) with (@None R).
    replace (Z.of_nat (List.length (Js.dense pp))) with (Z.of_nat N)
      by (unfold N, Js.dense; now rewrite length_map).
    replace (Z.of_nat N - 2)%Z with (Z.of_nat (N - 2)) by (unfold N; lia).
    replace (Z.of_nat (N - 2) + 1)%Z with (Z.of_nat (N - 1)) by (unfold N; lia).
    rewrite !table_position by (unfold N; lia).
    destruct (endingStart (getSettings_ this)); cbv iota beta;
      match goal with
      | |- context [match ?e with Some _ => _ | None => None end] =>
        destruct e as [[iN tN]|]; [|discriminate]
      end;
      match goal with
      | |- match Js.quotient ?a ?b with _ => _ end = _ -> _ =>
        rewrite (JsFacts.quotient_some a b) by lra
      end;
      match goal with
      | |- match Js.quotient ?a ?b with _ => _ end = _ -> _ =>
        destruct (Js.quotient a b) as [wN|]; [|discriminate]
      end;
      intros [= <-]; cbn [_offsetPrev _weightPrev set_cache].
    - exists 1%nat. split; [unfold N; lia|]. split; [reflexivity|].
      unfold slope. replace 0.5 with (1 / 2) by lra. field. lra.
    - exists 1%nat. split; [unfold N; lia|]. split; [reflexivity|].
      replace 0.5 with (1 / 2) by lra. field. lra.
    - exists (N - 2)%nat. split; [unfold N; lia|]. split; [reflexivity|].
      unfold slope. replace 0.5 with (1 / 2) by lra. field. lra. }
  destruct Hcache as (iP & HiP & HoP & Hvalue).
  destruct (Hdef i ltac:(rewrite Hsz; exact Hi)) as (_ & _ & _ & HvN).
  destruct (Js.getZ (sampleValues this') (_offsetNext this' + Z.of_nat i))
    as [vN|] eqn:EN; [clear HvN|now elim HvN].
  destruct (curve_tangents this' 1 (t 0%nat) (t 1%nat) i
              (v iP) (v 0%nat) (v 1%nat) vN ltac:(lra) Hdef
              ltac:(rewrite Hsz; exact Hi)) as [D0 _].
  - rewrite HoP. apply table_row; assumption.
  - rewrite Hsz. rewrite <- (table_row this' 0) by (assumption || unfold N; lia).
    f_equal. lia.
  - rewrite Hsz. apply (table_row this' 1); [assumption|unfold N; lia].
  - exact EN.
  - eapply derivable_pt_lim_ext; [reflexivity|exact Hvalue|exact D0].
Qed.

(** The tangent at the last sample, by the ending mode at the end. *)
Lemma end_tangent :
  exists this' : CubicInterpolant,
    intervalChanged_ this (Z.of_nat (N - 1)) (t (N - 2)%nat) (t (N - 1)%nat)
    = Some this'
    /\ derivable_pt_lim
         (curve this' (Z.of_nat (N - 1)) (t (N - 2)%nat) (t (N - 1)%nat) i)
         (t (N - 1)%nat)
         match endingEnd (getSettings_ this) with
         | ZeroSlopeEnding => slope (N - 2)%nat / 2
         | ZeroCurvatureEnding => slope (N - 2)%nat
         | WrapAroundEnding =>
           (slope (N - 2)%nat
            + (v 1%nat - v (N - 1)%nat) / (t 1%nat - t 0%nat)) / 2
         end.
Proof.
  assert (H01 : t 0%nat < t 1%nat) by (apply Hasc; lia).
  assert (HSN : S (N - 2) = (N - 1)%nat) by (unfold N; lia).
  assert (Hlast : t (N - 2)%nat < t (N - 1)%nat).
  { unfold t. rewrite <- HSN. apply Hasc. lia. }
  destruct (CubicInterpolantFacts.intervalChanged__stencil_defined
              this pp vs (N - 1)%nat Hpp Hvs Hlen Hasc ltac:(fold N; lia))
    as (this' & Hch & Hsv & Hsz & _ & Hdef).
  replace (N - 1 - 1)%nat with (N - 2)%nat in Hch by lia.
  change (intervalChanged_ this (Z.of_nat (N - 1)) (t (N - 2)%nat)
            (t (N - 1)%nat) = Some this') in Hch.
  exists this'. split; [exact Hch|].
  assert (Hcache : exists iN : nat,
            (iN < N)%nat
            /\ _offsetNext this' = (Z.of_nat iN * Z.of_nat (valueSize this))%Z
            /\ ((v (N - 1)%nat - v (N - 2)%nat) / 2
                + _weightNext this' * (v iN - v (N - 1)%nat))
               / (t (N - 1)%nat - t (N - 2)%nat)
               = match endingEnd (getSettings_ this) with
                 | ZeroSlopeEnding => slope (N - 2)%nat / 2
                 | ZeroCurvatureEnding => slope (N - 2)%nat
                 | WrapAroundEnding =>
                   (slope (N - 2)%nat
                    + (v 1%nat - v (N - 1)%nat) / (t 1%nat - t 0%nat)) / 2
                 end).
  { revert Hch. unfold intervalChanged_. cbv zeta. rewrite Hpp.
    replace (Z.of_nat (N - 1) + 1)%Z with (Z.of_nat N) by (unfold N; lia).
    rewrite (JsFacts.getZ_of_nat _ N), JsFacts.get_dense_none
      by (fold N; lia).
    assert (E1 : Js.getZ (Js.dense pp) 1 = Some (t 1%nat))
      by (apply (table_position 1); unfold N; lia).
    assert (E0 : Js.getZ (Js.dense pp) 0 = Some (t 0%nat))
      by (apply (table_position 0); unfold N; lia).
    rewrite E1, E0.
    match goal with
    | |- context [match ?e with Some _ => _ | None => None end] =>
      destruct e as [[iP tP]|]; [|discriminate]
    end.
    destruct (endingEnd (getSettings_ this)); cbv iota beta;
      match goal with
      | |- match Js.quotient ?a ?b with _ => _ end = _ -> _ =>
        destruct (Js.quotient a b) as [wP|]; [|discriminate]
      end;
      match goal with
      | |- match Js.quotient ?a ?b with _ => _ end = _ -> _ =>
        rewrite (JsFacts.quotient_some a b) by lra
      end;
      intros [= <-]; cbn [_offsetNext _weightNext set_cache].
    - exists (N - 2)%nat. split; [unfold N; lia|].
      split; [f_equal; unfold N; lia|].
      unfold slope. rewrite HSN. replace 0.5 with (1 / 2) by lra.
      field. lra.
    - exists (N - 1)%nat. split; [unfold N; lia|]. split; [reflexivity|].
      unfold slope. rewrite HSN. replace 0.5 with (1 / 2) by lra.
      field. lra.
    - exists 1%nat. split; [unfold N; lia|]. split; [reflexivity|].
      unfold slope. rewrite HSN. replace 0.5 with (1 / 2) by lra.
      field. lra. }
  destruct Hcache as (iN & HiN & HoN & Hvalue).
  destruct (Hdef i ltac:(rewrite Hsz; exact Hi)) as (HvP & _).
  destruct (Js.getZ (sampleValues this') (_offsetPrev this' + Z.of_nat i))
    as [vP|] eqn:EP; [clear HvP|now elim HvP].
  destruct (curve_tangents this' (Z.of_nat (N - 1)) (t (N - 2)%nat)
              (t (N - 1)%nat) i vP (v (N - 2)%nat) (v (N - 1)%nat) (v iN)
              ltac:(lra) Hdef ltac:(rewrite Hsz; exact Hi)) as [_ D1].
  - exact EP.
  - rewrite Hsz.
    rewrite <- (table_row this' (N - 2)) by (assumption || unfold N; lia).
    f_equal. unfold N. lia.
  - rewrite Hsz. apply table_row; [assumption|unfold N; lia].
  - rewrite HoN. apply table_row; assumption.
  - eapply derivable_pt_lim_ext; [reflexivity|exact Hvalue|exact D1].
Qed.

End Table.

(** X30.  The tangents at the two ends of a table with strictly
    increasing positions, by ending mode.  At the first sample: 0 with
    ZeroSlopeEnding, the slope of the first chord with ZeroCurvatureEnding,
    and with WrapAroundEnding the mean of that slope and of the one the
    wrapped sample gives.  At the last sample: the slope of the last chord
    with ZeroCurvatureEnding, half that slope with ZeroSlopeEnding (where
    the source repeats sample [i1] as the next one), and the mean of that
    slope and of the wrapped one with WrapAroundEnding. *)
Theorem ending_tangents
    (this : CubicInterpolant) (pp vs : list R) (i : nat) :
  parameterPositions this = Js.dense pp ->
  sampleValues this = Js.dense vs ->
  List.length vs = (List.length pp * valueSize this)%nat ->
  (forall j : nat, (S j < List.length pp)%nat ->
     nth j pp 0 < nth (S j) pp 0) ->
  (2 <= List.length pp)%nat -> (i < valueSize this)%nat ->
  let N := List.length pp in
  let t j := nth j pp 0 in
  let v j := nth (j * valueSize this + i) vs 0 in
  let slope j := (v (S j) - v j) / (t (S j) - t j) in
  (exists this' : CubicInterpolant,
     intervalChanged_ this 1 (t 0%nat) (t 1%nat) = Some this'
     /\ derivable_pt_lim (curve this' 1 (t 0%nat) (t 1%nat) i) (t 0%nat)
          match endingStart (getSettings_ this) with
          | ZeroSlopeEnding => 0
          | ZeroCurvatureEnding => slope 0%nat
          | WrapAroundEnding =>
            ((v 0%nat - v (N - 2)%nat) / (t (N - 1)%nat - t (N - 2)%nat)
             + slope 0%nat) / 2
          end)
  /\ (exists this' : CubicInterpolant,
        intervalChanged_ this (Z.of_nat (N - 1)) (t (N - 2)%nat)
          (t (N - 1)%nat) = Some this'
        /\ derivable_pt_lim
             (curve this' (Z.of_nat (N - 1)) (t (N - 2)%nat) (t (N - 1)%nat)
                i)
             (t (N - 1)%nat)
             match endingEnd (getSettings_ this) with
             | ZeroSlopeEnding => slope (N - 2)%nat / 2
             | ZeroCurvatureEnding => slope (N - 2)%nat
             | WrapAroundEnding =>
               (slope (N - 2)%nat
                + (v 1%nat - v (N - 1)%nat) / (t 1%nat - t 0%nat)) / 2
             end).
Proof.
  intros Hpp Hvs Hlen Hasc HN Hi. cbv zeta. split.
  - exact (start_tangent this pp vs i Hpp Hvs Hlen Hasc HN Hi).
  - exact (end_tangent this pp vs i Hpp Hvs Hlen Hasc HN Hi).
Qed.

(** [clamped_samples], with ZeroSlopeEnding at both ends: the curve starts
    flat, and ends with half the slope 2 of the last chord. *)
Lemma ending_tangents_witness :
  (exists this' : CubicInterpolant,
     intervalChanged_ clamped_samples 1 0 1 = Some this'
     /\ derivable_pt_lim (curve this' 1 0 1 0) 0 0)
  /\ (exists this' : CubicInterpolant,
        intervalChanged_ clamped_samples 3 3 4 = Some this'
        /\ derivable_pt_lim (curve this' 3 3 4 0) 4 1).
Proof.
  destruct (ending_tangents clamped_samples [0; 1; 3; 4] [0; 1; 0; 2] 0
              eq_refl eq_refl eq_refl CubicUseFacts.line_samples_ascending
              ltac:(simpl; lia) ltac:(simpl; lia))
    as [(a & Ha & Da) (b & Hb & Db)].
  split; [exists a|exists b]; (split; [assumption|]).
  - exact Da.
  - eapply derivable_pt_lim_ext; [reflexivity| |exact Db]. cbn. field.
Defined.
End TangentFacts.
